(** * Hebrew normalisation and fuzzy matching (hebrew_normalizer.py) and the
      coverage pass of create_complete_bhsa_mapping.py

    A shallow embedding of the Python sources.

    - A Python [str] is a sequence of Unicode code points: [list N].
    - An argument that may be [None] is an [option str].
    - Python integers that count characters or edits are [nat].
    - A Python [float] score is modelled by an exact rational ([Q]); the
      literals [0.0], [0.85], [0.9], [1.0] and [0.7] are the decimal
      rationals of the same spelling and [/], [-], [*] are exact.  This is
      the reading under which the order of the tiers, the order of scores
      and their bounds are proved.
    - Where the number itself matters (the score of the fuzzy tier,
      [round], the coverage percentage), a Python [float] is an IEEE 754
      binary64 number: [Binary64] takes the arithmetic from the standard
      library's [SpecFloat]; [HebrewNormalizer64] is [compare_hebrew] and
      [CompleteMapping64] the coverage pass with this arithmetic.
    - Operations that can raise (list indexing, true division, dictionary
      lookup) return in the exception monad [Py.result]. *)

From Stdlib Require Import String.
From Stdlib Require Import List Arith NArith ZArith QArith Qround Bool Lia Lqa.
From Stdlib Require Import Sorted Permutation.
From Stdlib Require SpecFloat.
From Equations Require Import Equations.
Import ListNotations.

Set Implicit Arguments.
Close Scope Q_scope.

(** ** Python values and exceptions *)

Definition codepoint := N.
Definition str := list codepoint.

Module Py.

Inductive exn : Type :=
| IndexError
| ZeroDivisionError
| KeyError.

Inductive result (A : Type) : Type :=
| Ok (a : A)
| Raise (e : exn).
Arguments Ok {A} a.
Arguments Raise {A} e.

Definition bind {A B} (r : result A) (k : A -> result B) : result B :=
  match r with
  | Ok a => k a
  | Raise e => Raise e
  end.

(** [l[i]] for a non-negative index. *)
Definition getitem {A} (l : list A) (i : nat) : result A :=
  match nth_error l i with
  | Some a => Ok a
  | None => Raise IndexError
  end.

(** [l[-1]]. *)
Definition getlast {A} (l : list A) : result A :=
  match rev l with
  | a :: _ => Ok a
  | [] => Raise IndexError
  end.

(** [a / b] on two non-negative integers: the quotient as a float. *)
Definition truediv (a b : nat) : result Q :=
  match b with
  | O => Raise ZeroDivisionError
  | S _ => Ok (Z.of_nat a # Pos.of_nat b)%Q
  end.

(** [for i, x in enumerate(l, start): s = body(s, i, x)]. *)
Fixpoint for_enumerate {A St} (body : St -> nat -> A -> result St)
         (start : nat) (l : list A) (s : St) : result St :=
  match l with
  | [] => Ok s
  | x :: l' => bind (body s start x) (for_enumerate body (S start) l')
  end.

(** [for x in l: s = body(s, x)]. *)
Fixpoint for_each {A St} (body : St -> A -> result St) (l : list A)
         (s : St) : result St :=
  match l with
  | [] => Ok s
  | x :: l' => bind (body s x) (for_each body l')
  end.

(** [not text] for a value that is [None] or a string. *)
Definition not_ (text : option str) : bool :=
  match text with
  | None => true
  | Some [] => true
  | Some (_ :: _) => false
  end.

(** The characters iterated by [for char in text] once [not text] is false. *)
Definition chars (text : option str) : str :=
  match text with
  | None => []
  | Some s => s
  end.

Definition str_eqb (s t : str) : bool :=
  if list_eq_dec N.eq_dec s t then true else false.

(** [text1 == text2] on values that are [None] or strings. *)
Definition eqb (t1 t2 : option str) : bool :=
  match t1, t2 with
  | None, None => true
  | Some s, Some t => str_eqb s t
  | _, _ => false
  end.

(** [x < y] on floats. *)
Definition ltb (x y : Q) : bool := negb (Qle_bool y x).

Fixpoint starts_with (s pat : str) {struct pat} : bool :=
  match pat, s with
  | [], _ => true
  | p :: pat', c :: s' => (c =? p)%N && starts_with s' pat'
  | _ :: _, [] => false
  end.

(** Leftmost, non-overlapping replacement of the literal, non-empty pattern
    [old] by [new]: the scan of [s.replace(old, new)] and of
    [re.sub(old, new, s)] for a pattern without metacharacters.  [skip]
    counts the characters of a match that are still to be passed over. *)
Fixpoint replace_scan (old new : str) (skip : nat) (s : str) : str :=
  match s with
  | [] => []
  | c :: s' =>
      match skip with
      | S k => replace_scan old new k s'
      | O => if starts_with s old
             then new ++ replace_scan old new (length old - 1) s'
             else c :: replace_scan old new 0 s'
      end
  end.

Definition replace (s old new : str) : str := replace_scan old new 0 s.

Definition re_sub (pattern repl s : str) : str := replace_scan pattern repl 0 s.

End Py.

Import Py.

Declare Scope py_scope.
Notation "x <- e ;; k" := (Py.bind e (fun x => k))
  (at level 61, e at next level, right associativity) : py_scope.
Open Scope py_scope.

(** ** hebrew_normalizer.py *)

Module HebrewNormalizer.

(** An element of [HEBREW_POINTS_EXTENDED]: a [range(lo, hi)] or a list. *)
Inductive point_range : Type :=
| py_range (lo hi : codepoint)
| py_list (l : list codepoint).

(** [code_point in point_range]. *)
Definition py_in (code_point : codepoint) (r : point_range) : bool :=
  match r with
  | py_range lo hi => (lo <=? code_point)%N && (code_point <? hi)%N
  | py_list l => existsb (N.eqb code_point) l
  end.

Definition HEBREW_POINTS_EXTENDED : list point_range :=
  [ py_range 0x05B0%N 0x05BD%N;
    py_range 0x05BF%N 0x05C3%N;
    py_range 0x05C4%N 0x05C6%N;
    py_list [0x05C7%N] ].

Definition final_kaf : codepoint := 0x05DA%N.
Definition kaf : codepoint := 0x05DB%N.
Definition final_mem : codepoint := 0x05DD%N.
Definition mem : codepoint := 0x05DE%N.
Definition final_nun : codepoint := 0x05DF%N.
Definition nun : codepoint := 0x05E0%N.
Definition final_pe : codepoint := 0x05E3%N.
Definition pe : codepoint := 0x05E4%N.
Definition final_tsadi : codepoint := 0x05E5%N.
Definition tsadi : codepoint := 0x05E6%N.
Definition vav : codepoint := 0x05D5%N.
Definition yod : codepoint := 0x05D9%N.

(** The dictionary [FINAL_FORMS], in insertion order. *)
Definition FINAL_FORMS : list (str * str) :=
  [ ([final_kaf], [kaf]);
    ([final_mem], [mem]);
    ([final_nun], [nun]);
    ([final_pe], [pe]);
    ([final_tsadi], [tsadi]) ].

(** [0x05D0 <= ord(char) <= 0x05EA]. *)
Definition is_hebrew_letter (char : codepoint) : bool :=
  ((0x05D0 <=? char)%N && (char <=? 0x05EA)%N).

Section WithUnicodeData.

(** [unicodedata.category]: the general category of a code point, a table
    of the Unicode Character Database that is not part of the sources. *)
Variable category : codepoint -> string.

(** One iteration of the first loop of [normalize_hebrew]. *)
Definition strip_step (normalized : str) (char : codepoint) : str :=
  if String.eqb (category char) "Mn"%string then normalized
  else
    let code_point := char in
    if existsb (py_in code_point) HEBREW_POINTS_EXTENDED then normalized
    else if (code_point =? 0x05C7)%N then normalized
    else normalized ++ [char].

Definition normalize_hebrew (text : option str) : str :=
  if Py.not_ text then []
  else
    let normalized := fold_left strip_step (Py.chars text) [] in
    let normalized :=
      fold_left (fun normalized '(final, regular) =>
                   Py.replace normalized final regular)
                FINAL_FORMS normalized in
    let result := filter is_hebrew_letter normalized in
    result.

Definition remove_matres_lectionis (text : str) : str :=
  let result := text in
  let result := Py.re_sub [vav; vav] [vav] result in
  let result := Py.re_sub [yod; yod] [yod] result in
  result.

(** [min(insertions, deletions, substitutions)]. *)
Definition min3 (a b c : nat) : nat := Nat.min a (Nat.min b c).

(** [(c1 != c2)] used as an integer. *)
Definition neq_int (c1 c2 : codepoint) : nat :=
  if (c1 =? c2)%N then 0 else 1.

(** Body of the inner loop of [levenshtein_distance]. *)
Definition inner_body (previous_row : list nat) (c1 : codepoint)
           (current_row : list nat) (j : nat) (c2 : codepoint)
  : result (list nat) :=
  p1 <- getitem previous_row (j + 1) ;;
  let insertions := p1 + 1 in
  cj <- getitem current_row j ;;
  let deletions := cj + 1 in
  p0 <- getitem previous_row j ;;
  let substitutions := p0 + neq_int c1 c2 in
  Ok (current_row ++ [min3 insertions deletions substitutions]).

(** Body of the outer loop of [levenshtein_distance]. *)
Definition outer_body (s2 : str) (previous_row : list nat) (i : nat)
           (c1 : codepoint) : result (list nat) :=
  let current_row := [i + 1] in
  for_enumerate (inner_body previous_row c1) 0 s2 current_row.

(** Keeps the equation of a test for the termination argument. *)
Definition inspect {A} (a : A) : {b : A | a = b} := exist _ a eq_refl.

Equations? levenshtein_distance (s1 s2 : str) : result nat
  by wf (if length s1 <? length s2 then 1 else 0) lt :=
  levenshtein_distance s1 s2 with inspect (length s1 <? length s2) := {
    | exist _ true _ => levenshtein_distance s2 s1
    | exist _ false _ =>
        if length s2 =? 0 then Ok (length s1)
        else
          let previous_row := seq 0 (length s2 + 1) in
          previous_row <- for_enumerate (outer_body s2) 0 s1 previous_row ;;
          getlast previous_row }.
Proof.
  rewrite e. apply Nat.ltb_lt in e.
  destruct (length s2 <? length s1) eqn:E; [apply Nat.ltb_lt in E; lia | lia].
Defined.

Definition compare_hebrew (text1 text2 : option str) (fuzzy : bool)
           (weight_exact weight_consonantal : Q) : result Q :=
  if Py.not_ text1 || Py.not_ text2 then Ok 0.0%Q
  else if Py.eqb text1 text2 then Ok weight_exact
  else
    let norm1 := normalize_hebrew text1 in
    let norm2 := normalize_hebrew text2 in
    if Py.str_eqb norm1 norm2 then Ok weight_consonantal
    else if negb fuzzy then Ok 0.0%Q
    else
      let max_len := Nat.max (length norm1) (length norm2) in
      if max_len =? 0 then Ok 0.0%Q
      else
        distance <- levenshtein_distance norm1 norm2 ;;
        quotient <- truediv distance max_len ;;
        let similarity := (1.0 - quotient)%Q in
        let fuzzy_weight := 0.7%Q in
        if Py.ltb similarity 0.9%Q
        then
          let norm1_no_ml := remove_matres_lectionis norm1 in
          let norm2_no_ml := remove_matres_lectionis norm2 in
          if Py.str_eqb norm1_no_ml norm2_no_ml && (0 <? length norm1_no_ml)
          then Ok 0.85%Q
          else Ok (similarity * fuzzy_weight)%Q
        else Ok (similarity * fuzzy_weight)%Q.

(** [compare_hebrew(text1, text2, fuzzy)] with the default weights. *)
Definition compare_hebrew_default (text1 text2 : option str) (fuzzy : bool)
  : result Q :=
  compare_hebrew text1 text2 fuzzy 1.0%Q 0.9%Q.

Definition is_hebrew_text (text : option str) : bool :=
  if Py.not_ text then false
  else existsb is_hebrew_letter (Py.chars text).

End WithUnicodeData.

End HebrewNormalizer.

Import HebrewNormalizer.

(** ** create_complete_bhsa_mapping.py: the coverage pass *)

Module CompleteMapping.

(** A Python [dict] with string keys, in insertion order. *)
Definition dict (V : Type) : Type := list (str * V).

Fixpoint dict_get {V} (d : dict V) (k : str) : option V :=
  match d with
  | [] => None
  | (k', v) :: d' => if Py.str_eqb k k' then Some v else dict_get d' k
  end.

(** [k in d]. *)
Definition dict_contains {V} (d : dict V) (k : str) : bool :=
  match dict_get d k with
  | Some _ => true
  | None => false
  end.

(** [d[k]]. *)
Definition dict_getitem {V} (d : dict V) (k : str) : result V :=
  match dict_get d k with
  | Some v => Ok v
  | None => Raise KeyError
  end.

(** [d[k] = v]: an existing key keeps its place, a new key goes last. *)
Fixpoint dict_set {V} (d : dict V) (k : str) (v : V) : dict V :=
  match d with
  | [] => [(k, v)]
  | (k', v') :: d' =>
      if Py.str_eqb k k' then (k', v) :: d' else (k', v') :: dict_set d' k v
  end.

Definition dict_keys {V} (d : dict V) : list str := map fst d.

(** [round(x)] to the nearest integer, ties to the even one. *)
Definition round_half_even (x : Q) : Z :=
  let f := Qfloor x in
  match Qcompare (x - inject_Z f) (1 # 2) with
  | Lt => f
  | Gt => (f + 1)%Z
  | Eq => if Z.even f then f else (f + 1)%Z
  end.

(** [round(score, 3)]. *)
Definition round3 (score : Q) : Q :=
  (round_half_even (score * 1000) # 1000)%Q.

(** An entry of [all_bhsa]. *)
Record bhsa_data : Type := {
  voc : str;
  cons : str;
  normalized : str
}.

(** An entry of [all_strongs]. *)
Record strongs_data : Type := {
  lemma : str;
  strongs_normalized : str;
  glosses : str
}.

(** An entry of [bhsa_to_strongs]. *)
Record match_entry : Type := {
  strongs : str;
  strongs_lemma : str;
  score : Q;
  method : string;
  kjv_glosses : str
}.

Section WithUnicodeData.

Variable category : codepoint -> string.

(** Body of the loop over [all_strongs.items()]; the state is
    [(best_match, best_score)]. *)
Definition best_step (bhsa : bhsa_data) (state : option match_entry * Q)
           (item : str * strongs_data) : result (option match_entry * Q) :=
  let '(best_match, best_score) := state in
  let '(strongs_num, strongs_data) := item in
  score <- compare_hebrew_default category (Some (normalized bhsa))
             (Some (strongs_normalized strongs_data)) true ;;
  if Py.ltb best_score score
  then
    let best_score := score in
    let best_match :=
      {| strongs := strongs_num;
         strongs_lemma := lemma strongs_data;
         score := round3 score;
         method := if Py.ltb score 0.9%Q then "fuzzy_match"
                   else "consonantal_match";
         kjv_glosses := glosses strongs_data |} in
    Ok (Some best_match, best_score)
  else Ok (best_match, best_score).

(** Body of the loop over [unmatched]; the state is
    [(bhsa_to_strongs, matched_count)].  The progress message is not
    modelled: it divides by [len(unmatched)], which is not zero inside the
    loop ([CompleteMapping64] has it). *)
Definition cover_step (all_bhsa : dict bhsa_data)
           (all_strongs : dict strongs_data)
           (state : dict match_entry * nat) (bhsa_lex : str)
  : result (dict match_entry * nat) :=
  let '(bhsa_to_strongs, matched_count) := state in
  bhsa_data <- dict_getitem all_bhsa bhsa_lex ;;
  best <- for_each (best_step bhsa_data) all_strongs (None, 0%Q) ;;
  match fst best with
  | Some best_match =>
      Ok (dict_set bhsa_to_strongs bhsa_lex best_match, matched_count + 1)
  | None => Ok (bhsa_to_strongs, matched_count)
  end.

(** [[lex for lex in all_bhsa.keys() if lex not in bhsa_to_strongs]]. *)
Definition unmatched_of (all_bhsa : dict bhsa_data)
           (bhsa_to_strongs : dict match_entry) : list str :=
  filter (fun lex => negb (dict_contains bhsa_to_strongs lex))
         (dict_keys all_bhsa).

(** Step 3 of [create_complete_bhsa_to_strongs]: the loop that assigns a
    best match to the lexemes that have none. *)
Definition coverage_pass (all_bhsa : dict bhsa_data)
           (all_strongs : dict strongs_data)
           (bhsa_to_strongs : dict match_entry)
  : result (dict match_entry * nat) :=
  let unmatched := unmatched_of all_bhsa bhsa_to_strongs in
  let matched_count := 0 in
  for_each (cover_step all_bhsa all_strongs) unmatched
           (bhsa_to_strongs, matched_count).

End WithUnicodeData.

(** A corpus with the single lexeme vav (pointed with a sheva) and a
    dictionary with the single entry av, "father". *)
Definition vav_lexeme : str := [0x05D5; 0x05B0]%N.
Definition av_lemma : str := [0x05D0; 0x05B8; 0x05D1]%N.
Definition strongs_H1 : str := [0x48; 0x31]%N.

Definition corpus_vav : dict bhsa_data :=
  [ (vav_lexeme, {| voc := vav_lexeme; cons := [vav]; normalized := [vav] |}) ].

Definition dictionary_av : dict strongs_data :=
  [ (strongs_H1,
     {| lemma := av_lemma;
        strongs_normalized := [0x05D0; 0x05D1]%N;
        glosses := [0x66; 0x61; 0x74; 0x68; 0x65; 0x72]%N |}) ].

End CompleteMapping.

(** ** Python floats as binary64 numbers *)

Module Binary64.

(** An IEEE 754 binary64 number: 53 bits of precision, exponents up to
    1024.  All operations round to nearest, ties to even. *)
Definition float : Type := SpecFloat.spec_float.

Definition prec : Z := 53.
Definition emax : Z := 1024.

(** An integer as an exact (not rounded) argument of a division. *)
Definition exact_int (n : Z) : float :=
  match n with
  | Z0 => SpecFloat.S754_zero false
  | Zpos p => SpecFloat.S754_finite false p 0
  | Zneg p => SpecFloat.S754_finite true p 0
  end.

(** The binary64 number nearest to the quotient [n / d] of two integers:
    the value of the true division of two Python integers, and of a decimal
    literal with numerator [n] and denominator [d]. *)
Definition div_int (n d : Z) : float :=
  SpecFloat.SFdiv prec emax (exact_int n) (exact_int d).

(** [a / b] on two non-negative integers. *)
Definition truediv (a b : nat) : result float :=
  match b with
  | O => Raise ZeroDivisionError
  | S _ => Ok (div_int (Z.of_nat a) (Z.of_nat b))
  end.

(** [x - y], [x * y], [x < y] and [x >= y] on floats. *)
Definition sub (x y : float) : float := SpecFloat.SFsub prec emax x y.
Definition mul (x y : float) : float := SpecFloat.SFmul prec emax x y.
Definition ltb (x y : float) : bool := SpecFloat.SFltb x y.
Definition geb (x y : float) : bool := SpecFloat.SFleb y x.

(** The literals [0.0], [0.7], [0.85], [0.9] and [1.0]:
    [0x1.6666666666666p-1], [0x1.b333333333333p-1], [0x1.ccccccccccccdp-1]
    and [0x1p0]. *)
Definition d0_0 : float := SpecFloat.S754_zero false.
Definition d0_7 : float := SpecFloat.S754_finite false 6305039478318694 (-53).
Definition d0_85 : float := SpecFloat.S754_finite false 7656119366529843 (-53).
Definition d0_9 : float := SpecFloat.S754_finite false 8106479329266893 (-53).
Definition d1_0 : float := SpecFloat.S754_finite false 4503599627370496 (-52).

(** The rational number a float stands for (zero for the values that are
    not finite). *)
Definition to_Q (x : float) : Q :=
  match x with
  | SpecFloat.S754_finite s m e =>
      let n := if s then Zneg m else Zpos m in
      match e with
      | Z0 => inject_Z n
      | Zpos k => inject_Z (n * 2 ^ Zpos k)
      | Zneg k => (n # 2 ^ k)%Q
      end
  | _ => 0%Q
  end.

(** [round(x, ndigits)] for [ndigits >= 0]: the float nearest to the decimal
    number with [ndigits] places that is nearest to the value of [x], ties
    between two decimals going to the even one (CPython converts [x] to the
    correctly rounded decimal string and the string back to a float). *)
Definition round (x : float) (ndigits : nat) : float :=
  match x with
  | SpecFloat.S754_finite s _ _ =>
      let scale := (10 ^ Z.of_nat ndigits)%Z in
      match CompleteMapping.round_half_even (to_Q x * inject_Z scale)%Q with
      | Z0 => SpecFloat.S754_zero s
      | k => div_int k scale
      end
  | _ => x
  end.

End Binary64.

(** ** hebrew_normalizer.py: [compare_hebrew] with binary64 scores *)

Module HebrewNormalizer64.

Section WithUnicodeData.

Variable category : codepoint -> string.

(** [compare_hebrew], as in [HebrewNormalizer] except that the scores are
    binary64 numbers and the three operations of the fuzzy tier round as
    Python's do. *)
Definition compare_hebrew (text1 text2 : option str) (fuzzy : bool)
           (weight_exact weight_consonantal : Binary64.float)
  : result Binary64.float :=
  if Py.not_ text1 || Py.not_ text2 then Ok Binary64.d0_0
  else if Py.eqb text1 text2 then Ok weight_exact
  else
    let norm1 := normalize_hebrew category text1 in
    let norm2 := normalize_hebrew category text2 in
    if Py.str_eqb norm1 norm2 then Ok weight_consonantal
    else if negb fuzzy then Ok Binary64.d0_0
    else
      let max_len := Nat.max (length norm1) (length norm2) in
      if max_len =? 0 then Ok Binary64.d0_0
      else
        distance <- levenshtein_distance norm1 norm2 ;;
        quotient <- Binary64.truediv distance max_len ;;
        let similarity := Binary64.sub Binary64.d1_0 quotient in
        let fuzzy_weight := Binary64.d0_7 in
        if Binary64.ltb similarity Binary64.d0_9
        then
          let norm1_no_ml := remove_matres_lectionis norm1 in
          let norm2_no_ml := remove_matres_lectionis norm2 in
          if Py.str_eqb norm1_no_ml norm2_no_ml && (0 <? length norm1_no_ml)
          then Ok Binary64.d0_85
          else Ok (Binary64.mul similarity fuzzy_weight)
        else Ok (Binary64.mul similarity fuzzy_weight).

(** [compare_hebrew(text1, text2, fuzzy)] with the default weights. *)
Definition compare_hebrew_default (text1 text2 : option str) (fuzzy : bool)
  : result Binary64.float :=
  compare_hebrew text1 text2 fuzzy Binary64.d1_0 Binary64.d0_9.

End WithUnicodeData.

End HebrewNormalizer64.

(** ** create_complete_bhsa_mapping.py: the coverage pass with binary64
       scores *)

Module CompleteMapping64.

Import CompleteMapping.

(** An entry of [bhsa_to_strongs], its score a binary64 number. *)
Record match_entry : Type := {
  strongs : str;
  strongs_lemma : str;
  score : Binary64.float;
  method : string;
  kjv_glosses : str
}.

Section WithUnicodeData.

Variable category : codepoint -> string.

(** Body of the loop over [all_strongs.items()], as in [CompleteMapping]
    except that [compare_hebrew], [>], [round] and [<] are those of binary64
    floats.  The initial [best_score], the integer [0], compares with a
    float as the float [0.0] does. *)
Definition best_step (bhsa : bhsa_data)
           (state : option match_entry * Binary64.float)
           (item : str * strongs_data)
  : result (option match_entry * Binary64.float) :=
  let '(best_match, best_score) := state in
  let '(strongs_num, strongs_data) := item in
  score <- HebrewNormalizer64.compare_hebrew_default category
             (Some (normalized bhsa))
             (Some (strongs_normalized strongs_data)) true ;;
  if Binary64.ltb best_score score
  then
    let best_score := score in
    let best_match :=
      {| strongs := strongs_num;
         strongs_lemma := lemma strongs_data;
         score := Binary64.round score 3;
         method := if Binary64.ltb score Binary64.d0_9 then "fuzzy_match"
                   else "consonantal_match";
         kjv_glosses := glosses strongs_data |} in
    Ok (Some best_match, best_score)
  else Ok (best_match, best_score).

(** The progress message of every hundredth match: it formats
    [100*matched_count/len(unmatched)], and nothing of it is kept. *)
Definition progress (matched_count : nat) (unmatched : list str)
  : result unit :=
  if matched_count mod 100 =? 0
  then
    percent <- Binary64.truediv (100 * matched_count) (length unmatched) ;;
    Ok tt
  else Ok tt.

(** Body of the loop over [unmatched]. *)
Definition cover_step (all_bhsa : dict bhsa_data)
           (all_strongs : dict strongs_data) (unmatched : list str)
           (state : dict match_entry * nat) (bhsa_lex : str)
  : result (dict match_entry * nat) :=
  let '(bhsa_to_strongs, matched_count) := state in
  bhsa_data <- dict_getitem all_bhsa bhsa_lex ;;
  best <- for_each (best_step bhsa_data) all_strongs
            (None, Binary64.d0_0) ;;
  match fst best with
  | Some best_match =>
      let bhsa_to_strongs := dict_set bhsa_to_strongs bhsa_lex best_match in
      let matched_count := matched_count + 1 in
      message <- progress matched_count unmatched ;;
      Ok (bhsa_to_strongs, matched_count)
  | None => Ok (bhsa_to_strongs, matched_count)
  end.

(** [[lex for lex in all_bhsa.keys() if lex not in bhsa_to_strongs]]. *)
Definition unmatched_of (all_bhsa : dict bhsa_data)
           (bhsa_to_strongs : dict match_entry) : list str :=
  filter (fun lex => negb (dict_contains bhsa_to_strongs lex))
         (dict_keys all_bhsa).

(** Step 3 of [create_complete_bhsa_to_strongs]. *)
Definition coverage_pass (all_bhsa : dict bhsa_data)
           (all_strongs : dict strongs_data)
           (bhsa_to_strongs : dict match_entry)
  : result (dict match_entry * nat) :=
  let unmatched := unmatched_of all_bhsa bhsa_to_strongs in
  let matched_count := 0 in
  for_each (cover_step all_bhsa all_strongs unmatched) unmatched
           (bhsa_to_strongs, matched_count).

End WithUnicodeData.

End CompleteMapping64.

(** ** hebrew_normalizer.py: the statistics and the dictionary entries *)

Module HebrewStats.

(** The dictionary returned by [get_hebrew_stats]. *)
Record stats : Type := {
  consonants : nat;
  vowel_points : nat;
  final_forms : nat;
  has_niqqud : bool;
  length : nat
}.

(** [char in FINAL_FORMS]: [char] is a key of the dictionary. *)
Definition in_FINAL_FORMS (char : codepoint) : bool :=
  existsb (fun '(final, _) => Py.str_eqb [char] final) FINAL_FORMS.

Section WithUnicodeData.

Variable category : codepoint -> string.

(** One iteration of the loop of [get_hebrew_stats]. *)
Definition stats_step (st : stats) (char : codepoint) : stats :=
  let code_point := char in
  let st :=
    if (0x05D0 <=? code_point)%N && (code_point <=? 0x05EA)%N
    then
      let st := {| consonants := consonants st + 1;
                   vowel_points := vowel_points st;
                   final_forms := final_forms st;
                   has_niqqud := has_niqqud st;
                   length := length st |} in
      if in_FINAL_FORMS char
      then {| consonants := consonants st;
              vowel_points := vowel_points st;
              final_forms := final_forms st + 1;
              has_niqqud := has_niqqud st;
              length := length st |}
      else st
    else st in
  if String.eqb (category char) "Mn"%string
  then {| consonants := consonants st;
          vowel_points := vowel_points st + 1;
          final_forms := final_forms st;
          has_niqqud := true;
          length := length st |}
  else st.

(** [get_hebrew_stats(text)] for a string [text]. *)
Definition get_hebrew_stats (text : str) : stats :=
  let st := {| consonants := 0;
               vowel_points := 0;
               final_forms := 0;
               has_niqqud := false;
               length := Datatypes.length text |} in
  fold_left stats_step text st.

End WithUnicodeData.

End HebrewStats.

Module StrongsEntry.

(** A Strong's entry as [extract_strongs_hebrew] reads it: a dictionary from
    field names to values that are [None] or strings. *)
Definition entry : Type := CompleteMapping.dict (option str).

Definition lemma_field : str := [0x6C; 0x65; 0x6D; 0x6D; 0x61]%N.
Definition hebrew_field : str := [0x68; 0x65; 0x62; 0x72; 0x65; 0x77]%N.
Definition word_field : str := [0x77; 0x6F; 0x72; 0x64]%N.
Definition text_field : str := [0x74; 0x65; 0x78; 0x74]%N.

(** [d.get(k, default)]. *)
Definition dict_get_default {V} (d : CompleteMapping.dict V) (k : str)
           (default : V) : V :=
  match CompleteMapping.dict_get d k with
  | Some v => v
  | None => default
  end.

(** The loop over the alternative field names, left at the first value that
    is not empty. *)
Fixpoint alt_fields_loop (strongs_entry : entry) (alt_fields : list str)
         (hebrew_text : option str) : option str :=
  match alt_fields with
  | [] => hebrew_text
  | alt_field :: alt_fields' =>
      let hebrew_text := dict_get_default strongs_entry alt_field (Some []) in
      if negb (Py.not_ hebrew_text) then hebrew_text
      else alt_fields_loop strongs_entry alt_fields' hebrew_text
  end.

Section WithUnicodeData.

Variable category : codepoint -> string.

(** [extract_strongs_hebrew(strongs_entry, field)] for an argument that is
    [None] or a dictionary. *)
Definition extract_strongs_hebrew (strongs_entry : option entry)
           (field : str) : str :=
  match strongs_entry with
  | None => []
  | Some [] => []
  | Some ((_ :: _) as strongs_entry) =>
      let hebrew_text := dict_get_default strongs_entry field (Some []) in
      let hebrew_text :=
        if Py.not_ hebrew_text
        then alt_fields_loop strongs_entry
               [lemma_field; hebrew_field; word_field; text_field]
               hebrew_text
        else hebrew_text in
      normalize_hebrew category hebrew_text
  end.

(** [normalize_hebrew_list(texts)]. *)
Definition normalize_hebrew_list (texts : list (option str)) : list str :=
  map (normalize_hebrew category) texts.

End WithUnicodeData.

End StrongsEntry.

(** ** More of the Python layer *)

Module PyMore.

(** [not s] for a string. *)
Definition str_not (s : str) : bool :=
  match s with
  | [] => true
  | _ :: _ => false
  end.

(** [a or b] on two strings. *)
Definition str_or (a b : str) : str :=
  match a with
  | [] => b
  | _ :: _ => a
  end.

(** [not l] for a list or a dictionary. *)
Definition list_not {A} (l : list A) : bool :=
  match l with
  | [] => true
  | _ :: _ => false
  end.

(** [x >= y] on floats. *)
Definition geb (x y : Q) : bool := Qle_bool y x.

(** [abs(len(a) - len(b))]. *)
Definition abs_len_diff (a b : str) : Z :=
  Z.abs (Z.of_nat (length a) - Z.of_nat (length b)).

(** Insertion of [x] in a list sorted by decreasing key, before the first
    element whose key is not greater. *)
Fixpoint insert_desc {A} (key : A -> Q) (x : A) (l : list A) : list A :=
  match l with
  | [] => [x]
  | y :: l' =>
      if Py.ltb (key x) (key y) then y :: insert_desc key x l'
      else x :: y :: l'
  end.

(** [l.sort(key=key, reverse=True)]: the stable sort by decreasing key
    (elements with equal keys keep their order). *)
Definition sort_desc {A} (key : A -> Q) (l : list A) : list A :=
  fold_right (insert_desc key) [] l.

End PyMore.

(** ** build_mapping.py: the lexemes, the index and the matches *)

Module BuildMapping.

Import CompleteMapping.

(** An entry of [lexeme_map] and of [bhsa_lexemes]. *)
Module Lexeme.
Record t : Type := {
  node : nat;
  lex_utf8 : str;
  voc_lex_utf8 : str;
  language : str;
  normalized : str
}.
End Lexeme.

(** A match returned by [find_bhsa_matches]. *)
Module Match.
Record t : Type := {
  node : nat;
  score : Q;
  bhsa_lex : str;
  bhsa_voc : str;
  language : str
}.
End Match.

(** The default language, ['Hebrew']. *)
Definition Hebrew : str := [0x48; 0x65; 0x62; 0x72; 0x65; 0x77]%N.

(** The number of word nodes, 426590. *)
Definition word_limit : nat := N.to_nat 426590.

Section WithUnicodeData.

Variable category : codepoint -> string.

(** One iteration of the loop of [load_bhsa_data] over the lines. *)
Definition load_step (lex_lines voc_lex_lines lang_lines : list str)
           (lexeme_map : dict Lexeme.t) (i : nat) : dict Lexeme.t :=
  let lex := nth i lex_lines [] in
  let voc_lex := nth i voc_lex_lines [] in
  let lang := nth i lang_lines Hebrew in
  if negb (PyMore.str_not lex) || negb (PyMore.str_not voc_lex)
  then
    let key := PyMore.str_or voc_lex lex in
    if negb (dict_contains lexeme_map key)
    then
      let normalized :=
        normalize_hebrew category (Some (PyMore.str_or voc_lex lex)) in
      dict_set lexeme_map key
        {| Lexeme.node := i + 1;
           Lexeme.lex_utf8 := lex;
           Lexeme.voc_lex_utf8 := voc_lex;
           Lexeme.language := lang;
           Lexeme.normalized := normalized |}
    else lexeme_map
  else lexeme_map.

(** [lexeme_map] after the loop, from the lines of the three files. *)
Definition load_lexeme_map (lex_lines voc_lex_lines lang_lines : list str)
  : dict Lexeme.t :=
  fold_left (load_step lex_lines voc_lex_lines lang_lines)
            (seq 0 (Nat.min (length lex_lines) word_limit)) [].

(** One iteration of the loop that builds [bhsa_index]. *)
Definition index_step (bhsa_index : dict (list Lexeme.t)) (lex : Lexeme.t)
  : result (dict (list Lexeme.t)) :=
  let norm := Lexeme.normalized lex in
  let bhsa_index :=
    if negb (dict_contains bhsa_index norm)
    then dict_set bhsa_index norm []
    else bhsa_index in
  bucket <- dict_getitem bhsa_index norm ;;
  Ok (dict_set bhsa_index norm (bucket ++ [lex])).

(** [bhsa_lexemes] and [bhsa_index] as [load_bhsa_data] leaves them. *)
Definition load_bhsa_data (lex_lines voc_lex_lines lang_lines : list str)
  : result (list Lexeme.t * dict (list Lexeme.t)) :=
  let lexeme_map := load_lexeme_map lex_lines voc_lex_lines lang_lines in
  let bhsa_lexemes := map snd lexeme_map in
  bhsa_index <- for_each index_step bhsa_lexemes [] ;;
  Ok (bhsa_lexemes, bhsa_index).

(** The match appended for a lexeme and its score. *)
Definition match_of (bhsa_lex : Lexeme.t) (score : Q) : Match.t :=
  {| Match.node := Lexeme.node bhsa_lex;
     Match.score := round3 score;
     Match.bhsa_lex := Lexeme.lex_utf8 bhsa_lex;
     Match.bhsa_voc := Lexeme.voc_lex_utf8 bhsa_lex;
     Match.language := Lexeme.language bhsa_lex |}.

(** Body of the two loops over lexemes of [find_bhsa_matches]. *)
Definition match_step (strongs_hebrew : str) (matches : list Match.t)
           (bhsa_lex : Lexeme.t) : result (list Match.t) :=
  score <- compare_hebrew_default category (Some strongs_hebrew)
             (Some (Lexeme.normalized bhsa_lex)) true ;;
  if PyMore.geb score 0.7%Q
  then Ok (matches ++ [match_of bhsa_lex score])
  else Ok matches.

(** Body of the loop over [bhsa_index.items()]. *)
Definition fuzzy_step (strongs_hebrew : str) (matches : list Match.t)
           (item : str * list Lexeme.t) : result (list Match.t) :=
  let '(norm_form, bhsa_list) := item in
  if (PyMore.abs_len_diff norm_form strongs_hebrew <=? 2)%Z
  then for_each (match_step strongs_hebrew) bhsa_list matches
  else Ok matches.

Definition find_bhsa_matches (use_bhsa : bool)
           (bhsa_index : dict (list Lexeme.t))
           (strongs_entry : option StrongsEntry.entry)
  : result (list Match.t) :=
  if negb use_bhsa || PyMore.list_not bhsa_index then Ok []
  else
    let strongs_hebrew :=
      StrongsEntry.extract_strongs_hebrew category strongs_entry
        StrongsEntry.lemma_field in
    if PyMore.str_not strongs_hebrew then Ok []
    else
      let matches := [] in
      let exact_matches :=
        StrongsEntry.dict_get_default bhsa_index strongs_hebrew [] in
      matches <- for_each (match_step strongs_hebrew) exact_matches matches ;;
      matches <- (if PyMore.list_not matches
                  then for_each (fuzzy_step strongs_hebrew) bhsa_index matches
                  else Ok matches) ;;
      let matches := PyMore.sort_desc Match.score matches in
      Ok (firstn 10 matches).

End WithUnicodeData.

End BuildMapping.

(** ** build_mapping.py: processing the dictionary entries *)

Module MappingBuilder.

Import CompleteMapping.

(** [self.stats]. *)
Record stats : Type := {
  total_strongs : nat;
  matched : nat;
  unmatched : nat;
  ambiguous : nat;
  high_confidence : nat;
  medium_confidence : nat;
  low_confidence : nat
}.

(** [self.stats['matched'] += 1] and the like. *)
Definition incr_matched (s : stats) : stats :=
  {| total_strongs := total_strongs s; matched := matched s + 1;
     unmatched := unmatched s; ambiguous := ambiguous s;
     high_confidence := high_confidence s;
     medium_confidence := medium_confidence s;
     low_confidence := low_confidence s |}.

Definition incr_unmatched (s : stats) : stats :=
  {| total_strongs := total_strongs s; matched := matched s;
     unmatched := unmatched s + 1; ambiguous := ambiguous s;
     high_confidence := high_confidence s;
     medium_confidence := medium_confidence s;
     low_confidence := low_confidence s |}.

Definition incr_ambiguous (s : stats) : stats :=
  {| total_strongs := total_strongs s; matched := matched s;
     unmatched := unmatched s; ambiguous := ambiguous s + 1;
     high_confidence := high_confidence s;
     medium_confidence := medium_confidence s;
     low_confidence := low_confidence s |}.

Definition incr_high_confidence (s : stats) : stats :=
  {| total_strongs := total_strongs s; matched := matched s;
     unmatched := unmatched s; ambiguous := ambiguous s;
     high_confidence := high_confidence s + 1;
     medium_confidence := medium_confidence s;
     low_confidence := low_confidence s |}.

Definition incr_medium_confidence (s : stats) : stats :=
  {| total_strongs := total_strongs s; matched := matched s;
     unmatched := unmatched s; ambiguous := ambiguous s;
     high_confidence := high_confidence s;
     medium_confidence := medium_confidence s + 1;
     low_confidence := low_confidence s |}.

Definition incr_low_confidence (s : stats) : stats :=
  {| total_strongs := total_strongs s; matched := matched s;
     unmatched := unmatched s; ambiguous := ambiguous s;
     high_confidence := high_confidence s;
     medium_confidence := medium_confidence s;
     low_confidence := low_confidence s + 1 |}.

(** An entry of [self.mapping]. *)
Record mapping_entry : Type := {
  strongs_number : str;
  strongs_lemma : option str;
  strongs_normalized : str;
  bhsa_matches : list BuildMapping.Match.t;
  kjv_glosses : str;
  gloss_list : list str;
  confidence : string;
  match_count : nat
}.

Definition kjv_def_field : str :=
  [0x6B; 0x6A; 0x76; 0x5F; 0x64; 0x65; 0x66]%N.

Section WithUnicodeData.

Variable category : codepoint -> string.

(** [clean_kjv_glosses] works with Unicode-aware regular expressions and
    case mapping; it is a parameter here.  It raises on no string. *)
Variable clean_kjv_glosses : option str -> str * list str.

Variable use_bhsa : bool.
Variable bhsa_index : dict (list BuildMapping.Lexeme.t).

(** [process_strongs_entry]; the counters are threaded through. *)
Definition process_strongs_entry (st : stats) (strongs_num : str)
           (entry : StrongsEntry.entry) : result (mapping_entry * stats) :=
  let strongs_lemma :=
    StrongsEntry.dict_get_default entry StrongsEntry.lemma_field (Some []) in
  let strongs_normalized := normalize_hebrew category strongs_lemma in
  let kjv_def :=
    StrongsEntry.dict_get_default entry kjv_def_field (Some []) in
  let '(gloss_string, gloss_list) := clean_kjv_glosses kjv_def in
  bhsa_matches <- BuildMapping.find_bhsa_matches category use_bhsa bhsa_index
                    (Some entry) ;;
  let '(confidence, st) :=
    match bhsa_matches with
    | m0 :: _ =>
        let best_score := BuildMapping.Match.score m0 in
        let '(confidence, st) :=
          if PyMore.geb best_score 0.95%Q
          then ("high"%string, incr_high_confidence st)
          else if PyMore.geb best_score 0.85%Q
          then ("medium"%string, incr_medium_confidence st)
          else ("low"%string, incr_low_confidence st) in
        let st :=
          if 1 <? length bhsa_matches then incr_ambiguous st else st in
        (confidence, incr_matched st)
    | [] => ("none"%string, incr_unmatched st)
    end in
  Ok ({| strongs_number := strongs_num;
         strongs_lemma := strongs_lemma;
         strongs_normalized := strongs_normalized;
         bhsa_matches := bhsa_matches;
         kjv_glosses := gloss_string;
         gloss_list := gloss_list;
         confidence := confidence;
         match_count := length bhsa_matches |}, st).

(** The progress message of [build_mapping]: every hundredth entry it
    formats [100*i/self.stats['total_strongs']]; only the division can
    raise, the text is not modelled. *)
Definition progress (st : stats) (i : nat) : result unit :=
  if i mod 100 =? 0
  then
    percent <- Py.truediv (100 * i) (total_strongs st) ;;
    Ok tt
  else Ok tt.

(** Body of the loop of [build_mapping] over
    [enumerate(self.strongs_data.items(), 1)]; the state is
    [(self.mapping, self.stats)]. *)
Definition build_step (state : dict mapping_entry * stats) (i : nat)
           (item : str * StrongsEntry.entry)
  : result (dict mapping_entry * stats) :=
  let '(mapping, st) := state in
  let '(strongs_num, entry) := item in
  message <- progress st i ;;
  r <- process_strongs_entry st strongs_num entry ;;
  let '(mapping_entry, st) := r in
  Ok (dict_set mapping strongs_num mapping_entry, st).

Definition build_mapping (strongs_data : dict StrongsEntry.entry)
           (mapping : dict mapping_entry) (st : stats)
  : result (dict mapping_entry * stats) :=
  for_enumerate build_step 1 strongs_data (mapping, st).

End WithUnicodeData.

End MappingBuilder.

(** ** create_complete_bhsa_mapping.py: the whole function *)

Module CreateComplete.

Import CompleteMapping.

(** An entry of strongs_to_bhsa.json, with the fields the function reads;
    the file is the one written by build_mapping.py. *)
Module Entry.
Record t : Type := {
  bhsa_matches : list BuildMapping.Match.t;
  strongs_lemma : str;
  strongs_normalized : str;
  kjv_glosses : str
}.
End Entry.

(** The summary; [by_method] and [by_confidence] are flattened. *)
Record summary : Type := {
  total_bhsa_lexemes : nat;
  total_matched : nat;
  coverage : Binary64.float;
  exact_match : nat;
  consonantal_match : nat;
  fuzzy_match : nat;
  high : nat;
  medium : nat;
  low : nat
}.

(** Step 1, body of the loop over [entry['bhsa_matches']]. *)
Definition reverse_match_step (strongs_num : str) (entry : Entry.t)
           (bhsa_to_strongs : dict match_entry) (m : BuildMapping.Match.t)
  : dict match_entry :=
  let bhsa_voc := BuildMapping.Match.bhsa_voc m in
  if negb (PyMore.str_not bhsa_voc)
     && negb (dict_contains bhsa_to_strongs bhsa_voc)
  then
    dict_set bhsa_to_strongs bhsa_voc
      {| strongs := strongs_num;
         strongs_lemma := Entry.strongs_lemma entry;
         score := BuildMapping.Match.score m;
         method := "exact_match";
         kjv_glosses := Entry.kjv_glosses entry |}
  else bhsa_to_strongs.

(** Step 1, body of the loop over [strongs_mapping.items()]. *)
Definition reverse_entry_step (bhsa_to_strongs : dict match_entry)
           (item : str * Entry.t) : dict match_entry :=
  let '(strongs_num, entry) := item in
  fold_left (reverse_match_step strongs_num entry)
            (Entry.bhsa_matches entry) bhsa_to_strongs.

Definition reverse_mapping (strongs_mapping : dict Entry.t)
  : dict match_entry :=
  fold_left reverse_entry_step strongs_mapping [].

(** [all_strongs]. *)
Definition all_strongs_of (strongs_mapping : dict Entry.t)
  : dict strongs_data :=
  map (fun item : str * Entry.t =>
         let '(num, entry) := item in
         (num, {| lemma := Entry.strongs_lemma entry;
                  strongs_normalized := Entry.strongs_normalized entry;
                  glosses := Entry.kjv_glosses entry |}))
      strongs_mapping.

(** [sum(1 for v in d.values() if p(v))]. *)
Definition count_values (p : match_entry -> bool) (d : dict match_entry)
  : nat :=
  length (filter p (map snd d)).

Section WithUnicodeData.

Variable category : codepoint -> string.

(** Step 2, body of the loop over the lines. *)
Definition bhsa_step (lex_lines voc_lex_lines : list str)
           (all_bhsa : dict bhsa_data) (i : nat) : result (dict bhsa_data) :=
  voc_lex <- (if i <? length voc_lex_lines then Py.getitem voc_lex_lines i
              else Ok []) ;;
  lex <- Py.getitem lex_lines i ;;
  if negb (PyMore.str_not voc_lex) && negb (dict_contains all_bhsa voc_lex)
  then
    Ok (dict_set all_bhsa voc_lex
          {| voc := voc_lex;
             cons := lex;
             normalized := normalize_hebrew category (Some voc_lex) |})
  else Ok all_bhsa.

Definition load_all_bhsa (lex_lines voc_lex_lines : list str)
  : result (dict bhsa_data) :=
  for_each (bhsa_step lex_lines voc_lex_lines)
           (seq 0 (Nat.min (length lex_lines) BuildMapping.word_limit)) [].

(** [create_complete_bhsa_to_strongs], from the contents of the three files
    it reads; messages and the two files it writes are not modelled.  The
    coverage is a binary64 number: the quotient of two integers, rounded to
    two places by [round]. *)
Definition create_complete_bhsa_to_strongs (strongs_mapping : dict Entry.t)
           (lex_lines voc_lex_lines : list str)
  : result (dict match_entry * summary) :=
  let bhsa_to_strongs := reverse_mapping strongs_mapping in
  all_bhsa <- load_all_bhsa lex_lines voc_lex_lines ;;
  let all_strongs := all_strongs_of strongs_mapping in
  r <- coverage_pass category all_bhsa all_strongs bhsa_to_strongs ;;
  let '(bhsa_to_strongs, matched_count) := r in
  let total := length all_bhsa in
  let exact :=
    count_values (fun v => String.eqb (method v) "exact_match")
                 bhsa_to_strongs in
  let consonantal :=
    count_values (fun v => String.eqb (method v) "consonantal_match")
                 bhsa_to_strongs in
  let fuzzy :=
    count_values (fun v => String.eqb (method v) "fuzzy_match")
                 bhsa_to_strongs in
  let high_conf :=
    count_values (fun v => PyMore.geb (score v) 0.9%Q) bhsa_to_strongs in
  let medium_conf :=
    count_values (fun v => PyMore.geb (score v) 0.7%Q
                           && Py.ltb (score v) 0.9%Q) bhsa_to_strongs in
  let low_conf :=
    count_values (fun v => Py.ltb (score v) 0.7%Q) bhsa_to_strongs in
  q <- Binary64.truediv (100 * length bhsa_to_strongs) total ;;
  Ok (bhsa_to_strongs,
      {| total_bhsa_lexemes := total;
         total_matched := length bhsa_to_strongs;
         coverage := Binary64.round q 2;
         exact_match := exact;
         consonantal_match := consonantal;
         fuzzy_match := fuzzy;
         high := high_conf;
         medium := medium_conf;
         low := low_conf |}).

End WithUnicodeData.

End CreateComplete.

(** ** tf/advanced/english.py and English-lineup/kjv_align.py: offsets *)

Module EnglishTranslation.

(** [self.offset_map]: a dictionary from node numbers to offsets, in
    insertion order. *)
Definition offset_dict : Type := list (Z * Z).

Fixpoint offset_get (d : offset_dict) (k : Z) : option Z :=
  match d with
  | [] => None
  | (k', v) :: d' => if (k =? k')%Z then Some v else offset_get d' k
  end.

(** [d[k]]. *)
Definition offset_getitem (d : offset_dict) (k : Z) : result Z :=
  match offset_get d k with
  | Some v => Ok v
  | None => Raise KeyError
  end.

(** Insertion of [x] in an increasing list, before the first element that
    is not smaller. *)
Fixpoint insert_asc (x : Z) (l : list Z) : list Z :=
  match l with
  | [] => [x]
  | y :: l' => if (x <=? y)%Z then x :: y :: l' else y :: insert_asc x l'
  end.

(** [sorted(l)] on integers. *)
Definition sorted (l : list Z) : list Z := fold_right insert_asc [] l.

(** The loop of [_get_offset], with its [break]. *)
Fixpoint offset_loop (offset_map : offset_dict) (bhsa_node : Z)
         (nodes : list Z) (offset : Z) : result Z :=
  match nodes with
  | [] => Ok offset
  | node :: nodes' =>
      if (bhsa_node >=? node)%Z
      then
        offset <- offset_getitem offset_map node ;;
        offset_loop offset_map bhsa_node nodes' offset
      else Ok offset
  end.

Definition _get_offset (offset_map : offset_dict) (bhsa_node : Z)
  : result Z :=
  let offset := 0%Z in
  offset_loop offset_map bhsa_node (sorted (map fst offset_map)) offset.

End EnglishTranslation.

(** ** apply_manual_corrections.py *)

Module ManualCorrections.

Import CompleteMapping.

(** The table of corrections: a word of the corpus and the number of its
    dictionary entry ([H9003] and so on), in the order of the source. *)
Definition MANUAL_CORRECTIONS : dict str :=
  [
    ([0x05D1; 0x05B0; 0x05BC]%N,
     [0x48; 0x39; 0x30; 0x30; 0x33]%N);
    ([0x05DC; 0x05B0]%N,
     [0x48; 0x39; 0x30; 0x30; 0x35]%N);
    ([0x05DB; 0x05B0; 0x05BC]%N,
     [0x48; 0x39; 0x30; 0x30; 0x34]%N);
    ([0x05DE; 0x05B4]%N,
     [0x48; 0x34; 0x34; 0x38; 0x30]%N);
    ([0x05DE; 0x05B4; 0x05DF]%N,
     [0x48; 0x34; 0x34; 0x38; 0x30]%N);
    ([0x05D4; 0x05B7]%N,
     [0x48; 0x39; 0x30; 0x30; 0x39]%N);
    ([0x05D4; 0x05B8]%N,
     [0x48; 0x39; 0x30; 0x30; 0x39]%N);
    ([0x05D5; 0x05B0]%N,
     [0x48; 0x39; 0x30; 0x30; 0x32]%N);
    ([0x05D5; 0x05B7]%N,
     [0x48; 0x39; 0x30; 0x30; 0x32]%N);
    ([0x05D5; 0x05B8]%N,
     [0x48; 0x39; 0x30; 0x30; 0x32]%N);
    ([0x05D0; 0x05B5; 0x05EA]%N,
     [0x48; 0x38; 0x35; 0x33]%N);
    ([0x05D0; 0x05B6; 0x05EA]%N,
     [0x48; 0x38; 0x35; 0x33]%N);
    ([0x05DC; 0x05B7; 0x05D9; 0x05B0; 0x05DC; 0x05B8; 0x05D4]%N,
     [0x48; 0x33; 0x39; 0x31; 0x35]%N);
    ([0x05D9; 0x05D5; 0x05B9; 0x05DD]%N,
     [0x48; 0x33; 0x31; 0x31; 0x37]%N);
    ([0x05E9; 0x05B8; 0x05C1; 0x05E0; 0x05B8; 0x05D4]%N,
     [0x48; 0x38; 0x31; 0x34; 0x31]%N);
    ([0x05E2; 0x05B4; 0x05D9; 0x05E8]%N,
     [0x48; 0x35; 0x38; 0x39; 0x32]%N);
    ([0x05D1; 0x05B7; 0x05BC; 0x05D9; 0x05B4; 0x05EA]%N,
     [0x48; 0x31; 0x30; 0x30; 0x34]%N);
    ([0x05D0; 0x05B4; 0x05D9; 0x05E9; 0x05C1]%N,
     [0x48; 0x33; 0x37; 0x36]%N);
    ([0x05D0; 0x05B4; 0x05E9; 0x05B8; 0x05BC; 0x05C1; 0x05D4]%N,
     [0x48; 0x38; 0x30; 0x32]%N);
    ([0x05D1; 0x05B5; 0x05BC; 0x05DF]%N,
     [0x48; 0x31; 0x31; 0x32; 0x31]%N);
    ([0x05D1; 0x05B7; 0x05BC; 0x05EA]%N,
     [0x48; 0x31; 0x33; 0x32; 0x33]%N);
    ([0x05DE; 0x05B6; 0x05DC; 0x05B6; 0x05DA; 0x05B0]%N,
     [0x48; 0x34; 0x34; 0x32; 0x38]%N);
    ([0x05E2; 0x05B7; 0x05DD]%N,
     [0x48; 0x35; 0x39; 0x37; 0x31]%N);
    ([0x05D2; 0x05BC; 0x05D5; 0x05B9; 0x05D9]%N,
     [0x48; 0x31; 0x34; 0x37; 0x31]%N);
    ([0x05D0; 0x05B6; 0x05E8; 0x05B6; 0x05E5]%N,
     [0x48; 0x37; 0x37; 0x36]%N);
    ([0x05E9; 0x05B8; 0x05C1; 0x05DE; 0x05B7; 0x05D9; 0x05B4; 0x05DD]%N,
     [0x48; 0x38; 0x30; 0x36; 0x34]%N);
    ([0x05DE; 0x05B7; 0x05D9; 0x05B4; 0x05DD]%N,
     [0x48; 0x34; 0x33; 0x32; 0x35]%N);
    ([0x05D9; 0x05B8; 0x05D3]%N,
     [0x48; 0x33; 0x30; 0x32; 0x37]%N);
    ([0x05E2; 0x05B7; 0x05D9; 0x05B4; 0x05DF]%N,
     [0x48; 0x35; 0x38; 0x36; 0x39]%N);
    ([0x05DC; 0x05B5; 0x05D1]%N,
     [0x48; 0x33; 0x38; 0x32; 0x30]%N);
    ([0x05E0; 0x05B6; 0x05E4; 0x05B6; 0x05E9; 0x05C1]%N,
     [0x48; 0x35; 0x33; 0x31; 0x35]%N);
    ([0x05E8; 0x05D5; 0x05BC; 0x05D7; 0x05B7]%N,
     [0x48; 0x37; 0x33; 0x30; 0x37]%N);
    ([0x05D3; 0x05B8; 0x05BC; 0x05D1; 0x05B8; 0x05E8]%N,
     [0x48; 0x31; 0x36; 0x39; 0x37]%N);
    ([0x05D3; 0x05B6; 0x05BC; 0x05E8; 0x05B6; 0x05DA; 0x05B0]%N,
     [0x48; 0x31; 0x38; 0x37; 0x30]%N);
    ([0x05E2; 0x05B5; 0x05EA]%N,
     [0x48; 0x36; 0x32; 0x35; 0x36]%N);
    ([0x05DE; 0x05B8; 0x05E7; 0x05D5; 0x05B9; 0x05DD]%N,
     [0x48; 0x34; 0x37; 0x32; 0x35]%N);
    ([0x05E9; 0x05B5; 0x05C1; 0x05DD]%N,
     [0x48; 0x38; 0x30; 0x33; 0x34]%N);
    ([0x05E7; 0x05D5; 0x05B9; 0x05DC]%N,
     [0x48; 0x36; 0x39; 0x36; 0x33]%N);
    ([0x05E4; 0x05B6; 0x05BC; 0x05D4]%N,
     [0x48; 0x36; 0x33; 0x31; 0x30]%N);
    ([0x05D0; 0x05B9; 0x05D6; 0x05B6; 0x05DF]%N,
     [0x48; 0x32; 0x34; 0x31]%N);
    ([0x05E8; 0x05B9; 0x05D0; 0x05E9; 0x05C1]%N,
     [0x48; 0x37; 0x32; 0x31; 0x38]%N);
    ([0x05E8; 0x05B6; 0x05D2; 0x05B6; 0x05DC]%N,
     [0x48; 0x37; 0x32; 0x37; 0x32]%N)
  ].

(** An entry of bhsa_to_strongs_complete.json; [previous_match] is absent
    unless the entry was corrected. *)
Record entry : Type := {
  strongs : str;
  strongs_lemma : str;
  score : Q;
  method : string;
  kjv_glosses : str;
  previous_match : option str
}.

(** The summary; [by_method] and [by_confidence] are flattened.
    [exact_match] is a difference of two integers. *)
Record summary : Type := {
  total_bhsa_lexemes : nat;
  total_matched : nat;
  coverage : Q;
  exact_match : Z;
  manual_correction : nat;
  consonantal_match : nat;
  fuzzy_match : nat;
  high : nat;
  medium : nat;
  low : nat
}.

(** [sum(1 for v in d.values() if p(v))]. *)
Definition count_values (p : entry -> bool) (d : dict entry) : nat :=
  length (filter p (map snd d)).

(** Body of the loop over the table; the state is
    [(mapping, corrections_made)].  The message is not modelled. *)
Definition correction_step (strongs_data : dict CreateComplete.Entry.t)
           (state : dict entry * nat) (item : str * str)
  : result (dict entry * nat) :=
  let '(mapping, corrections_made) := state in
  let '(bhsa_word, correct_strongs) := item in
  if dict_contains mapping bhsa_word
  then
    old_match <- dict_getitem mapping bhsa_word ;;
    if dict_contains strongs_data correct_strongs
    then
      strongs_entry <- dict_getitem strongs_data correct_strongs ;;
      Ok (dict_set mapping bhsa_word
            {| strongs := correct_strongs;
               strongs_lemma :=
                 CreateComplete.Entry.strongs_lemma strongs_entry;
               score := 1.0%Q;
               method := "manual_correction";
               kjv_glosses := CreateComplete.Entry.kjv_glosses strongs_entry;
               previous_match := Some (strongs old_match) |},
          corrections_made + 1)
    else Ok (mapping, corrections_made)
  else Ok (mapping, corrections_made).

(** [apply_manual_corrections], from the contents of the two files it
    reads; messages and the two files it writes are not modelled. *)
Definition apply_manual_corrections (mapping : dict entry)
           (strongs_data : dict CreateComplete.Entry.t)
  : result (dict entry * summary) :=
  let corrections_made := 0 in
  r <- for_each (correction_step strongs_data) MANUAL_CORRECTIONS
         (mapping, corrections_made) ;;
  let '(mapping, corrections_made) := r in
  let exact :=
    count_values (fun v => String.eqb (method v) "exact_match"
                           || String.eqb (method v) "manual_correction")
                 mapping in
  let consonantal :=
    count_values (fun v => String.eqb (method v) "consonantal_match")
                 mapping in
  let fuzzy :=
    count_values (fun v => String.eqb (method v) "fuzzy_match") mapping in
  let high_conf :=
    count_values (fun v => PyMore.geb (score v) 0.9%Q) mapping in
  let medium_conf :=
    count_values (fun v => PyMore.geb (score v) 0.7%Q
                           && Py.ltb (score v) 0.9%Q) mapping in
  let low_conf :=
    count_values (fun v => Py.ltb (score v) 0.7%Q) mapping in
  Ok (mapping,
      {| total_bhsa_lexemes := length mapping;
         total_matched := length mapping;
         coverage := 100.0%Q;
         exact_match := (Z.of_nat exact - Z.of_nat corrections_made)%Z;
         manual_correction := corrections_made;
         consonantal_match := consonantal;
         fuzzy_match := fuzzy;
         high := high_conf;
         medium := medium_conf;
         low := low_conf |}).

End ManualCorrections.

(** ** create_supplementary_mapping.py: the reverse index *)

Module Supplementary.

Import CompleteMapping.

(** An element of a bucket of the reverse index. *)
Record index_entry : Type := {
  strongs : str;
  strongs_lemma : str;
  score : Q;
  kjv_glosses : str
}.

(** Body of the loop over [[bhsa_lex, bhsa_voc]]. *)
Definition key_step (strongs_num : str) (entry : CreateComplete.Entry.t)
           (m : BuildMapping.Match.t)
           (bhsa_to_strongs : dict (list index_entry)) (key : str)
  : result (dict (list index_entry)) :=
  let bhsa_to_strongs :=
    if negb (PyMore.str_not key) && negb (dict_contains bhsa_to_strongs key)
    then dict_set bhsa_to_strongs key []
    else bhsa_to_strongs in
  if negb (PyMore.str_not key)
  then
    bucket <- dict_getitem bhsa_to_strongs key ;;
    Ok (dict_set bhsa_to_strongs key
          (bucket
           ++ [{| strongs := strongs_num;
                  strongs_lemma := CreateComplete.Entry.strongs_lemma entry;
                  score := BuildMapping.Match.score m;
                  kjv_glosses := CreateComplete.Entry.kjv_glosses entry |}]))
  else Ok bhsa_to_strongs.

(** Body of the loop over [entry['bhsa_matches']]. *)
Definition match_step (strongs_num : str) (entry : CreateComplete.Entry.t)
           (bhsa_to_strongs : dict (list index_entry))
           (m : BuildMapping.Match.t) : result (dict (list index_entry)) :=
  let bhsa_lex := BuildMapping.Match.bhsa_lex m in
  let bhsa_voc := BuildMapping.Match.bhsa_voc m in
  for_each (key_step strongs_num entry m) [bhsa_lex; bhsa_voc]
           bhsa_to_strongs.

(** Body of the loop over [strongs_mapping.items()]. *)
Definition entry_step (bhsa_to_strongs : dict (list index_entry))
           (item : str * CreateComplete.Entry.t)
  : result (dict (list index_entry)) :=
  let '(strongs_num, entry) := item in
  for_each (match_step strongs_num entry)
           (CreateComplete.Entry.bhsa_matches entry) bhsa_to_strongs.

(** [create_bhsa_to_strongs_mapping], from the contents of the file it
    reads. *)
Definition create_bhsa_to_strongs_mapping
           (strongs_mapping : dict CreateComplete.Entry.t)
  : result (dict (list index_entry)) :=
  for_each entry_step strongs_mapping [].

End Supplementary.

(** ** Reference definitions used by the statements *)

(** *** The normal form *)

(** One of the five final forms. *)
Definition is_final_form (c : codepoint) : bool :=
  existsb (N.eqb c) [final_kaf; final_mem; final_nun; final_pe; final_tsadi].

(** The substitution table [FINAL_FORMS] read as a function on characters. *)
Definition to_regular (c : codepoint) : codepoint :=
  if (c =? final_kaf)%N then kaf
  else if (c =? final_mem)%N then mem
  else if (c =? final_nun)%N then nun
  else if (c =? final_pe)%N then pe
  else if (c =? final_tsadi)%N then tsadi
  else c.

(** The characters that survive the first loop of [normalize_hebrew]. *)
Definition is_kept (category : codepoint -> string) (c : codepoint) : bool :=
  negb (String.eqb (category c) "Mn"%string)
  && negb (existsb (py_in c) HEBREW_POINTS_EXTENDED)
  && negb (c =? 0x05C7)%N.

(** *** Edit distance *)

(** The Wagner-Fischer recurrence on the first characters. *)
Fixpoint lev (a : str) : str -> nat :=
  match a with
  | [] => fun b => length b
  | x :: a' =>
      fix lev_x (b : str) : nat :=
        match b with
        | [] => S (length a')
        | y :: b' =>
            min3 (lev a' b + 1) (lev_x b' + 1) (lev a' b' + neq_int x y)
        end
  end.

(** One single-character edit: an insertion, a deletion or a substitution
    anywhere in the string. *)
Inductive edit : str -> str -> Prop :=
| edit_insert (l : str) (c : codepoint) (r : str) : edit (l ++ r) (l ++ c :: r)
| edit_delete (l : str) (c : codepoint) (r : str) : edit (l ++ c :: r) (l ++ r)
| edit_substitute (l : str) (c d : codepoint) (r : str) :
    edit (l ++ c :: r) (l ++ d :: r).

(** [edits n a b]: [n] successive edits turn [a] into [b]. *)
Inductive edits : nat -> str -> str -> Prop :=
| edits_done (a : str) : edits 0 a a
| edits_step (n : nat) (a b c : str) :
    edit a b -> edits n b c -> edits (S n) a c.

(** [d] is the least number of edits that turn [a] into [b]. *)
Definition is_edit_distance (a b : str) (d : nat) : Prop :=
  edits d a b /\ forall n, edits n a b -> d <= n.

(** A left-to-right edit script with its cost. *)
Inductive aligned : str -> str -> nat -> Prop :=
| al_nil : aligned [] [] 0
| al_del (x : codepoint) (a b : str) (n : nat) :
    aligned a b n -> aligned (x :: a) b (S n)
| al_ins (y : codepoint) (a b : str) (n : nat) :
    aligned a b n -> aligned a (y :: b) (S n)
| al_sub (x y : codepoint) (a b : str) (n : nat) :
    aligned a b n -> aligned (x :: a) (y :: b) (n + neq_int x y).

(** The row of the table for the prefix [p] of the first string: entry [j]
    is the distance between [p] and the first [j] characters of [s2]. *)
Definition row (s2 p : str) : list nat :=
  map (fun j => lev p (firstn j s2)) (seq 0 (length s2 + 1)).

(** [subseq l1 l2]: [l1] keeps some of the elements of [l2], in their
    order. *)
Inductive subseq {A : Type} : list A -> list A -> Prop :=
| subseq_nil : subseq [] []
| subseq_skip (x : A) (l1 l2 : list A) : subseq l1 l2 -> subseq l1 (x :: l2)
| subseq_keep (x : A) (l1 l2 : list A) :
    subseq l1 l2 -> subseq (x :: l1) (x :: l2).

(** *** Sample data *)

(** An excerpt of the general categories of the Unicode Character Database,
    for the examples: the Hebrew block (cantillation marks and points are
    nonspacing marks, the letters are "Lo") and, outside the excerpt,
    "Cn". *)
Definition hebrew_block_category (c : codepoint) : string :=
  if (0x0591 <=? c)%N && (c <=? 0x05BD)%N then "Mn"
  else if (c =? 0x05BF)%N then "Mn"
  else if (0x05C1 <=? c)%N && (c <=? 0x05C2)%N then "Mn"
  else if (0x05C4 <=? c)%N && (c <=? 0x05C5)%N then "Mn"
  else if (c =? 0x05C7)%N then "Mn"
  else if (c =? 0x05BE)%N then "Pd"
  else if (c =? 0x05C0)%N || (c =? 0x05C3)%N || (c =? 0x05C6)%N then "Po"
  else if (0x05D0 <=? c)%N && (c <=? 0x05EA)%N then "Lo"
  else "Cn".

(** Sample words: melekh with points and a final kaf, and its skeleton;
    ahav with points; dod, david, the Latin words "ab" and "cd". *)
Definition melekh_pointed : str :=
  [0x05DE; 0x05B6; 0x05DC; 0x05B6; 0x05DA; 0x05B0]%N.
Definition melekh_plain : str := [0x05DE; 0x05DC; 0x05DA]%N.
Definition ahav_pointed : str := [0x05D0; 0x05B8; 0x05D4; 0x05B7; 0x05D1]%N.
Definition ahav_plain : str := [0x05D0; 0x05D4; 0x05D1]%N.
Definition ahad_plain : str := [0x05D0; 0x05D4; 0x05D3]%N.
Definition dvd : str := [0x05D3; 0x05D5; 0x05D3]%N.
Definition dvvd : str := [0x05D3; 0x05D5; 0x05D5; 0x05D3]%N.
Definition dvyd : str := [0x05D3; 0x05D5; 0x05D9; 0x05D3]%N.
Definition latin_ab : str := [0x61; 0x62]%N.
Definition latin_cd : str := [0x63; 0x64]%N.

(** *** Scores *)

(** The edit-distance similarity of two normalised forms,
    [1.0 - distance / max_len], for a given distance. *)
Definition similarity_of (distance : nat) (norm1 norm2 : str) : Q :=
  (1.0 - (Z.of_nat distance
          # Pos.of_nat (Nat.max (length norm1) (length norm2))))%Q.

(** The same similarity in binary64 arithmetic: the quotient is rounded,
    then the difference. *)
Definition similarity64_of (distance : nat) (norm1 norm2 : str)
  : Binary64.float :=
  Binary64.sub Binary64.d1_0
    (Binary64.div_int (Z.of_nat distance)
       (Z.of_nat (Nat.max (length norm1) (length norm2)))).

(** *** Runs of equal letters *)

(** The maximal runs of equal characters of a string, each with its
    length. *)
Fixpoint runs (s : str) : list (codepoint * nat) :=
  match s with
  | [] => []
  | c :: s' =>
      match runs s' with
      | (d, n) :: rs =>
          if (c =? d)%N then (d, S n) :: rs else (c, 1) :: (d, n) :: rs
      | [] => [(c, 1)]
      end
  end.

Definition unruns (rs : list (codepoint * nat)) : str :=
  flat_map (fun '(c, n) => repeat c n) rs.

(** Vav and yod, the two letters [remove_matres_lectionis] looks at. *)
Definition is_vowel_letter (c : codepoint) : bool :=
  (c =? vav)%N || (c =? yod)%N.

(** The secondary normalisation in the words of the specification: a run of
    exactly two vavs or exactly two yods becomes one, every other run and
    every other character is unchanged. *)
Definition collapse_exact_pairs (s : str) : str :=
  unruns (map (fun '(c, n) =>
                 if is_vowel_letter c && (n =? 2) then (c, 1) else (c, n))
              (runs s)).

(** What the two substitutions do to a run of [n] vavs or yods: the pairs
    are replaced from the left, [(n + 1) / 2] letters remain. *)
Definition halve_runs (s : str) : str :=
  unruns (map (fun '(c, n) =>
                 if is_vowel_letter c then (c, Nat.div2 (S n)) else (c, n))
              (runs s)).

(** [rest] does not begin with [x]. *)
Definition not_head (x : codepoint) (rest : str) : Prop :=
  match rest with
  | [] => True
  | y :: _ => y <> x
  end.

(** Well-formed run lists: no empty run, neighbours differ. *)
Fixpoint runs_ok (rs : list (codepoint * nat)) : Prop :=
  match rs with
  | [] => True
  | (x, n) :: rs' =>
      1 <= n
      /\ match rs' with
         | [] => True
         | (y, _) :: _ => x <> y
         end
      /\ runs_ok rs'
  end.

(** *** Candidates of the coverage pass *)

(** Some entry of the dictionary scores above zero against the lexeme. *)
Definition has_positive_candidate (category : codepoint -> string)
           (all_strongs : CompleteMapping.dict CompleteMapping.strongs_data)
           (bhsa : CompleteMapping.bhsa_data) : Prop :=
  exists strongs_num strongs_data v,
    In (strongs_num, strongs_data) all_strongs
    /\ compare_hebrew_default category
         (Some (CompleteMapping.normalized bhsa))
         (Some (CompleteMapping.strongs_normalized strongs_data)) true
       = Ok v
    /\ (0 < v)%Q.

(** *** Doubled letters *)

(** [c c] occurs in [s]: two adjacent occurrences of the letter [c]. *)
Fixpoint has_double (c : codepoint) (s : str) : bool :=
  match s with
  | [] => false
  | x :: t =>
      match t with
      | [] => false
      | y :: _ => ((x =? c)%N && (y =? c)%N) || has_double c t
      end
  end.

(** *** Fields of a dictionary entry *)

(** The first value of a list that is neither [None] nor empty; the empty
    string when there is none. *)
Fixpoint first_non_empty (values : list (option str)) : option str :=
  match values with
  | [] => Some []
  | v :: values' => if Py.not_ v then first_non_empty values' else v
  end.

(** *** Matches of a dictionary entry *)

(** [m] was appended for a lexeme of the index whose score against
    [strongs_hebrew] is at least [0.7]. *)
Definition accepted_match (category : codepoint -> string)
           (bhsa_index : CompleteMapping.dict (list BuildMapping.Lexeme.t))
           (strongs_hebrew : str) (m : BuildMapping.Match.t) : Prop :=
  exists norm_form bhsa_list bhsa_lex score,
    In (norm_form, bhsa_list) bhsa_index
    /\ In bhsa_lex bhsa_list
    /\ compare_hebrew_default category (Some strongs_hebrew)
         (Some (BuildMapping.Lexeme.normalized bhsa_lex)) true = Ok score
    /\ (0.7 <= score)%Q
    /\ m = BuildMapping.match_of bhsa_lex score.

(** The [normalized] field of every lexeme of the index is a normal form. *)
Definition index_normalized (category : codepoint -> string)
           (bhsa_index : CompleteMapping.dict (list BuildMapping.Lexeme.t))
  : Prop :=
  forall norm_form bhsa_list bhsa_lex,
    In (norm_form, bhsa_list) bhsa_index ->
    In bhsa_lex bhsa_list ->
    exists text,
      BuildMapping.Lexeme.normalized bhsa_lex = normalize_hebrew category text.

(** *** Lexemes read from the lines *)

(** [l] was built by [load_bhsa_data] from the lines at some index. *)
Definition lexeme_from_lines (category : codepoint -> string)
           (lex_lines voc_lex_lines lang_lines : list str)
           (l : BuildMapping.Lexeme.t) : Prop :=
  exists i,
    i < length lex_lines
    /\ BuildMapping.Lexeme.node l = i + 1
    /\ BuildMapping.Lexeme.lex_utf8 l = nth i lex_lines []
    /\ BuildMapping.Lexeme.voc_lex_utf8 l = nth i voc_lex_lines []
    /\ BuildMapping.Lexeme.language l = nth i lang_lines BuildMapping.Hebrew
    /\ BuildMapping.Lexeme.normalized l
       = normalize_hebrew category
           (Some (PyMore.str_or (BuildMapping.Lexeme.voc_lex_utf8 l)
                                (BuildMapping.Lexeme.lex_utf8 l))).

(** A sample index with the single lexeme melekh, and a sample entry. *)
Definition sample_lexeme : BuildMapping.Lexeme.t :=
  {| BuildMapping.Lexeme.node := 1;
     BuildMapping.Lexeme.lex_utf8 := melekh_plain;
     BuildMapping.Lexeme.voc_lex_utf8 := melekh_pointed;
     BuildMapping.Lexeme.language := BuildMapping.Hebrew;
     BuildMapping.Lexeme.normalized := [mem; 0x05DC%N; kaf] |}.

Definition sample_index : CompleteMapping.dict (list BuildMapping.Lexeme.t) :=
  [ ([mem; 0x05DC%N; kaf], [sample_lexeme]) ].

Definition sample_entry : StrongsEntry.entry :=
  [ (StrongsEntry.lemma_field, Some melekh_pointed) ].

(** The key of the lexeme read at line [i]: [voc_lex or lex]. *)
Definition key_at (lex_lines voc_lex_lines : list str) (i : nat) : str :=
  PyMore.str_or (nth i voc_lex_lines []) (nth i lex_lines []).

(** The key under which a lexeme is stored in [lexeme_map]. *)
Definition lexeme_key (l : BuildMapping.Lexeme.t) : str :=
  PyMore.str_or (BuildMapping.Lexeme.voc_lex_utf8 l)
                (BuildMapping.Lexeme.lex_utf8 l).

(** [lexeme_map] after the lines before [t]: distinct keys; every entry was
    read from the first line that has its key; every non-empty key of a line
    read so far is present. *)
Definition lexeme_map_ok (category : codepoint -> string)
           (lex_lines voc_lex_lines lang_lines : list str) (t : nat)
           (lexeme_map : CompleteMapping.dict BuildMapping.Lexeme.t) : Prop :=
  NoDup (CompleteMapping.dict_keys lexeme_map)
  /\ (forall k l,
        In (k, l) lexeme_map ->
        lexeme_from_lines category lex_lines voc_lex_lines lang_lines l
        /\ k = lexeme_key l /\ k <> []
        /\ BuildMapping.Lexeme.node l <= t
        /\ forall j, j + 1 < BuildMapping.Lexeme.node l ->
                     key_at lex_lines voc_lex_lines j <> k)
  /\ (forall j, j < t -> key_at lex_lines voc_lex_lines j <> [] ->
                 CompleteMapping.dict_contains lexeme_map
                   (key_at lex_lines voc_lex_lines j) = true).

(** *** The best candidate of the coverage pass *)

(** The score of a dictionary entry against a lexeme of the corpus. *)
Definition candidate_score (category : codepoint -> string)
           (bhsa : CompleteMapping.bhsa_data)
           (sd : CompleteMapping.strongs_data) : Py.result Q :=
  compare_hebrew_default category
    (Some (CompleteMapping.normalized bhsa))
    (Some (CompleteMapping.strongs_normalized sd)) true.

(** [e] is the entry built from the first candidate of [all_strongs] whose
    score [v] is maximal: the candidates before it score lower, those after
    it do not score higher. *)
Definition first_best (category : codepoint -> string)
           (all_strongs : CompleteMapping.dict CompleteMapping.strongs_data)
           (bhsa : CompleteMapping.bhsa_data) (v : Q)
           (e : CompleteMapping.match_entry) : Prop :=
  exists pre num sd post,
    all_strongs = pre ++ (num, sd) :: post
    /\ candidate_score category bhsa sd = Ok v
    /\ (forall num' sd' v', In (num', sd') pre ->
          candidate_score category bhsa sd' = Ok v' -> (v' < v)%Q)
    /\ (forall num' sd' v', In (num', sd') post ->
          candidate_score category bhsa sd' = Ok v' -> (v' <= v)%Q)
    /\ CompleteMapping.strongs e = num
    /\ CompleteMapping.strongs_lemma e = CompleteMapping.lemma sd
    /\ CompleteMapping.score e = CompleteMapping.round3 v
    /\ ((v < 0.9)%Q -> CompleteMapping.method e = "fuzzy_match"%string)
    /\ ((0.9 <= v)%Q -> CompleteMapping.method e = "consonantal_match"%string)
    /\ CompleteMapping.kjv_glosses e = CompleteMapping.glosses sd.

Definition best_candidate (category : codepoint -> string)
           (all_strongs : CompleteMapping.dict CompleteMapping.strongs_data)
           (bhsa : CompleteMapping.bhsa_data)
           (e : CompleteMapping.match_entry) : Prop :=
  exists v, (0 < v)%Q /\ first_best category all_strongs bhsa v e.

(** *** Confidence of a processed entry *)

(** What [process_strongs_entry] writes beside the matches: their number,
    and ['none'] without a match, ['high'] when the first match scores [1.0],
    ['medium'] when it scores [0.9] or [0.85]. *)
Definition entry_confidence (e : MappingBuilder.mapping_entry) : Prop :=
  MappingBuilder.match_count e = length (MappingBuilder.bhsa_matches e)
  /\ length (MappingBuilder.bhsa_matches e) <= 10
  /\ ((MappingBuilder.bhsa_matches e = []
       /\ MappingBuilder.confidence e = "none"%string)
      \/ (exists m0 rest,
            MappingBuilder.bhsa_matches e = m0 :: rest
            /\ (((BuildMapping.Match.score m0 == 1.0)%Q
                 /\ MappingBuilder.confidence e = "high"%string)
                \/ (((BuildMapping.Match.score m0 == 0.9)%Q
                     \/ (BuildMapping.Match.score m0 == 0.85)%Q)
                    /\ MappingBuilder.confidence e = "medium"%string)))).

(** *** The matches of strongs_to_bhsa.json in reading order *)

(** All matches of the file with the number and the entry they belong to,
    in the order in which step 1 visits them. *)
Definition all_matches
           (strongs_mapping : CompleteMapping.dict CreateComplete.Entry.t)
  : list (str * CreateComplete.Entry.t * BuildMapping.Match.t) :=
  flat_map (fun item : str * CreateComplete.Entry.t =>
              map (fun m => (fst item, snd item, m))
                  (CreateComplete.Entry.bhsa_matches (snd item)))
           strongs_mapping.

(** The entry step 1 stores for a match. *)
Definition exact_entry (x : str * CreateComplete.Entry.t * BuildMapping.Match.t)
  : CompleteMapping.match_entry :=
  {| CompleteMapping.strongs := fst (fst x);
     CompleteMapping.strongs_lemma :=
       CreateComplete.Entry.strongs_lemma (snd (fst x));
     CompleteMapping.score := BuildMapping.Match.score (snd x);
     CompleteMapping.method := "exact_match";
     CompleteMapping.kjv_glosses :=
       CreateComplete.Entry.kjv_glosses (snd (fst x)) |}.

(** The first match of the file whose vocalised form is [k]. *)
Definition first_match
           (strongs_mapping : CompleteMapping.dict CreateComplete.Entry.t)
           (k : str)
  : option (str * CreateComplete.Entry.t * BuildMapping.Match.t) :=
  find (fun x => Py.str_eqb (BuildMapping.Match.bhsa_voc (snd x)) k)
       (all_matches strongs_mapping).

(** The first line among those read whose vocalised lexeme is [k]. *)
Definition first_line (lex_lines voc_lex_lines : list str) (k : str)
  : option nat :=
  find (fun i => Py.str_eqb (nth i voc_lex_lines []) k)
       (seq 0 (Nat.min (length lex_lines) BuildMapping.word_limit)).

(** *** Corrected entries *)

(** The entry written for a corrected word. *)
Definition corrected_entry (correct_strongs : str)
           (strongs_entry : CreateComplete.Entry.t)
           (old_match : ManualCorrections.entry) : ManualCorrections.entry :=
  {| ManualCorrections.strongs := correct_strongs;
     ManualCorrections.strongs_lemma :=
       CreateComplete.Entry.strongs_lemma strongs_entry;
     ManualCorrections.score := 1.0%Q;
     ManualCorrections.method := "manual_correction";
     ManualCorrections.kjv_glosses :=
       CreateComplete.Entry.kjv_glosses strongs_entry;
     ManualCorrections.previous_match :=
       Some (ManualCorrections.strongs old_match) |}.

(** What a table of corrections makes of the entry [old_match] of the word
    [k]: the corrected entry when the table has the word and the dictionary
    has the number, the old entry otherwise. *)
Definition corrected (table : CompleteMapping.dict str)
           (strongs_data : CompleteMapping.dict CreateComplete.Entry.t)
           (k : str) (old_match : ManualCorrections.entry)
  : ManualCorrections.entry :=
  match CompleteMapping.dict_get table k with
  | Some correct_strongs =>
      match CompleteMapping.dict_get strongs_data correct_strongs with
      | Some strongs_entry =>
          corrected_entry correct_strongs strongs_entry old_match
      | None => old_match
      end
  | None => old_match
  end.

(** Whether the strings of a list are pairwise distinct. *)
Fixpoint distinctb (l : list str) : bool :=
  match l with
  | [] => true
  | x :: l' => negb (existsb (Py.str_eqb x) l') && distinctb l'
  end.

(** Whether an item of the table leads to a correction. *)
Definition applies (mapping : CompleteMapping.dict ManualCorrections.entry)
           (strongs_data : CompleteMapping.dict CreateComplete.Entry.t)
           (item : str * str) : bool :=
  CompleteMapping.dict_contains mapping (fst item)
  && CompleteMapping.dict_contains strongs_data (snd item).

(** *** Buckets of the reverse index *)

(** The element the reverse index stores for a match. *)
Definition index_entry_of
           (x : str * CreateComplete.Entry.t * BuildMapping.Match.t)
  : Supplementary.index_entry :=
  {| Supplementary.strongs := fst (fst x);
     Supplementary.strongs_lemma :=
       CreateComplete.Entry.strongs_lemma (snd (fst x));
     Supplementary.score := BuildMapping.Match.score (snd x);
     Supplementary.kjv_glosses :=
       CreateComplete.Entry.kjv_glosses (snd (fst x)) |}.

(** The keys under which a match is stored, each with the stored element:
    first the consonantal form, then the vocalised one. *)
Definition keyed_entries
           (strongs_mapping : CompleteMapping.dict CreateComplete.Entry.t)
  : list (str * Supplementary.index_entry) :=
  flat_map (fun x =>
              [ (BuildMapping.Match.bhsa_lex (snd x), index_entry_of x);
                (BuildMapping.Match.bhsa_voc (snd x), index_entry_of x) ])
           (all_matches strongs_mapping).

(** The bucket of a form: one element for every match whose consonantal
    form it is and one for every match whose vocalised form it is, in
    reading order; nothing for the empty string. *)
Definition bucket_of
           (strongs_mapping : CompleteMapping.dict CreateComplete.Entry.t)
           (k : str) : list Supplementary.index_entry :=
  if PyMore.str_not k then []
  else map snd (filter (fun kv => Py.str_eqb (fst kv) k)
                       (keyed_entries strongs_mapping)).

(** The body of the innermost loop of the reverse index on a pair of
    [keyed_entries]. *)
Definition group_step
           (d : CompleteMapping.dict (list Supplementary.index_entry))
           (kv : str * Supplementary.index_entry)
  : Py.result (CompleteMapping.dict (list Supplementary.index_entry)) :=
  let d1 :=
    if negb (PyMore.str_not (fst kv))
       && negb (CompleteMapping.dict_contains d (fst kv))
    then CompleteMapping.dict_set d (fst kv) [] else d in
  if negb (PyMore.str_not (fst kv))
  then bucket <- CompleteMapping.dict_getitem d1 (fst kv) ;;
       Ok (CompleteMapping.dict_set d1 (fst kv) (bucket ++ [snd kv]))
  else Ok d1.

(** *** A sample corpus and a sample dictionary *)

Definition strongs_H157 : str := [0x48; 0x31; 0x35; 0x37]%N.
Definition strongs_H1732 : str := [0x48; 0x31; 0x37; 0x33; 0x32]%N.
Definition strongs_H4428 : str := [0x48; 0x34; 0x34; 0x32; 0x38]%N.
Definition gloss_love : str := [0x6C; 0x6F; 0x76; 0x65]%N.
Definition gloss_David : str := [0x44; 0x61; 0x76; 0x69; 0x64]%N.
Definition gloss_king : str := [0x6B; 0x69; 0x6E; 0x67]%N.

(** Four lexemes: ahav, melekh, David, and a word without Hebrew letters. *)
Definition sample_all_bhsa : CompleteMapping.dict CompleteMapping.bhsa_data :=
  [ (ahav_pointed,
     {| CompleteMapping.voc := ahav_pointed;
        CompleteMapping.cons := ahav_plain;
        CompleteMapping.normalized := ahav_plain |});
    (melekh_pointed,
     {| CompleteMapping.voc := melekh_pointed;
        CompleteMapping.cons := melekh_plain;
        CompleteMapping.normalized := [mem; 0x05DC%N; kaf] |});
    (dvd,
     {| CompleteMapping.voc := dvd;
        CompleteMapping.cons := dvd;
        CompleteMapping.normalized := dvd |});
    (latin_ab,
     {| CompleteMapping.voc := latin_ab;
        CompleteMapping.cons := latin_ab;
        CompleteMapping.normalized := [] |}) ].

(** Three dictionary entries: ahav, melekh, and David in the spelling with
    a doubled vav. *)
Definition sample_all_strongs
  : CompleteMapping.dict CompleteMapping.strongs_data :=
  [ (strongs_H157,
     {| CompleteMapping.lemma := ahav_pointed;
        CompleteMapping.strongs_normalized := ahav_plain;
        CompleteMapping.glosses := gloss_love |});
    (strongs_H4428,
     {| CompleteMapping.lemma := melekh_pointed;
        CompleteMapping.strongs_normalized := [mem; 0x05DC%N; kaf];
        CompleteMapping.glosses := gloss_king |});
    (strongs_H1732,
     {| CompleteMapping.lemma := dvvd;
        CompleteMapping.strongs_normalized := dvvd;
        CompleteMapping.glosses := gloss_David |}) ].

(** A mapping in which ahav has its entry already. *)
Definition sample_bhsa_to_strongs
  : CompleteMapping.dict CompleteMapping.match_entry :=
  [ (ahav_pointed,
     {| CompleteMapping.strongs := strongs_H157;
        CompleteMapping.strongs_lemma := ahav_pointed;
        CompleteMapping.score := 1.0%Q;
        CompleteMapping.method := "exact_match";
        CompleteMapping.kjv_glosses := gloss_love |}) ].

(** The file strongs_to_bhsa.json for these entries: ahav has one match,
    David (with a doubled vav) none. *)
Definition sample_strongs_mapping
  : CompleteMapping.dict CreateComplete.Entry.t :=
  [ (strongs_H157,
     {| CreateComplete.Entry.bhsa_matches :=
          [ {| BuildMapping.Match.node := 1;
               BuildMapping.Match.score := 1.0%Q;
               BuildMapping.Match.bhsa_lex := ahav_plain;
               BuildMapping.Match.bhsa_voc := ahav_pointed;
               BuildMapping.Match.language := BuildMapping.Hebrew |} ];
        CreateComplete.Entry.strongs_lemma := ahav_pointed;
        CreateComplete.Entry.strongs_normalized := ahav_plain;
        CreateComplete.Entry.kjv_glosses := gloss_love |});
    (strongs_H1732,
     {| CreateComplete.Entry.bhsa_matches := [];
        CreateComplete.Entry.strongs_lemma := dvvd;
        CreateComplete.Entry.strongs_normalized := dvvd;
        CreateComplete.Entry.kjv_glosses := gloss_David |}) ].

(** The lines of lex_utf8.tf and voc_lex_utf8.tf: four words, three
    lexemes. *)
Definition sample_lex_lines : list str :=
  [ahav_plain; dvd; latin_ab; ahav_plain].
Definition sample_voc_lex_lines : list str :=
  [ahav_pointed; dvd; latin_ab; ahav_pointed].

(** *** The best candidate with binary64 scores *)

(** Whether a float is the value "not a number". *)
Definition is_nan (x : Binary64.float) : bool :=
  match x with
  | SpecFloat.S754_nan => true
  | _ => false
  end.

(** The binary64 score of a dictionary entry against a lexeme. *)
Definition candidate_score64 (category : codepoint -> string)
           (bhsa : CompleteMapping.bhsa_data)
           (sd : CompleteMapping.strongs_data) : Py.result Binary64.float :=
  HebrewNormalizer64.compare_hebrew_default category
    (Some (CompleteMapping.normalized bhsa))
    (Some (CompleteMapping.strongs_normalized sd)) true.

(** [e] is the entry built from the first candidate of [all_strongs] whose
    binary64 score [v] is maximal: the candidates before it score less,
    those after it do not score more. *)
Definition first_best64 (category : codepoint -> string)
           (all_strongs : CompleteMapping.dict CompleteMapping.strongs_data)
           (bhsa : CompleteMapping.bhsa_data) (v : Binary64.float)
           (e : CompleteMapping64.match_entry) : Prop :=
  exists pre num sd post,
    all_strongs = pre ++ (num, sd) :: post
    /\ candidate_score64 category bhsa sd = Ok v
    /\ (forall num' sd' v', In (num', sd') pre ->
          candidate_score64 category bhsa sd' = Ok v' ->
          Binary64.ltb v' v = true)
    /\ (forall num' sd' v', In (num', sd') post ->
          candidate_score64 category bhsa sd' = Ok v' ->
          Binary64.ltb v v' = false)
    /\ CompleteMapping64.strongs e = num
    /\ CompleteMapping64.strongs_lemma e = CompleteMapping.lemma sd
    /\ CompleteMapping64.score e = Binary64.round v 3
    /\ (Binary64.ltb v Binary64.d0_9 = true ->
        CompleteMapping64.method e = "fuzzy_match"%string)
    /\ (Binary64.ltb v Binary64.d0_9 = false ->
        CompleteMapping64.method e = "consonantal_match"%string)
    /\ CompleteMapping64.kjv_glosses e = CompleteMapping.glosses sd.

Definition best_candidate64 (category : codepoint -> string)
           (all_strongs : CompleteMapping.dict CompleteMapping.strongs_data)
           (bhsa : CompleteMapping.bhsa_data)
           (e : CompleteMapping64.match_entry) : Prop :=
  exists v,
    Binary64.ltb Binary64.d0_0 v = true
    /\ first_best64 category all_strongs bhsa v e.

(** The sample mapping with a binary64 score. *)
Definition sample_bhsa_to_strongs64
  : CompleteMapping.dict CompleteMapping64.match_entry :=
  [ (ahav_pointed,
     {| CompleteMapping64.strongs := strongs_H157;
        CompleteMapping64.strongs_lemma := ahav_pointed;
        CompleteMapping64.score := Binary64.d1_0;
        CompleteMapping64.method := "exact_match";
        CompleteMapping64.kjv_glosses := gloss_love |}) ].

(** Two words of eight letters that share the first letter only:
    alef to het, and alef, tet, yod, kaf, lamed, mem, nun, samekh. *)
Definition alef_to_het : str :=
  [0x05D0; 0x05D1; 0x05D2; 0x05D3; 0x05D4; 0x05D5; 0x05D6; 0x05D7]%N.
Definition alef_tet_to_samekh : str :=
  [0x05D0; 0x05D8; 0x05D9; 0x05DB; 0x05DC; 0x05DE; 0x05E0; 0x05E1]%N.

(** * Proofs *)

(** Case analysis on the comparisons of code points in the goal. *)
Ltac n_tests :=
  repeat match goal with
         | |- context [(?a =? ?b)%N] =>
             destruct (N.eqb_spec a b); try discriminate; subst
         | |- context [(?a <=? ?b)%N] => destruct (N.leb_spec a b)
         | |- context [(?a <? ?b)%N] => destruct (N.ltb_spec a b)
         end.

(** ** Facts about the Python layer *)

Lemma str_eqb_eq (s t : str) : Py.str_eqb s t = true <-> s = t.
Proof.
  unfold Py.str_eqb. destruct (list_eq_dec N.eq_dec s t); split; congruence.
Qed.

Lemma str_eqb_neq (s t : str) : Py.str_eqb s t = false <-> s <> t.
Proof.
  unfold Py.str_eqb. destruct (list_eq_dec N.eq_dec s t); split; congruence.
Qed.

Lemma str_eqb_refl (s : str) : Py.str_eqb s s = true.
Proof. now apply str_eqb_eq. Qed.

Lemma str_eqb_sym (s t : str) : Py.str_eqb s t = Py.str_eqb t s.
Proof.
  destruct (Py.str_eqb t s) eqn:E.
  - apply str_eqb_eq in E. subst. apply str_eqb_refl.
  - apply str_eqb_neq in E. apply str_eqb_neq. congruence.
Qed.

Lemma py_eqb_eq (t1 t2 : option str) : Py.eqb t1 t2 = true <-> t1 = t2.
Proof.
  destruct t1 as [s|], t2 as [t|]; simpl; try (split; congruence).
  rewrite str_eqb_eq. split; congruence.
Qed.

Lemma py_eqb_sym (t1 t2 : option str) : Py.eqb t1 t2 = Py.eqb t2 t1.
Proof.
  destruct t1, t2; simpl; auto using str_eqb_sym.
Qed.

Lemma py_ltb_lt (x y : Q) : Py.ltb x y = true <-> (x < y)%Q.
Proof.
  unfold Py.ltb. rewrite negb_true_iff.
  destruct (Qle_bool y x) eqn:E.
  - apply Qle_bool_iff in E. split; [discriminate |].
    intro H. exfalso. exact (Qlt_not_le _ _ H E).
  - split; [intros _ | reflexivity].
    apply Qnot_le_lt. intro H. apply Qle_bool_iff in H. congruence.
Qed.

(** A one-character pattern replaced by one character: a map. *)
Lemma replace_char_map (old new : codepoint) (s : str) :
  Py.replace s [old] [new] = map (fun c => if (c =? old)%N then new else c) s.
Proof.
  unfold Py.replace. induction s as [|c s IH]; simpl; [reflexivity |].
  rewrite andb_true_r. destruct (c =? old)%N; simpl; now rewrite IH.
Qed.

(** ** The normal form computed by [normalize_hebrew] *)

Section NormalForm.

Variable category : codepoint -> string.

Lemma strip_step_spec (acc : str) (c : codepoint) :
  strip_step category acc c = acc ++ (if is_kept category c then [c] else []).
Proof.
  unfold strip_step, is_kept.
  destruct (String.eqb (category c) "Mn"); cbn [negb andb];
    [now rewrite app_nil_r |].
  destruct (existsb (py_in c) HEBREW_POINTS_EXTENDED); cbn [negb andb];
    [now rewrite app_nil_r |].
  destruct (c =? 0x05C7)%N; cbn [negb andb]; [now rewrite app_nil_r |].
  reflexivity.
Qed.

Lemma strip_loop (text acc : str) :
  fold_left (strip_step category) text acc
  = acc ++ filter (is_kept category) text.
Proof.
  revert acc. induction text as [|c text IH]; intro acc; cbn [fold_left filter].
  - now rewrite app_nil_r.
  - rewrite IH, strip_step_spec, <- app_assoc.
    now destruct (is_kept category c).
Qed.

Lemma final_forms_loop (s : str) :
  fold_left (fun normalized '(final, regular) =>
               Py.replace normalized final regular) FINAL_FORMS s
  = map to_regular s.
Proof.
  simpl. rewrite !replace_char_map, !map_map.
  apply map_ext. intro c. unfold to_regular.
  destruct (c =? final_kaf)%N eqn:E1; [reflexivity |].
  destruct (c =? final_mem)%N eqn:E2; [reflexivity |].
  destruct (c =? final_nun)%N eqn:E3; [reflexivity |].
  destruct (c =? final_pe)%N eqn:E4; [reflexivity |].
  destruct (c =? final_tsadi)%N eqn:E5; reflexivity.
Qed.

(** [normalize_hebrew] as a composition of a filter, a map and a filter. *)
Lemma normalize_hebrew_spec (text : option str) :
  normalize_hebrew category text
  = filter is_hebrew_letter
    (map to_regular (filter (is_kept category) (Py.chars text))).
Proof.
  unfold normalize_hebrew.
  destruct text as [[|c s]|]; simpl Py.not_; cbv iota; try reflexivity.
  now rewrite strip_loop, final_forms_loop.
Qed.

Lemma to_regular_not_final (c : codepoint) :
  is_final_form (to_regular c) = false.
Proof.
  unfold to_regular. n_tests; try reflexivity.
  unfold is_final_form. cbn [existsb]. n_tests; try reflexivity; contradiction.
Qed.

Lemma to_regular_fixed (c : codepoint) :
  is_final_form c = false -> to_regular c = c.
Proof.
  unfold to_regular, is_final_form. cbn [existsb].
  n_tests; try reflexivity; discriminate.
Qed.

Lemma to_regular_final (c : codepoint) :
  is_final_form c = true -> In (to_regular c) [kaf; mem; nun; pe; tsadi].
Proof.
  unfold to_regular, is_final_form. cbn [existsb In].
  n_tests; try discriminate; tauto.
Qed.

Lemma to_regular_letter (c : codepoint) :
  is_hebrew_letter (to_regular c) = is_hebrew_letter c.
Proof. unfold to_regular. n_tests; reflexivity. Qed.

Lemma letter_not_point (c : codepoint) :
  is_hebrew_letter c = true ->
  existsb (py_in c) HEBREW_POINTS_EXTENDED = false /\ (c =? 0x05C7)%N = false.
Proof.
  unfold is_hebrew_letter. cbn [existsb HEBREW_POINTS_EXTENDED py_in].
  n_tests; cbn [andb orb]; try discriminate; try lia;
    intros _; split; reflexivity.
Qed.

Lemma normalize_hebrew_letters (text : option str) :
  Forall (fun c => is_hebrew_letter c = true /\ is_final_form c = false)
         (normalize_hebrew category text).
Proof.
  rewrite normalize_hebrew_spec. apply Forall_forall. intros c Hc.
  apply filter_In in Hc. destruct Hc as [Hin Hl]. split; [exact Hl |].
  apply in_map_iff in Hin. destruct Hin as [x [<- _]].
  apply to_regular_not_final.
Qed.

(** A character of the normal form was kept by the first loop, or is one
    of the five letters that replace a final form. *)
Lemma normalize_hebrew_sources (text : option str) :
  Forall (fun c => is_kept category c = true
                   \/ In c [kaf; mem; nun; pe; tsadi])
         (normalize_hebrew category text).
Proof.
  rewrite normalize_hebrew_spec. apply Forall_forall. intros c Hc.
  apply filter_In in Hc. destruct Hc as [Hin _].
  apply in_map_iff in Hin. destruct Hin as [x [<- Hx]].
  apply filter_In in Hx. destruct Hx as [_ Hk].
  destruct (is_final_form x) eqn:E.
  - right. now apply to_regular_final.
  - left. now rewrite to_regular_fixed.
Qed.

Lemma filter_all {A} (f : A -> bool) (l : list A) :
  Forall (fun x => f x = true) l -> filter f l = l.
Proof.
  induction 1 as [|x l Hx _ IH]; simpl; [reflexivity |].
  now rewrite Hx, IH.
Qed.

Lemma filter_none {A} (f : A -> bool) (l : list A) :
  Forall (fun x => f x = false) l -> filter f l = [].
Proof.
  induction 1 as [|x l Hx _ IH]; simpl; [reflexivity |].
  now rewrite Hx.
Qed.

Lemma map_fixed {A} (f : A -> A) (l : list A) :
  Forall (fun x => f x = x) l -> map f l = l.
Proof.
  induction 1 as [|x l Hx _ IH]; simpl; [reflexivity |].
  now rewrite Hx, IH.
Qed.

Lemma normalize_no_letters (text : option str) :
  is_hebrew_text text = false -> normalize_hebrew category text = [].
Proof.
  intro H. rewrite normalize_hebrew_spec. apply filter_none.
  apply Forall_forall. intros c Hc. apply in_map_iff in Hc.
  destruct Hc as [x [<- Hx]]. apply filter_In in Hx. destruct Hx as [Hx _].
  rewrite to_regular_letter. unfold is_hebrew_text in H.
  destruct (Py.not_ text) eqn:E.
  - destruct text as [[|? ?]|]; simpl in *; try discriminate; contradiction.
  - destruct (is_hebrew_letter x) eqn:Ex; [| reflexivity].
    rewrite <- H. symmetry. apply existsb_exists. now exists x.
Qed.

End NormalForm.

(** ** Textbook edit distance: the recurrence, scripts and the triangle *)

Section EditDistance.

Lemma lev_nil_r (a : str) : lev a [] = length a.
Proof. now destruct a. Qed.

Lemma lev_cons_cons (x y : codepoint) (a b : str) :
  lev (x :: a) (y :: b)
  = min3 (lev a (y :: b) + 1) (lev (x :: a) b + 1) (lev a b + neq_int x y).
Proof. reflexivity. Qed.

Lemma neq_int_refl (x : codepoint) : neq_int x x = 0.
Proof. unfold neq_int. now rewrite N.eqb_refl. Qed.

Lemma neq_int_sym (x y : codepoint) : neq_int x y = neq_int y x.
Proof. unfold neq_int. now rewrite N.eqb_sym. Qed.

Lemma neq_int_le (x y : codepoint) : neq_int x y <= 1.
Proof. unfold neq_int. destruct (x =? y)%N; lia. Qed.

Lemma neq_int_triangle (x y z : codepoint) :
  neq_int x z <= neq_int x y + neq_int y z.
Proof.
  unfold neq_int.
  destruct (x =? y)%N eqn:E1, (y =? z)%N eqn:E2, (x =? z)%N eqn:E3; try lia.
  apply N.eqb_eq in E1, E2. apply N.eqb_neq in E3. congruence.
Qed.

Lemma lev_del (x : codepoint) (a b : str) : lev (x :: a) b <= S (lev a b).
Proof.
  destruct b as [|y b].
  - rewrite !lev_nil_r. simpl. lia.
  - rewrite lev_cons_cons. unfold min3. lia.
Qed.

Lemma lev_ins (y : codepoint) (a b : str) : lev a (y :: b) <= S (lev a b).
Proof.
  destruct a as [|x a].
  - simpl. lia.
  - rewrite lev_cons_cons. unfold min3. lia.
Qed.

Lemma lev_sub (x y : codepoint) (a b : str) :
  lev (x :: a) (y :: b) <= lev a b + neq_int x y.
Proof. rewrite lev_cons_cons. unfold min3. lia. Qed.

(** The recurrence is the cost of some script ... *)
Lemma lev_aligned (a b : str) : aligned a b (lev a b).
Proof.
  revert b. induction a as [|x a IHa]; intro b.
  - induction b as [|y b IHb]; simpl in *; now constructor.
  - induction b as [|y b IHb].
    + rewrite lev_nil_r. simpl. constructor.
      specialize (IHa []). now rewrite lev_nil_r in IHa.
    + rewrite lev_cons_cons. unfold min3.
      destruct (Nat.min_dec (lev a (y :: b) + 1)
                  (Nat.min (lev (x :: a) b + 1) (lev a b + neq_int x y)))
        as [E|E]; rewrite E.
      * rewrite Nat.add_1_r. constructor. apply IHa.
      * destruct (Nat.min_dec (lev (x :: a) b + 1) (lev a b + neq_int x y))
          as [E'|E']; rewrite E'.
        -- rewrite Nat.add_1_r. now constructor.
        -- constructor. apply IHa.
Qed.

(** ... and no script is cheaper. *)
Lemma aligned_lev (a b : str) (n : nat) : aligned a b n -> lev a b <= n.
Proof.
  induction 1 as [|x a b n _ IH|y a b n _ IH|x y a b n _ IH].
  - simpl. lia.
  - pose proof (lev_del x a b). lia.
  - pose proof (lev_ins y a b). lia.
  - pose proof (lev_sub x y a b). lia.
Qed.

Lemma aligned_refl (a : str) : aligned a a 0.
Proof.
  induction a as [|x a IH]; [constructor |].
  replace 0 with (0 + neq_int x x) by (rewrite neq_int_refl; lia).
  now constructor.
Qed.

Lemma aligned_sym (a b : str) (n : nat) : aligned a b n -> aligned b a n.
Proof.
  induction 1 as [|x a b n _ IH|y a b n _ IH|x y a b n _ IH];
    try (now constructor).
  rewrite neq_int_sym. now constructor.
Qed.

Lemma aligned_app (a' b' : str) (m : nat) (a b : str) (n : nat) :
  aligned a' b' m -> aligned a b n -> aligned (a ++ a') (b ++ b') (n + m).
Proof.
  intro H'. induction 1 as [|x a b n _ IH|y a b n _ IH|x y a b n _ IH];
    simpl; try assumption; try (now constructor).
  replace (n + neq_int x y + m) with (n + m + neq_int x y) by lia.
  now constructor.
Qed.

Lemma aligned_rev (a b : str) (n : nat) :
  aligned a b n -> aligned (rev a) (rev b) n.
Proof.
  induction 1 as [|x a b n _ IH|y a b n _ IH|x y a b n _ IH]; simpl.
  - constructor.
  - replace (S n) with (n + 1) by lia.
    rewrite <- (app_nil_r (rev b)).
    apply aligned_app; [repeat constructor | exact IH].
  - replace (S n) with (n + 1) by lia.
    rewrite <- (app_nil_r (rev a)).
    apply aligned_app; [repeat constructor | exact IH].
  - apply aligned_app; [| exact IH].
    replace (neq_int x y) with (0 + neq_int x y) by lia.
    repeat constructor.
Qed.

(** Scripts compose: the distance obeys the triangle inequality. *)
Lemma aligned_compose (a b : str) (n : nat) :
  aligned a b n -> forall c m, aligned b c m -> lev a c <= n + m.
Proof.
  induction 1 as [|x a b n _ IH|y a b n _ IH|x y a b n _ IH]; intros c m H2.
  - apply aligned_lev in H2. simpl in *. lia.
  - pose proof (lev_del x a c). specialize (IH c m H2). lia.
  - remember (y :: b) as yb eqn:E. revert E.
    induction H2 as [|x' b0 c m H2 _|z b0 c m _ IH2|x' z b0 c m H2 _];
      intro E; try discriminate.
    + injection E as -> ->. specialize (IH c m H2). lia.
    + specialize (IH2 E). pose proof (lev_ins z a c). lia.
    + injection E as -> ->. specialize (IH c m H2).
      pose proof (lev_ins z a c). lia.
  - remember (y :: b) as yb eqn:E. revert E.
    induction H2 as [|x' b0 c m H2 _|z b0 c m _ IH2|x' z b0 c m H2 _];
      intro E; try discriminate.
    + injection E as -> ->. specialize (IH c m H2).
      pose proof (lev_del x a c). lia.
    + specialize (IH2 E). pose proof (lev_ins z (x :: a) c). lia.
    + injection E as -> ->. specialize (IH c m H2).
      pose proof (lev_sub x z a c). pose proof (neq_int_triangle x y z). lia.
Qed.

Lemma lev_refl (a : str) : lev a a = 0.
Proof. pose proof (aligned_lev (aligned_refl a)). lia. Qed.

Lemma lev_sym (a b : str) : lev a b = lev b a.
Proof.
  pose proof (aligned_lev (aligned_sym (lev_aligned a b))).
  pose proof (aligned_lev (aligned_sym (lev_aligned b a))).
  lia.
Qed.

Lemma lev_rev (a b : str) : lev (rev a) (rev b) = lev a b.
Proof.
  pose proof (aligned_lev (aligned_rev (lev_aligned a b))) as H1.
  pose proof (aligned_lev (aligned_rev (lev_aligned (rev a) (rev b)))) as H2.
  rewrite !rev_involutive in H2. lia.
Qed.

Lemma lev_triangle (a b c : str) : lev a c <= lev a b + lev b c.
Proof. exact (aligned_compose (lev_aligned a b) (lev_aligned b c)). Qed.

Lemma lev_le_max (a b : str) : lev a b <= Nat.max (length a) (length b).
Proof.
  revert b. induction a as [|x a IH]; intro b; [simpl; lia |].
  destruct b as [|y b]; [rewrite lev_nil_r; simpl; lia |].
  pose proof (lev_sub x y a b). pose proof (neq_int_le x y).
  specialize (IH b). simpl length. lia.
Qed.

(** The recurrence on the last characters, as the rows of the table use it. *)
Lemma lev_snoc_snoc (x y : codepoint) (a b : str) :
  lev (a ++ [x]) (b ++ [y])
  = min3 (lev a (b ++ [y]) + 1) (lev (a ++ [x]) b + 1) (lev a b + neq_int x y).
Proof.
  rewrite <- (lev_rev (a ++ [x]) (b ++ [y])), !rev_unit, lev_cons_cons.
  rewrite <- (lev_rev a (b ++ [y])), <- (lev_rev (a ++ [x]) b), !rev_unit.
  now rewrite (lev_rev a b).
Qed.

End EditDistance.

Section EditScripts.

Lemma edit_cons (x : codepoint) (a b : str) :
  edit a b -> edit (x :: a) (x :: b).
Proof.
  destruct 1 as [l c r|l c r|l c d r].
  - exact (edit_insert (x :: l) c r).
  - exact (edit_delete (x :: l) c r).
  - exact (edit_substitute (x :: l) c d r).
Qed.

Lemma edits_cons (x : codepoint) (n : nat) (a b : str) :
  edits n a b -> edits n (x :: a) (x :: b).
Proof.
  induction 1 as [a|n a b c Hab _ IH]; [constructor |].
  apply edits_step with (b := x :: b); [now apply edit_cons | exact IH].
Qed.

(** A script of cost [n] is a chain of [n] edits. *)
Lemma aligned_edits (a b : str) (n : nat) : aligned a b n -> edits n a b.
Proof.
  induction 1 as [|x a b n _ IH|y a b n _ IH|x y a b n _ IH].
  - constructor.
  - apply edits_step with (b := a); [exact (edit_delete [] x a) | exact IH].
  - apply edits_step with (b := y :: a); [exact (edit_insert [] y a) |].
    now apply edits_cons.
  - unfold neq_int. destruct (x =? y)%N eqn:E.
    + apply N.eqb_eq in E. subst y. rewrite Nat.add_0_r. now apply edits_cons.
    + rewrite Nat.add_1_r.
      apply edits_step with (b := y :: a);
        [exact (edit_substitute [] x y a) | now apply edits_cons].
Qed.

(** One edit moves the recurrence by at most one. *)
Lemma edit_lev (a b : str) : edit a b -> lev a b <= 1.
Proof.
  assert (Hcons : forall x a b, lev a b <= 1 -> lev (x :: a) (x :: b) <= 1).
  { intros x a0 b0 H. pose proof (lev_sub x x a0 b0) as Hs.
    rewrite neq_int_refl in Hs. lia. }
  destruct 1 as [l c r|l c r|l c d r];
    induction l as [|x l IH]; cbn [app]; try (now apply Hcons).
  - pose proof (lev_ins c r r). rewrite lev_refl in *. lia.
  - pose proof (lev_del c r r). rewrite lev_refl in *. lia.
  - pose proof (lev_sub c d r r). pose proof (neq_int_le c d).
    rewrite lev_refl in *. lia.
Qed.

Lemma edits_lev (n : nat) (a b : str) : edits n a b -> lev a b <= n.
Proof.
  induction 1 as [a|n a b c Hab _ IH].
  - rewrite lev_refl. lia.
  - pose proof (lev_triangle a b c). apply edit_lev in Hab. lia.
Qed.

(** The recurrence computes the least number of edits. *)
Lemma lev_is_edit_distance (a b : str) : is_edit_distance a b (lev a b).
Proof.
  split.
  - apply aligned_edits, lev_aligned.
  - intros n. apply edits_lev.
Qed.

End EditScripts.

(** ** The rolling rows of [levenshtein_distance] *)

Lemma getitem_map_seq {A} (f : nat -> A) (n j : nat) :
  j < n -> getitem (map f (seq 0 n)) j = Ok (f j).
Proof.
  intro H. unfold getitem.
  rewrite nth_error_map, nth_error_seq.
  apply Nat.ltb_lt in H. now rewrite H.
Qed.

Lemma getlast_map_seq {A} (f : nat -> A) (n : nat) :
  getlast (map f (seq 0 (n + 1))) = Ok (f n).
Proof.
  unfold getlast. now rewrite seq_app, map_app, rev_app_distr.
Qed.

Lemma firstn_app_exact {A} (l1 l2 : list A) :
  firstn (length l1) (l1 ++ l2) = l1.
Proof. induction l1 as [|x l1 IH]; simpl; [reflexivity | now rewrite IH]. Qed.

Section RollingRows.

Variable s2 : str.

Lemma row_nil : row s2 [] = seq 0 (length s2 + 1).
Proof.
  unfold row. rewrite <- map_id. apply map_ext_in.
  intros j Hj. apply in_seq in Hj. simpl. rewrite length_firstn. lia.
Qed.

Lemma inner_loop (p : str) (c1 : codepoint) (suffix : str) :
  forall q, s2 = q ++ suffix ->
  for_enumerate (inner_body (row s2 p) c1) (length q) suffix
    (map (fun j => lev (p ++ [c1]) (firstn j s2)) (seq 0 (length q + 1)))
  = Ok (row s2 (p ++ [c1])).
Proof.
  induction suffix as [|c2 suffix IH]; intros q Hs2.
  - simpl. unfold row. rewrite Hs2, app_nil_r. reflexivity.
  - cbn [for_enumerate]. unfold inner_body at 1.
    assert (Hlen : length s2 = length q + S (length suffix))
      by (rewrite Hs2, length_app; reflexivity).
    unfold row at 1 2. rewrite !getitem_map_seq by lia. cbn [bind].
    assert (Hq : firstn (length q) s2 = q)
      by (rewrite Hs2; apply firstn_app_exact).
    assert (Hq1 : firstn (length q + 1) s2 = q ++ [c2]).
    { rewrite Hs2. replace (q ++ c2 :: suffix) with ((q ++ [c2]) ++ suffix)
        by (now rewrite <- app_assoc).
      replace (length q + 1) with (length (q ++ [c2]))
        by (rewrite length_app; reflexivity).
      apply firstn_app_exact. }
    rewrite Hq, Hq1, <- lev_snoc_snoc, <- Hq1.
    replace (S (length q)) with (length (q ++ [c2]))
      by (rewrite length_app; simpl; lia).
    rewrite <- (IH (q ++ [c2])) by (now rewrite <- app_assoc).
    f_equal.
    rewrite (length_app q [c2]). cbn [length].
    rewrite (seq_app (length q + 1) 1 0), map_app. reflexivity.
Qed.

Lemma outer_step (p : str) (c1 : codepoint) :
  outer_body s2 (row s2 p) (length p) c1 = Ok (row s2 (p ++ [c1])).
Proof.
  unfold outer_body.
  rewrite <- (@inner_loop p c1 s2 [] eq_refl).
  cbn [length seq map firstn Nat.add]. rewrite lev_nil_r, length_app.
  reflexivity.
Qed.

Lemma outer_loop (rest : str) :
  forall p,
  for_enumerate (outer_body s2) (length p) rest (row s2 p)
  = Ok (row s2 (p ++ rest)).
Proof.
  induction rest as [|c1 rest IH]; intro p.
  - now rewrite app_nil_r.
  - cbn [for_enumerate]. rewrite outer_step. cbn [bind].
    replace (S (length p)) with (length (p ++ [c1]))
      by (rewrite length_app; simpl; lia).
    rewrite IH, <- app_assoc. reflexivity.
Qed.

Lemma rows_result (s1 : str) :
  (previous_row <- for_enumerate (outer_body s2) 0 s1 (seq 0 (length s2 + 1)) ;;
   getlast previous_row)
  = Ok (lev s1 s2).
Proof.
  rewrite <- row_nil. change 0 with (length (@nil codepoint)) at 1.
  rewrite (outer_loop s1 []). cbn [bind app].
  unfold row. rewrite getlast_map_seq, firstn_all. reflexivity.
Qed.

End RollingRows.

(** [levenshtein_distance] never raises and returns the recurrence's value. *)
Lemma levenshtein_distance_lev (s1 s2 : str) :
  levenshtein_distance s1 s2 = Ok (lev s1 s2).
Proof.
  funelim (levenshtein_distance s1 s2).
  - rewrite H. now rewrite lev_sym.
  - destruct (length s2 =? 0) eqn:E.
    + apply Nat.eqb_eq in E. destruct s2; [| discriminate].
      now rewrite lev_nil_r.
    + apply rows_result.
Qed.


(** ** The tiers of [compare_hebrew] *)

Section Comparator.

Variable category : codepoint -> string.

(** [compare_hebrew] never raises; its value, tier by tier. *)
Lemma compare_hebrew_value (text1 text2 : option str) (fuzzy : bool)
      (weight_exact weight_consonantal : Q) :
  compare_hebrew category text1 text2 fuzzy weight_exact weight_consonantal
  = Ok (if Py.not_ text1 || Py.not_ text2 then 0.0%Q
        else if Py.eqb text1 text2 then weight_exact
        else
          let norm1 := normalize_hebrew category text1 in
          let norm2 := normalize_hebrew category text2 in
          if Py.str_eqb norm1 norm2 then weight_consonantal
          else if negb fuzzy then 0.0%Q
          else
            let s := similarity_of (lev norm1 norm2) norm1 norm2 in
            if Py.ltb s 0.9%Q
               && (Py.str_eqb (remove_matres_lectionis norm1)
                              (remove_matres_lectionis norm2)
                   && (0 <? length (remove_matres_lectionis norm1)))
            then 0.85%Q
            else (s * 0.7)%Q).
Proof.
  unfold compare_hebrew.
  destruct (Py.not_ text1 || Py.not_ text2); [reflexivity |].
  destruct (Py.eqb text1 text2); [reflexivity |].
  cbv zeta.
  set (norm1 := normalize_hebrew category text1).
  set (norm2 := normalize_hebrew category text2).
  destruct (Py.str_eqb norm1 norm2) eqn:Eeq; [reflexivity |].
  destruct (negb fuzzy); [reflexivity |].
  apply str_eqb_neq in Eeq.
  destruct (Nat.max (length norm1) (length norm2)) as [|m] eqn:Em.
  - exfalso. apply Eeq.
    destruct norm1, norm2; simpl in Em; try discriminate; reflexivity.
  - cbn [Nat.eqb]. rewrite levenshtein_distance_lev. cbn [bind truediv].
    unfold similarity_of. rewrite Em.
    destruct (Py.ltb _ _); cbn [andb]; [| reflexivity].
    cbv zeta. destruct (_ && _); reflexivity.
Qed.

(** The binary64 version never raises either; its value, tier by tier:
    the tests are those of the rational version, the numbers are binary64
    numbers. *)
Lemma compare_hebrew64_value (text1 text2 : option str) (fuzzy : bool)
      (weight_exact weight_consonantal : Binary64.float) :
  HebrewNormalizer64.compare_hebrew category text1 text2 fuzzy
    weight_exact weight_consonantal
  = Ok (if Py.not_ text1 || Py.not_ text2 then Binary64.d0_0
        else if Py.eqb text1 text2 then weight_exact
        else
          let norm1 := normalize_hebrew category text1 in
          let norm2 := normalize_hebrew category text2 in
          if Py.str_eqb norm1 norm2 then weight_consonantal
          else if negb fuzzy then Binary64.d0_0
          else
            let s := similarity64_of (lev norm1 norm2) norm1 norm2 in
            if Binary64.ltb s Binary64.d0_9
               && (Py.str_eqb (remove_matres_lectionis norm1)
                              (remove_matres_lectionis norm2)
                   && (0 <? length (remove_matres_lectionis norm1)))
            then Binary64.d0_85
            else Binary64.mul s Binary64.d0_7).
Proof.
  unfold HebrewNormalizer64.compare_hebrew.
  destruct (Py.not_ text1 || Py.not_ text2); [reflexivity |].
  destruct (Py.eqb text1 text2); [reflexivity |].
  cbv zeta.
  set (norm1 := normalize_hebrew category text1).
  set (norm2 := normalize_hebrew category text2).
  destruct (Py.str_eqb norm1 norm2) eqn:Eeq; [reflexivity |].
  destruct (negb fuzzy); [reflexivity |].
  apply str_eqb_neq in Eeq.
  destruct (Nat.max (length norm1) (length norm2)) as [|m] eqn:Em.
  - exfalso. apply Eeq.
    destruct norm1, norm2; simpl in Em; try discriminate; reflexivity.
  - cbn [Nat.eqb]. rewrite levenshtein_distance_lev.
    cbn [bind Binary64.truediv].
    unfold similarity64_of. rewrite Em.
    destruct (Binary64.ltb _ _); cbn [andb]; [| reflexivity].
    cbv zeta. destruct (_ && _); reflexivity.
Qed.

Lemma consonantal_tier (text1 text2 : option str) (fuzzy : bool)
      (weight_exact weight_consonantal : Q) :
  Py.not_ text1 = false -> Py.not_ text2 = false -> text1 <> text2 ->
  normalize_hebrew category text1 = normalize_hebrew category text2 ->
  compare_hebrew category text1 text2 fuzzy weight_exact weight_consonantal
  = Ok weight_consonantal.
Proof.
  intros H1 H2 Hne Hnorm. unfold compare_hebrew. rewrite H1, H2. cbn [orb].
  destruct (Py.eqb text1 text2) eqn:E;
    [apply py_eqb_eq in E; contradiction |].
  cbv zeta. apply str_eqb_eq in Hnorm. now rewrite Hnorm.
Qed.

Lemma similarity_range (norm1 norm2 : str) :
  norm1 <> norm2 ->
  (0 <= similarity_of (lev norm1 norm2) norm1 norm2 <= 1)%Q.
Proof.
  intro Hne. unfold similarity_of.
  pose proof (lev_le_max norm1 norm2) as Hle.
  set (d := lev norm1 norm2) in *.
  set (m := Nat.max (length norm1) (length norm2)) in *.
  assert (Hm : m <> 0).
  { subst m. destruct norm1, norm2; simpl; try lia. congruence. }
  assert (H0 : (0 <= Z.of_nat d # Pos.of_nat m)%Q) by (unfold Qle; simpl; lia).
  assert (H1 : (Z.of_nat d # Pos.of_nat m <= 1)%Q) by (unfold Qle; simpl; lia).
  split; lra.
Qed.

End Comparator.

(** ** The doubled vowel letters *)

Section DoubledLetters.

Variable c : codepoint.

Lemma sub_other (x : codepoint) (s : str) :
  x <> c -> Py.re_sub [c; c] [c] (x :: s) = x :: Py.re_sub [c; c] [c] s.
Proof.
  intro H. apply N.eqb_neq in H. unfold Py.re_sub.
  cbn [replace_scan starts_with]. now rewrite H.
Qed.

Lemma sub_single_end : Py.re_sub [c; c] [c] [c] = [c].
Proof. cbn. now rewrite N.eqb_refl. Qed.

Lemma sub_single (x : codepoint) (s : str) :
  x <> c ->
  Py.re_sub [c; c] [c] (c :: x :: s) = c :: Py.re_sub [c; c] [c] (x :: s).
Proof.
  intro H. apply N.eqb_neq in H.
  change (Py.re_sub [c; c] [c] (c :: x :: s))
    with (if starts_with (c :: x :: s) [c; c]
          then [c] ++ replace_scan [c; c] [c] 1 (x :: s)
          else c :: Py.re_sub [c; c] [c] (x :: s)).
  cbn [starts_with]. now rewrite N.eqb_refl, H.
Qed.

Lemma sub_pair (s : str) :
  Py.re_sub [c; c] [c] (c :: c :: s) = c :: Py.re_sub [c; c] [c] s.
Proof.
  change (Py.re_sub [c; c] [c] (c :: c :: s))
    with (if starts_with (c :: c :: s) [c; c]
          then [c] ++ Py.re_sub [c; c] [c] s
          else c :: Py.re_sub [c; c] [c] (c :: s)).
  cbn [starts_with]. now rewrite N.eqb_refl.
Qed.

Lemma sub_run_other (x : codepoint) (n : nat) (rest : str) :
  x <> c ->
  Py.re_sub [c; c] [c] (repeat x n ++ rest)
  = repeat x n ++ Py.re_sub [c; c] [c] rest.
Proof.
  intro H. induction n as [|n IH]; simpl repeat; cbn [app]; [reflexivity |].
  now rewrite sub_other, IH.
Qed.

Lemma sub_run_two_steps (n : nat) (rest : str) :
  not_head c rest ->
  Py.re_sub [c; c] [c] (repeat c n ++ rest)
  = repeat c (Nat.div2 (S n)) ++ Py.re_sub [c; c] [c] rest
  /\ Py.re_sub [c; c] [c] (repeat c (S n) ++ rest)
     = repeat c (Nat.div2 (S (S n))) ++ Py.re_sub [c; c] [c] rest.
Proof.
  intro H. induction n as [|n [IH1 IH2]].
  - split; [reflexivity |]. cbn [repeat app Nat.div2].
    destruct rest as [|y rest]; [apply sub_single_end |].
    now apply sub_single.
  - split; [exact IH2 |].
    change (repeat c (S (S n)) ++ rest) with (c :: c :: (repeat c n ++ rest)).
    rewrite sub_pair, IH1. reflexivity.
Qed.

Lemma sub_run (n : nat) (rest : str) :
  not_head c rest ->
  Py.re_sub [c; c] [c] (repeat c n ++ rest)
  = repeat c (Nat.div2 (S n)) ++ Py.re_sub [c; c] [c] rest.
Proof. intro H. now apply sub_run_two_steps. Qed.

End DoubledLetters.

Lemma unruns_runs (s : str) : unruns (runs s) = s.
Proof.
  induction s as [|c s IH]; [reflexivity |].
  cbn [runs]. destruct (runs s) as [|[d n] rs].
  - simpl in IH. subst s. reflexivity.
  - destruct (c =? d)%N eqn:E.
    + apply N.eqb_eq in E. subst d. rewrite <- IH. reflexivity.
    + rewrite <- IH. reflexivity.
Qed.

Lemma runs_ok_runs (s : str) : runs_ok (runs s).
Proof.
  induction s as [|c s IH]; [exact I |].
  cbn [runs]. destruct (runs s) as [|[d n] rs].
  - simpl. auto.
  - destruct (c =? d)%N eqn:E.
    + destruct IH as [Hn [Hnext Hok]]. cbn [runs_ok]. repeat split; auto.
    + apply N.eqb_neq in E. cbn [runs_ok] in *. repeat split; auto; tauto.
Qed.

Lemma runs_ok_not_head (x : codepoint) (n : nat) (rs : list (codepoint * nat)) :
  runs_ok ((x, n) :: rs) -> not_head x (unruns rs).
Proof.
  intros [_ [Hnext Hok]]. destruct rs as [|[y m] rs]; [exact I |].
  destruct Hok as [Hm _]. destruct m as [|m]; [lia |].
  simpl. congruence.
Qed.

Lemma runs_ok_map (f : codepoint -> nat -> nat) (rs : list (codepoint * nat)) :
  (forall x n, 1 <= n -> 1 <= f x n) ->
  runs_ok rs -> runs_ok (map (fun '(x, n) => (x, f x n)) rs).
Proof.
  intro Hf. induction rs as [|[x n] rs IH]; [trivial |].
  intros [Hn [Hnext Hok]]. cbn [map runs_ok]. repeat split; auto.
  destruct rs as [|[y m] rs]; [exact I | exact Hnext].
Qed.

(** One substitution acts run by run. *)
Lemma re_sub_pair_runs (c : codepoint) (rs : list (codepoint * nat)) :
  runs_ok rs ->
  Py.re_sub [c; c] [c] (unruns rs)
  = unruns (map (fun '(x, n) => (x, if (x =? c)%N then Nat.div2 (S n) else n))
                rs).
Proof.
  induction rs as [|[x n] rs IH]; intro Hok; [reflexivity |].
  pose proof (runs_ok_not_head Hok) as Hhead.
  destruct Hok as [_ [_ Hok]]. specialize (IH Hok).
  change (unruns ((x, n) :: rs)) with (repeat x n ++ unruns rs).
  cbn [map]. change (unruns ((x, ?k) :: ?l)) with (repeat x k ++ unruns l).
  destruct (x =? c)%N eqn:E.
  - apply N.eqb_eq in E. subst x. rewrite sub_run by exact Hhead.
    now rewrite IH.
  - apply N.eqb_neq in E. rewrite sub_run_other by exact E. now rewrite IH.
Qed.

Lemma div2_succ_pos (n : nat) : 1 <= n -> 1 <= Nat.div2 (S n).
Proof.
  destruct n as [|n]; [lia |]. intros _. simpl. apply le_n_S, Nat.le_0_l.
Qed.

Lemma remove_matres_lectionis_runs (text : str) :
  remove_matres_lectionis text = halve_runs text.
Proof.
  unfold remove_matres_lectionis, halve_runs.
  rewrite <- (unruns_runs text) at 1.
  rewrite re_sub_pair_runs by apply runs_ok_runs.
  rewrite re_sub_pair_runs.
  - rewrite map_map. f_equal. apply map_ext. intros [x n].
    unfold is_vowel_letter.
    destruct (x =? vav)%N eqn:Ev; cbn [orb].
    + apply N.eqb_eq in Ev. subst x. reflexivity.
    + destruct (x =? yod)%N; reflexivity.
  - apply (runs_ok_map (fun x n => if (x =? vav)%N then Nat.div2 (S n) else n)).
    + intros x n Hn.
      destruct (x =? vav)%N; [now apply div2_succ_pos | exact Hn].
    + apply runs_ok_runs.
Qed.

(** ** The coverage pass *)

Section CoveragePass.

Import CompleteMapping.

Variable category : codepoint -> string.
Variable all_bhsa : dict bhsa_data.
Variable all_strongs : dict strongs_data.

Lemma dict_get_set {V} (d : dict V) (k k' : str) (v : V) :
  dict_get (dict_set d k v) k'
  = if Py.str_eqb k' k then Some v else dict_get d k'.
Proof.
  induction d as [|[k0 v0] d IH]; cbn [dict_set dict_get]; [reflexivity |].
  destruct (Py.str_eqb k k0) eqn:E; cbn [dict_get].
  - apply str_eqb_eq in E. subst k0. now destruct (Py.str_eqb k' k).
  - rewrite IH. destruct (Py.str_eqb k' k0) eqn:E0; [| reflexivity].
    destruct (Py.str_eqb k' k) eqn:E1; [| reflexivity].
    apply str_eqb_eq in E0, E1. apply str_eqb_neq in E. congruence.
Qed.

Lemma dict_contains_set {V} (d : dict V) (k k' : str) (v : V) :
  dict_contains (dict_set d k v) k' = Py.str_eqb k' k || dict_contains d k'.
Proof.
  unfold dict_contains. rewrite dict_get_set. now destruct (Py.str_eqb k' k).
Qed.

Lemma dict_get_key {V} (d : dict V) (k : str) :
  In k (dict_keys d) -> exists v, dict_get d k = Some v.
Proof.
  induction d as [|[k0 v0] d IH]; cbn [dict_keys map In dict_get fst];
    [contradiction |].
  intros [->|H].
  - rewrite str_eqb_refl. now exists v0.
  - destruct (Py.str_eqb k k0); [now exists v0 | now apply IH].
Qed.

(** The inner loop never raises; it ends with a match exactly when it
    started with one or some candidate scores above zero. *)
Lemma best_loop (bhsa : bhsa_data) (l : dict strongs_data) :
  forall best_match best_score,
  (best_match = None -> (best_score == 0)%Q) ->
  exists best_match' best_score',
    for_each (best_step category bhsa) l (best_match, best_score)
    = Ok (best_match', best_score')
    /\ (best_match' <> None
        <-> best_match <> None \/ has_positive_candidate category l bhsa).
Proof.
  induction l as [|[num sd] l IH]; intros bm bs Hinv.
  - exists bm, bs. split; [reflexivity |]. split; [now left |].
    intros [H | [? [? [? [[] _]]]]]. exact H.
  - cbn [for_each]. unfold best_step at 1. unfold compare_hebrew_default.
    rewrite compare_hebrew_value. cbn [bind].
    match goal with |- context [Py.ltb bs ?q] => set (v := q) end.
    assert (Hv : compare_hebrew_default category (Some (normalized bhsa))
                   (Some (strongs_normalized sd)) true = Ok v).
    { unfold compare_hebrew_default. now rewrite compare_hebrew_value. }
    destruct (Py.ltb bs v) eqn:E; cbn [bind].
    + apply py_ltb_lt in E.
      match goal with
      | |- context [for_each _ l (Some ?m, v)] =>
          destruct (IH (Some m) v ltac:(discriminate))
            as [bm' [bs' [Hrun Hiff]]]
      end.
      exists bm', bs'. split; [exact Hrun |]. split.
      * intros _. destruct bm as [m|]; [left; discriminate | right].
        exists num, sd, v. split; [now left |]. split; [exact Hv |].
        specialize (Hinv eq_refl). lra.
      * intros _. apply Hiff. left. discriminate.
    + destruct (IH bm bs Hinv) as [bm' [bs' [Hrun Hiff]]].
      exists bm', bs'. split; [exact Hrun |]. rewrite Hiff. split.
      * intros [H | [n' [sd' [v' [Hin Hrest]]]]]; [now left | right].
        exists n', sd', v'. split; [now right | exact Hrest].
      * intros [H | [n' [sd' [v' [[Heq | Hin] [Hv' Hpos]]]]]]; [now left | |].
        -- injection Heq as <- <-. rewrite Hv in Hv'. injection Hv' as <-.
           left. intro Hnone. specialize (Hinv Hnone).
           assert (Hle : (v <= bs)%Q).
           { apply Qnot_lt_le. intro Hlt. apply py_ltb_lt in Hlt. congruence. }
           lra.
        -- right. exists n', sd', v'. split; [exact Hin | now split].
Qed.

(** The outer loop never raises on lexemes of the corpus; it adds exactly
    those that have a candidate scoring above zero. *)
Lemma cover_loop (lexemes : list str) :
  (forall lex, In lex lexemes -> In lex (dict_keys all_bhsa)) ->
  forall bhsa_to_strongs matched_count,
  exists bhsa_to_strongs' matched_count',
    for_each (cover_step category all_bhsa all_strongs) lexemes
             (bhsa_to_strongs, matched_count)
    = Ok (bhsa_to_strongs', matched_count')
    /\ forall lex,
        dict_contains bhsa_to_strongs' lex = true
        <-> dict_contains bhsa_to_strongs lex = true
            \/ (In lex lexemes
                /\ exists bhsa, dict_get all_bhsa lex = Some bhsa
                      /\ has_positive_candidate category all_strongs bhsa).
Proof.
  induction lexemes as [|lex0 lexemes IH]; intros Hkeys m n.
  - exists m, n. split; [reflexivity |]. intro lex. split; [now left |].
    intros [H | [[] _]]. exact H.
  - cbn [for_each]. unfold cover_step at 1. unfold dict_getitem.
    destruct (dict_get_key all_bhsa lex0 (Hkeys lex0 (or_introl eq_refl)))
      as [bhsa Hbhsa].
    rewrite Hbhsa. cbn [bind].
    destruct (best_loop bhsa all_strongs (best_match := None)
                (best_score := 0%Q) ltac:(reflexivity))
      as [bm [bs [Hrun Hiff]]].
    rewrite Hrun. cbn [bind fst].
    assert (Hkeys' : forall lex, In lex lexemes -> In lex (dict_keys all_bhsa))
      by (intros lex H; apply Hkeys; now right).
    destruct bm as [best|].
    + destruct (IH Hkeys' (dict_set m lex0 best) (n + 1))
        as [m' [n' [Hrun' Hiff']]].
      exists m', n'. split; [exact Hrun' |]. intro lex. rewrite Hiff'.
      rewrite dict_contains_set. rewrite orb_true_iff, str_eqb_eq.
      assert (Hpos : has_positive_candidate category all_strongs bhsa).
      { destruct (proj1 Hiff ltac:(discriminate)) as [H | H];
          [congruence | exact H]. }
      split.
      * intros [[-> | H] | [Hin Hrest]]; [right | now left | right].
        -- split; [now left |]. now exists bhsa.
        -- split; [now right | exact Hrest].
      * intros [H | [[-> | Hin] Hrest]]; [left; now right | left; now left |].
        right. now split.
    + destruct (IH Hkeys' m n) as [m' [n' [Hrun' Hiff']]].
      exists m', n'. split; [exact Hrun' |]. intro lex. rewrite Hiff'.
      assert (Hneg : ~ has_positive_candidate category all_strongs bhsa).
      { intro H. apply (proj2 Hiff); [now right | reflexivity]. }
      split.
      * intros [H | [Hin Hrest]]; [now left | right].
        split; [now right | exact Hrest].
      * intros [H | [[-> | Hin] Hrest]]; [now left | | right; now split].
        destruct Hrest as [bhsa' [Hget Hpos]]. rewrite Hbhsa in Hget.
        injection Hget as <-. contradiction.
Qed.

(** The pass never raises, and afterwards a lexeme has an entry exactly when
    it had one before or it is in the corpus and some dictionary entry scores
    above zero against it. *)
Lemma coverage_pass_entries (bhsa_to_strongs : dict match_entry) :
  exists bhsa_to_strongs' matched_count,
    coverage_pass category all_bhsa all_strongs bhsa_to_strongs
    = Ok (bhsa_to_strongs', matched_count)
    /\ forall lex,
        dict_contains bhsa_to_strongs' lex = true
        <-> dict_contains bhsa_to_strongs lex = true
            \/ (In lex (dict_keys all_bhsa)
                /\ exists bhsa, dict_get all_bhsa lex = Some bhsa
                      /\ has_positive_candidate category all_strongs bhsa).
Proof.
  unfold coverage_pass. cbv zeta.
  destruct (@cover_loop (unmatched_of all_bhsa bhsa_to_strongs)
              ltac:(intros lex H; apply filter_In in H; tauto)
              bhsa_to_strongs 0) as [m' [n' [Hrun Hiff]]].
  exists m', n'. split; [exact Hrun |]. intro lex. rewrite Hiff.
  unfold unmatched_of. rewrite filter_In, negb_true_iff.
  destruct (dict_contains bhsa_to_strongs lex); intuition congruence.
Qed.

End CoveragePass.

(** ** The model on the cases of test_hebrew_normalizer.py *)

Example test_remove_niqqud :
  normalize_hebrew hebrew_block_category (Some ahav_pointed) = ahav_plain
  /\ normalize_hebrew hebrew_block_category (Some melekh_pointed)
     = [mem; 0x05DC%N; kaf].
Proof. split; reflexivity. Qed.

Example test_empty_string :
  normalize_hebrew hebrew_block_category (Some []) = []
  /\ normalize_hebrew hebrew_block_category None = [].
Proof. split; reflexivity. Qed.

Example test_mixed_content :
  normalize_hebrew hebrew_block_category
    (Some [0x74; 0x20; 0x05D0; 0x05B8; 0x05D1; 0x20; 0x31; 0x32]%N)
  = [0x05D0; 0x05D1]%N.
Proof. reflexivity. Qed.

Example test_one_character_difference :
  levenshtein_distance ahav_plain ahad_plain = Ok 1
  /\ levenshtein_distance [0x63; 0x61; 0x74]%N [0x62; 0x61; 0x74]%N = Ok 1.
Proof. split; reflexivity. Qed.

Example test_empty_strings :
  levenshtein_distance [] [] = Ok 0
  /\ levenshtein_distance latin_ab [] = Ok 2
  /\ levenshtein_distance [] latin_ab = Ok 2.
Proof. repeat split; reflexivity. Qed.

Example test_completely_different :
  levenshtein_distance ahav_plain [0x05E9; 0x05E0; 0x05D0]%N = Ok 3.
Proof. reflexivity. Qed.

Example test_doubled_vav :
  remove_matres_lectionis [0x05E7; vav; vav; final_mem]%N
  = [0x05E7; vav; final_mem]%N.
Proof. reflexivity. Qed.

Example runs_of_three_vavs :
  runs [0x05D3; vav; vav; vav; 0x05D3]%N
  = [(0x05D3%N, 1); (vav, 3); (0x05D3%N, 1)]
  /\ halve_runs [0x05D3; vav; vav; vav; 0x05D3]%N
     = [0x05D3; vav; vav; 0x05D3]%N.
Proof. split; reflexivity. Qed.

Example test_consonantal_match :
  compare_hebrew_default hebrew_block_category
    (Some ahav_pointed) (Some ahav_plain) true = Ok 0.9%Q.
Proof. reflexivity. Qed.

Example test_fuzzy_matching :
  compare_hebrew_default hebrew_block_category
    (Some ahav_plain) (Some ahad_plain) true
  = Ok ((1.0 - (1 # 3)) * 0.7)%Q
  /\ compare_hebrew_default hebrew_block_category
       (Some ahav_plain) (Some ahad_plain) false
     = Ok 0.0%Q.
Proof. split; reflexivity. Qed.

(** ** Auxiliary facts for the statements *)

Lemma subseq_normal_form {A B} (P : B -> bool) (f : A -> B) (Q : A -> bool)
      (l : list A) :
  subseq (filter P (map f (filter Q l))) (map f l).
Proof.
  induction l as [|x l IH]; simpl; [constructor |].
  destruct (Q x); simpl; [| now constructor].
  destruct (P (f x)); now constructor.
Qed.

Lemma hebrew_block_regular_not_marks (c : codepoint) :
  In c [kaf; mem; nun; pe; tsadi] -> hebrew_block_category c <> "Mn"%string.
Proof.
  cbn [In]. intros [<-|[<-|[<-|[<-|[<-|[]]]]]]; discriminate.
Qed.

(** * The claims *)

(** C1. With the default weights the tiers are tried in order and the first
    applicable one wins: an empty or absent input gives [0.0] (also when both
    are empty); otherwise identical raw strings give [1.0]; otherwise equal
    normalised forms give exactly [0.9]; otherwise, with [fuzzy=False], the
    score is exactly [0.0]. *)
Theorem compare_hebrew_tiers (category : codepoint -> string)
        (text1 text2 : option str) (fuzzy : bool) :
  (Py.not_ text1 = true \/ Py.not_ text2 = true ->
   compare_hebrew_default category text1 text2 fuzzy = Ok 0.0%Q)
  /\ (Py.not_ text1 = false -> Py.not_ text2 = false -> text1 = text2 ->
      compare_hebrew_default category text1 text2 fuzzy = Ok 1.0%Q)
  /\ (Py.not_ text1 = false -> Py.not_ text2 = false -> text1 <> text2 ->
      normalize_hebrew category text1 = normalize_hebrew category text2 ->
      compare_hebrew_default category text1 text2 fuzzy = Ok 0.9%Q)
  /\ (Py.not_ text1 = false -> Py.not_ text2 = false -> text1 <> text2 ->
      normalize_hebrew category text1 <> normalize_hebrew category text2 ->
      fuzzy = false ->
      compare_hebrew_default category text1 text2 fuzzy = Ok 0.0%Q).
Proof.
  unfold compare_hebrew_default. split; [| split; [| split]].
  - intros [H|H]; unfold compare_hebrew; rewrite H; [| rewrite orb_true_r];
      reflexivity.
  - intros H1 H2 Heq. unfold compare_hebrew. rewrite H1, H2.
    apply py_eqb_eq in Heq. now rewrite Heq.
  - intros H1 H2 Hne Hnorm. now apply consonantal_tier.
  - intros H1 H2 Hne Hnorm ->. unfold compare_hebrew. rewrite H1, H2. cbn [orb].
    destruct (Py.eqb text1 text2) eqn:E;
      [apply py_eqb_eq in E; contradiction |].
    cbv zeta. apply str_eqb_neq in Hnorm. now rewrite Hnorm.
Qed.

Lemma compare_hebrew_tiers_witness :
  compare_hebrew_default hebrew_block_category (Some []) (Some []) true
  = Ok 0.0%Q
  /\ compare_hebrew_default hebrew_block_category
       (Some melekh_plain) (Some melekh_plain) true = Ok 1.0%Q
  /\ compare_hebrew_default hebrew_block_category
       (Some melekh_pointed) (Some melekh_plain) true = Ok 0.9%Q
  /\ compare_hebrew_default hebrew_block_category
       (Some ahav_plain) (Some ahad_plain) false = Ok 0.0%Q.
Proof.
  split; [| split; [| split]].
  - apply (proj1 (compare_hebrew_tiers hebrew_block_category
                    (Some []) (Some []) true)).
    left. reflexivity.
  - apply (proj1 (proj2 (compare_hebrew_tiers hebrew_block_category
                           (Some melekh_plain) (Some melekh_plain) true)));
      reflexivity.
  - apply (proj1 (proj2 (proj2 (compare_hebrew_tiers hebrew_block_category
                                  (Some melekh_pointed) (Some melekh_plain)
                                  true))));
      [reflexivity | reflexivity | discriminate | reflexivity].
  - apply (proj2 (proj2 (proj2 (compare_hebrew_tiers hebrew_block_category
                                  (Some ahav_plain) (Some ahad_plain)
                                  false))));
      [reflexivity | reflexivity | discriminate | vm_compute; discriminate
      | reflexivity].
Defined.

(** C2. For non-empty, different strings whose normalised forms differ, with
    [fuzzy=True] and [s = 1.0 - levenshtein_distance(norm1, norm2) /
    max(len(norm1), len(norm2))], computed as Python computes it, in
    binary64 arithmetic: if [s < 0.9] and the two forms without doubled
    vowel letters are equal and non-empty the score is exactly [0.85];
    otherwise it is [s * 0.7], the binary64 product; and a zero [max_len]
    gives [0.0]. *)
Theorem compare_hebrew_fuzzy (category : codepoint -> string)
        (text1 text2 : option str) :
  Py.not_ text1 = false -> Py.not_ text2 = false -> text1 <> text2 ->
  let norm1 := normalize_hebrew category text1 in
  let norm2 := normalize_hebrew category text2 in
  norm1 <> norm2 ->
  let max_len := Nat.max (length norm1) (length norm2) in
  exists distance,
    levenshtein_distance norm1 norm2 = Ok distance
    /\ let s := Binary64.sub Binary64.d1_0
                  (Binary64.div_int (Z.of_nat distance) (Z.of_nat max_len)) in
       (Binary64.ltb s Binary64.d0_9 = true ->
        remove_matres_lectionis norm1 = remove_matres_lectionis norm2 ->
        remove_matres_lectionis norm1 <> [] ->
        HebrewNormalizer64.compare_hebrew_default category text1 text2 true
        = Ok Binary64.d0_85)
       /\ (Binary64.ltb s Binary64.d0_9 = false
           \/ remove_matres_lectionis norm1 <> remove_matres_lectionis norm2
           \/ remove_matres_lectionis norm1 = [] ->
           HebrewNormalizer64.compare_hebrew_default category text1 text2 true
           = Ok (Binary64.mul s Binary64.d0_7))
       /\ (max_len = 0 ->
           HebrewNormalizer64.compare_hebrew_default category text1 text2 true
           = Ok Binary64.d0_0).
Proof.
  intros H1 H2 Hne norm1 norm2 Hnorm max_len.
  exists (lev norm1 norm2). split; [apply levenshtein_distance_lev |].
  cbv zeta. unfold HebrewNormalizer64.compare_hebrew_default.
  rewrite compare_hebrew64_value.
  rewrite H1, H2. cbn [orb negb].
  destruct (Py.eqb text1 text2) eqn:E;
    [apply py_eqb_eq in E; contradiction |].
  cbv zeta. fold norm1 norm2.
  destruct (Py.str_eqb norm1 norm2) eqn:E';
    [apply str_eqb_eq in E'; contradiction |].
  unfold similarity64_of. fold max_len.
  set (s := Binary64.sub Binary64.d1_0
              (Binary64.div_int (Z.of_nat (lev norm1 norm2))
                                (Z.of_nat max_len))).
  split; [| split].
  - intros Hs Hml Hnonempty. rewrite Hs.
    apply str_eqb_eq in Hml. rewrite Hml.
    destruct (remove_matres_lectionis norm1); [contradiction | reflexivity].
  - intros [Hs | [Hml | Hempty]].
    + now rewrite Hs.
    + apply str_eqb_neq in Hml. rewrite Hml. now rewrite andb_false_r.
    + rewrite Hempty. cbn [length Nat.ltb Nat.leb]. now rewrite !andb_false_r.
  - intro Hmax. exfalso. apply Hnorm. subst max_len.
    destruct norm1, norm2; simpl in Hmax; try discriminate; reflexivity.
Qed.

Lemma compare_hebrew_fuzzy_witness :
  HebrewNormalizer64.compare_hebrew_default hebrew_block_category
    (Some dvd) (Some dvvd) true
  = Ok Binary64.d0_85
  /\ HebrewNormalizer64.compare_hebrew_default hebrew_block_category
       (Some dvd) (Some dvyd) true
     = Ok (Binary64.mul
             (Binary64.sub Binary64.d1_0 (Binary64.div_int 1 4))
             Binary64.d0_7)
  /\ Binary64.mul (Binary64.sub Binary64.d1_0 (Binary64.div_int 1 4))
                  Binary64.d0_7
     = SpecFloat.S754_finite false 4728779608739020 (-53).
Proof.
  split; [| split].
  - destruct (@compare_hebrew_fuzzy hebrew_block_category
                (Some dvd) (Some dvvd) eq_refl eq_refl
                ltac:(discriminate) ltac:(vm_compute; discriminate))
      as [d [Hd [H _]]].
    vm_compute in Hd. injection Hd as <-.
    apply H; [reflexivity | reflexivity | discriminate].
  - destruct (@compare_hebrew_fuzzy hebrew_block_category
                (Some dvd) (Some dvyd) eq_refl eq_refl
                ltac:(discriminate) ltac:(vm_compute; discriminate))
      as [d [Hd [_ [H _]]]].
    vm_compute in Hd. injection Hd as <-.
    apply H. right. left. vm_compute. discriminate.
  - reflexivity.
Defined.

(** C3. Normalising twice is normalising once: for every input [x],
    [normalize_hebrew(normalize_hebrew(x)) == normalize_hebrew(x)], given
    that the Unicode database does not classify the five letters that
    replace a final form (kaf, mem, nun, pe, tsadi) as nonspacing marks. *)
Theorem normalize_hebrew_idempotent (category : codepoint -> string)
        (x : option str) :
  (forall c, In c [kaf; mem; nun; pe; tsadi] -> category c <> "Mn"%string) ->
  normalize_hebrew category (Some (normalize_hebrew category x))
  = normalize_hebrew category x.
Proof.
  intro Hcat.
  pose proof (normalize_hebrew_letters category x) as Hall.
  pose proof (normalize_hebrew_sources category x) as Hsrc.
  rewrite (normalize_hebrew_spec category (Some _)). cbn [Py.chars].
  set (y := normalize_hebrew category x) in *.
  assert (Hkept : filter (is_kept category) y = y).
  { apply filter_all. apply Forall_forall. intros c Hc.
    rewrite Forall_forall in Hall, Hsrc.
    destruct (Hsrc c Hc) as [Hk | Hr]; [exact Hk |].
    destruct (Hall c Hc) as [Hl _]. unfold is_kept.
    destruct (letter_not_point c Hl) as [-> ->].
    specialize (Hcat c Hr). apply String.eqb_neq in Hcat. now rewrite Hcat. }
  assert (Hmap : map to_regular y = y).
  { apply map_fixed. eapply Forall_impl; [| exact Hall].
    intros c [_ Hf]. now apply to_regular_fixed. }
  rewrite Hkept, Hmap. apply filter_all.
  eapply Forall_impl; [| exact Hall]. now intros c [Hl _].
Qed.

Lemma normalize_hebrew_idempotent_witness :
  normalize_hebrew hebrew_block_category
    (Some (normalize_hebrew hebrew_block_category (Some melekh_pointed)))
  = normalize_hebrew hebrew_block_category (Some melekh_pointed).
Proof.
  apply normalize_hebrew_idempotent. exact hebrew_block_regular_not_marks.
Defined.

(** C4. Every code point of [normalize_hebrew(text)] lies in U+05D0-U+05EA
    and is none of the five final forms; the output is the input with marks
    and points dropped, final forms mapped to their base letters and all
    other code points removed, so it keeps the relative order of the
    surviving letters; and an input without Hebrew letters gives the empty
    string. *)
Theorem normalize_hebrew_alphabet (category : codepoint -> string)
        (text : option str) :
  Forall (fun c => (0x05D0 <= c <= 0x05EA)%N
                   /\ ~ In c [final_kaf; final_mem; final_nun; final_pe;
                              final_tsadi])
         (normalize_hebrew category text)
  /\ normalize_hebrew category text
     = filter is_hebrew_letter
         (map to_regular (filter (is_kept category) (Py.chars text)))
  /\ subseq (normalize_hebrew category text) (map to_regular (Py.chars text))
  /\ (is_hebrew_text text = false -> normalize_hebrew category text = []).
Proof.
  repeat split.
  - eapply Forall_impl; [| apply normalize_hebrew_letters].
    intros c [Hl Hf]. unfold is_hebrew_letter in Hl.
    apply andb_true_iff in Hl. destruct Hl as [H1 H2].
    apply N.leb_le in H1. apply N.leb_le in H2. split; [lia |].
    intro Hin. unfold is_final_form in Hf.
    assert (Hex : existsb (N.eqb c)
                    [final_kaf; final_mem; final_nun; final_pe; final_tsadi]
                  = true).
    { apply existsb_exists. exists c. split; [exact Hin | apply N.eqb_refl]. }
    congruence.
  - apply normalize_hebrew_spec.
  - rewrite normalize_hebrew_spec. apply subseq_normal_form.
  - apply normalize_no_letters.
Qed.

Lemma normalize_hebrew_alphabet_witness :
  normalize_hebrew hebrew_block_category (Some latin_ab) = [].
Proof.
  apply (proj2 (proj2 (proj2 (normalize_hebrew_alphabet hebrew_block_category
                                (Some latin_ab))))).
  reflexivity.
Defined.

(** C5. [levenshtein_distance(s1, s2)] never raises and returns the textbook
    edit distance: the least number of single-character insertions,
    deletions and substitutions that turn [s1] into [s2], which is also the
    value of the Wagner-Fischer recurrence.  In particular the distance from
    a string to itself is 0, the distance to the empty string is the length,
    and the triangle inequality holds. *)
Theorem levenshtein_distance_textbook (a b c : str) :
  (exists d, levenshtein_distance a b = Ok d
             /\ is_edit_distance a b d /\ d = lev a b)
  /\ levenshtein_distance a a = Ok 0
  /\ levenshtein_distance a [] = Ok (length a)
  /\ (exists dab dbc dac,
         levenshtein_distance a b = Ok dab
         /\ levenshtein_distance b c = Ok dbc
         /\ levenshtein_distance a c = Ok dac
         /\ dac <= dab + dbc).
Proof.
  rewrite !levenshtein_distance_lev. repeat split.
  - exists (lev a b). repeat split.
    + apply lev_is_edit_distance.
    + apply lev_is_edit_distance.
  - now rewrite lev_refl.
  - now rewrite lev_nil_r.
  - exists (lev a b), (lev b c), (lev a c). repeat split. apply lev_triangle.
Qed.

(** C6. The comparison is symmetric: for all [a], [b] and both values of
    [fuzzy], [compare_hebrew(a, b, fuzzy) == compare_hebrew(b, a, fuzzy)]. *)
Theorem compare_hebrew_symmetric (category : codepoint -> string)
        (a b : option str) (fuzzy : bool) :
  compare_hebrew_default category a b fuzzy
  = compare_hebrew_default category b a fuzzy.
Proof.
  unfold compare_hebrew_default. rewrite !compare_hebrew_value. f_equal.
  rewrite (orb_comm (Py.not_ b)), (py_eqb_sym b a).
  destruct (Py.not_ a || Py.not_ b); [reflexivity |].
  destruct (Py.eqb a b); [reflexivity |].
  cbv zeta.
  set (norm1 := normalize_hebrew category a).
  set (norm2 := normalize_hebrew category b).
  rewrite (str_eqb_sym norm2 norm1).
  destruct (Py.str_eqb norm1 norm2); [reflexivity |].
  destruct (negb fuzzy); [reflexivity |].
  unfold similarity_of.
  rewrite (lev_sym norm2 norm1), (Nat.max_comm (length norm2)).
  rewrite (str_eqb_sym (remove_matres_lectionis norm2)).
  destruct (Py.str_eqb (remove_matres_lectionis norm1)
                       (remove_matres_lectionis norm2)) eqn:E.
  - apply str_eqb_eq in E. now rewrite E.
  - now rewrite !andb_false_r.
Qed.

(** C7. [normalize_hebrew] and [compare_hebrew] are total: on every input,
    also an absent, empty, malformed or non-Hebrew one, no operation raises;
    [normalize_hebrew] returns a string (the empty one for an absent or
    empty input) and [compare_hebrew] with the default weights returns a
    score [v] with [0.0 <= v <= 1.0], whatever [fuzzy] is. *)
Theorem compare_hebrew_total_range (category : codepoint -> string)
        (text1 text2 : option str) (fuzzy : bool) :
  (exists v, compare_hebrew_default category text1 text2 fuzzy = Ok v
             /\ (0.0 <= v <= 1.0)%Q)
  /\ (exists s, normalize_hebrew category text1 = s
                /\ Forall (fun c => is_hebrew_letter c = true) s)
  /\ normalize_hebrew category None = []
  /\ normalize_hebrew category (Some []) = [].
Proof.
  split; [| split; [| split; reflexivity]].
  - unfold compare_hebrew_default. rewrite compare_hebrew_value.
    eexists. split; [reflexivity |].
    destruct (Py.not_ text1 || Py.not_ text2); [split; discriminate |].
    destruct (Py.eqb text1 text2); [split; discriminate |].
    cbv zeta.
    destruct (Py.str_eqb _ _) eqn:E; [split; discriminate |].
    destruct (negb fuzzy); [split; discriminate |].
    apply str_eqb_neq in E. pose proof (similarity_range E) as Hs.
    destruct (_ && _); [split; discriminate |].
    split; lra.
  - eexists. split; [reflexivity |].
    eapply Forall_impl; [| apply normalize_hebrew_letters].
    now intros c [H _].
Qed.

(** C8, evaluated where it fails.  The corpus has one lexeme, vav, that no
    earlier step matched; the dictionary is not empty; the only candidate
    scores [0.0], which is not above the initial [best_score = 0]: the pass
    ends with an empty mapping and [matched_count = 0], so the lexeme has no
    entry. *)
Theorem coverage_pass_skips_zero_scores :
  normalize_hebrew hebrew_block_category (Some CompleteMapping.vav_lexeme)
  = [vav]
  /\ compare_hebrew_default hebrew_block_category
       (Some [vav]) (Some [0x05D0; 0x05D1]%N) true
     = Ok ((1.0 - (2 # 2)) * 0.7)%Q
  /\ CompleteMapping.coverage_pass hebrew_block_category
       CompleteMapping.corpus_vav CompleteMapping.dictionary_av []
     = Ok ([], 0)
  /\ CompleteMapping.dict_contains (V := CompleteMapping.match_entry) []
       CompleteMapping.vav_lexeme = false.
Proof.
  split; [| split; [| split]]; vm_compute; reflexivity.
Qed.

(** C9, as the code has it. [remove_matres_lectionis] replaces every maximal
    run of [n] vavs, and then every maximal run of [n] yods, by a run of
    [(n + 1) / 2]: a run of exactly two becomes one letter, a single letter
    stays, longer runs are halved (rounding up); every other character is
    unchanged. *)
Theorem remove_matres_lectionis_halves_runs (text : str) :
  remove_matres_lectionis text = halve_runs text.
Proof. apply remove_matres_lectionis_runs. Qed.

(** C9, as claimed, fails on three vavs: the claim leaves a run of three
    unchanged, the first substitution replaces its first two letters. *)
Lemma remove_matres_lectionis_run_of_three :
  remove_matres_lectionis [vav; vav; vav] = [vav; vav]
  /\ collapse_exact_pairs [vav; vav; vav] = [vav; vav; vav]
  /\ remove_matres_lectionis [vav; vav; vav]
     <> collapse_exact_pairs [vav; vav; vav].
Proof.
  split; [reflexivity | split; [reflexivity | discriminate]].
Qed.

(** C10. Two distinct non-empty strings without any Hebrew letter both
    normalise to the empty string, so [compare_hebrew] returns exactly [0.9]:
    the consonantal tier fires on the two equal empty forms before the fuzzy
    tier.  Consequently, whenever the normalised forms differ, [max_len] is
    not zero: the guard [max_len == 0] of the fuzzy tier is never taken. *)
Theorem compare_hebrew_no_letters (category : codepoint -> string)
        (text1 text2 : option str) (fuzzy : bool) :
  (Py.not_ text1 = false -> Py.not_ text2 = false -> text1 <> text2 ->
   is_hebrew_text text1 = false -> is_hebrew_text text2 = false ->
   normalize_hebrew category text1 = []
   /\ normalize_hebrew category text2 = []
   /\ compare_hebrew_default category text1 text2 fuzzy = Ok 0.9%Q)
  /\ (normalize_hebrew category text1 <> normalize_hebrew category text2 ->
      Nat.max (length (normalize_hebrew category text1))
              (length (normalize_hebrew category text2)) <> 0).
Proof.
  split.
  - intros H1 H2 Hne Hh1 Hh2.
    pose proof (normalize_no_letters category text1 Hh1) as E1.
    pose proof (normalize_no_letters category text2 Hh2) as E2.
    split; [exact E1 | split; [exact E2 |]].
    apply consonantal_tier; try assumption. now rewrite E1, E2.
  - intros Hne Hmax. apply Hne.
    destruct (normalize_hebrew category text1),
      (normalize_hebrew category text2);
      simpl in Hmax; try discriminate; reflexivity.
Qed.

Lemma compare_hebrew_no_letters_witness :
  compare_hebrew_default hebrew_block_category (Some latin_ab) (Some latin_cd)
    true = Ok 0.9%Q.
Proof.
  apply (proj1 (compare_hebrew_no_letters hebrew_block_category
                  (Some latin_ab) (Some latin_cd) true));
    [reflexivity | reflexivity | discriminate | reflexivity | reflexivity].
Defined.

(** * Further properties of the sources *)

(** ** Edit distance as a metric *)

Lemma aligned_zero (a b : str) (n : nat) : aligned a b n -> n = 0 -> a = b.
Proof.
  induction 1 as [|x a b n _ IH|y a b n _ IH|x y a b n _ IH]; intro Hn;
    try reflexivity; try discriminate.
  unfold neq_int in Hn. destruct (N.eqb_spec x y) as [->|]; [| lia].
  rewrite IH by lia. reflexivity.
Qed.

Lemma aligned_lengths (a b : str) (n : nat) :
  aligned a b n -> length a <= length b + n /\ length b <= length a + n.
Proof.
  induction 1 as [|x a b n _ IH|y a b n _ IH|x y a b n _ IH];
    cbn [length]; lia.
Qed.

Lemma lev_zero (a b : str) : lev a b = 0 -> a = b.
Proof. intro H. apply (aligned_zero (lev_aligned a b) H). Qed.

Lemma lev_lengths (a b : str) :
  length a <= length b + lev a b /\ length b <= length a + lev a b.
Proof. apply aligned_lengths, lev_aligned. Qed.

(** X1. [levenshtein_distance] is symmetric, and the distance is zero only
    between equal strings. *)
Theorem levenshtein_distance_symmetric_separating (a b : str) :
  exists d,
    levenshtein_distance a b = Ok d
    /\ levenshtein_distance b a = Ok d
    /\ (d = 0 <-> a = b).
Proof.
  exists (lev a b). rewrite !levenshtein_distance_lev.
  split; [reflexivity |]. split; [now rewrite (lev_sym b a) |].
  split; [apply lev_zero | intros ->; apply lev_refl].
Qed.

(** X2. The distance is at least the difference of the two lengths and at
    most the longer length. *)
Theorem levenshtein_distance_bounds (a b : str) :
  exists d,
    levenshtein_distance a b = Ok d
    /\ length a - length b <= d
    /\ length b - length a <= d
    /\ d <= Nat.max (length a) (length b).
Proof.
  exists (lev a b). rewrite levenshtein_distance_lev.
  pose proof (lev_lengths a b). pose proof (lev_le_max a b).
  split; [reflexivity |]. lia.
Qed.

(** X3. The distance between two concatenations is at most the sum of the
    distances between the parts; in particular a common prefix or suffix
    never adds to the distance. *)
Theorem levenshtein_distance_concat (a a' b b' : str) :
  exists d d1 d2,
    levenshtein_distance (a ++ a') (b ++ b') = Ok d
    /\ levenshtein_distance a b = Ok d1
    /\ levenshtein_distance a' b' = Ok d2
    /\ d <= d1 + d2.
Proof.
  exists (lev (a ++ a') (b ++ b')), (lev a b), (lev a' b').
  rewrite !levenshtein_distance_lev. repeat split.
  apply aligned_lev, aligned_app; apply lev_aligned.
Qed.

(** ** More on the normal form *)

Lemma is_kept_letter (category : codepoint -> string) (c : codepoint) :
  is_hebrew_letter c = true ->
  is_kept category c = negb (String.eqb (category c) "Mn").
Proof.
  intro Hl. unfold is_kept. destruct (letter_not_point c Hl) as [-> ->].
  now rewrite !andb_true_r.
Qed.

Lemma normalize_hebrew_some_spec (category : codepoint -> string) (s : str) :
  normalize_hebrew category (Some s)
  = filter is_hebrew_letter (map to_regular (filter (is_kept category) s)).
Proof. apply normalize_hebrew_spec. Qed.

(** X4. Normalisation works character by character: the normal form of a
    concatenation is the concatenation of the normal forms, and a normal
    form is never longer than its input. *)
Theorem normalize_hebrew_concat (category : codepoint -> string) (a b : str) :
  normalize_hebrew category (Some (a ++ b))
  = normalize_hebrew category (Some a) ++ normalize_hebrew category (Some b)
  /\ length (normalize_hebrew category (Some a)) <= length a.
Proof.
  rewrite !normalize_hebrew_some_spec. split.
  - now rewrite filter_app, map_app, filter_app.
  - etransitivity; [apply filter_length_le |].
    rewrite length_map. apply filter_length_le.
Qed.

(** X5. A character that is a nonspacing mark, lies in one of the point
    ranges, or is not a Hebrew letter can be inserted or deleted anywhere
    without changing the normal form. *)
Theorem normalize_hebrew_ignores (category : codepoint -> string)
        (a b : str) (p : codepoint) :
  category p = "Mn"%string
  \/ existsb (py_in p) HEBREW_POINTS_EXTENDED = true
  \/ is_hebrew_letter p = false ->
  normalize_hebrew category (Some (a ++ p :: b))
  = normalize_hebrew category (Some (a ++ b)).
Proof.
  intro Hp. rewrite !normalize_hebrew_some_spec.
  rewrite !filter_app, !map_app, !filter_app. f_equal.
  cbn [filter]. destruct (is_kept category p) eqn:Hk; [| reflexivity].
  cbn [map filter]. rewrite to_regular_letter.
  destruct Hp as [Hmn | [Hpt | Hl]].
  - unfold is_kept in Hk. rewrite Hmn in Hk. discriminate.
  - unfold is_kept in Hk. rewrite Hpt, andb_false_r in Hk. discriminate.
  - now rewrite Hl.
Qed.

Lemma normalize_hebrew_ignores_witness :
  normalize_hebrew hebrew_block_category
    (Some ([0x05DE; 0x05B6] ++ 0x05B0 :: [0x05DC; 0x05DA])%N)
  = normalize_hebrew hebrew_block_category
      (Some ([0x05DE; 0x05B6] ++ [0x05DC; 0x05DA])%N).
Proof.
  apply normalize_hebrew_ignores. left. reflexivity.
Defined.

(** X6. Final forms are free variants: if the Unicode database classifies
    no Hebrew letter as a nonspacing mark, replacing final forms by their
    base letters (anywhere in the text) does not change the normal form. *)
Theorem normalize_hebrew_final_forms (category : codepoint -> string)
        (s : str) :
  (forall c, is_hebrew_letter c = true -> category c <> "Mn"%string) ->
  normalize_hebrew category (Some (map to_regular s))
  = normalize_hebrew category (Some s).
Proof.
  intro Hcat. rewrite !normalize_hebrew_some_spec.
  induction s as [|c s IH]; [reflexivity |].
  cbn [map filter].
  assert (Hreg : to_regular (to_regular c) = to_regular c)
    by (apply to_regular_fixed, to_regular_not_final).
  destruct (is_hebrew_letter c) eqn:Hl.
  - assert (Hl' : is_hebrew_letter (to_regular c) = true)
      by (now rewrite to_regular_letter).
    rewrite (is_kept_letter category _ Hl'), (is_kept_letter category _ Hl).
    pose proof (Hcat _ Hl) as H1. pose proof (Hcat _ Hl') as H2.
    apply String.eqb_neq in H1, H2. rewrite H1, H2. cbn [negb map filter].
    now rewrite Hreg, Hl', IH.
  - assert (Hc : to_regular c = c).
    { apply to_regular_fixed. unfold is_final_form. cbn [existsb].
      unfold is_hebrew_letter in Hl.
      n_tests; cbn [andb orb] in *; try discriminate; reflexivity. }
    rewrite Hc. destruct (is_kept category c); [| exact IH].
    cbn [map filter]. now rewrite Hc, Hl, IH.
Qed.

Lemma hebrew_block_letters_not_marks (c : codepoint) :
  is_hebrew_letter c = true -> hebrew_block_category c <> "Mn"%string.
Proof.
  unfold is_hebrew_letter, hebrew_block_category.
  n_tests; cbn [andb orb]; try discriminate; lia.
Qed.

Lemma normalize_hebrew_final_forms_witness :
  normalize_hebrew hebrew_block_category (Some (map to_regular melekh_pointed))
  = normalize_hebrew hebrew_block_category (Some melekh_pointed).
Proof.
  apply normalize_hebrew_final_forms. exact hebrew_block_letters_not_marks.
Defined.

(** X7. [is_hebrew_text] and the normal form: a text with a non-empty normal
    form contains a Hebrew letter, and conversely when the Unicode database
    classifies no Hebrew letter as a nonspacing mark. *)
Theorem is_hebrew_text_normal_form (category : codepoint -> string)
        (text : option str) :
  (normalize_hebrew category text <> [] -> is_hebrew_text text = true)
  /\ ((forall c, is_hebrew_letter c = true -> category c <> "Mn"%string) ->
      is_hebrew_text text = true -> normalize_hebrew category text <> []).
Proof.
  split.
  - intro Hne. destruct (is_hebrew_text text) eqn:E; [reflexivity |].
    exfalso. apply Hne. now apply normalize_no_letters.
  - intros Hcat Ht. unfold is_hebrew_text in Ht.
    destruct (Py.not_ text); [discriminate |].
    apply existsb_exists in Ht. destruct Ht as [c [Hin Hl]].
    rewrite normalize_hebrew_spec. intro Hnil.
    assert (Hc : In (to_regular c)
                   (filter is_hebrew_letter
                      (map to_regular (filter (is_kept category) (Py.chars text))))).
    { apply filter_In. split; [| now rewrite to_regular_letter].
      apply in_map, filter_In. split; [exact Hin |].
      rewrite (is_kept_letter category _ Hl).
      pose proof (Hcat _ Hl) as H. apply String.eqb_neq in H. now rewrite H. }
    rewrite Hnil in Hc. contradiction.
Qed.

Lemma is_hebrew_text_normal_form_witness :
  normalize_hebrew hebrew_block_category (Some melekh_pointed) <> [].
Proof.
  apply (proj2 (is_hebrew_text_normal_form hebrew_block_category
                  (Some melekh_pointed)));
    [exact hebrew_block_letters_not_marks | reflexivity].
Defined.

(** ** More on the doubled vowel letters *)

Section DoubledLettersMore.

Variable c : codepoint.

Lemma has_double_cons (x y : codepoint) (t : str) :
  has_double c (x :: y :: t)
  = ((x =? c)%N && (y =? c)%N) || has_double c (y :: t).
Proof. reflexivity. Qed.

Lemma sub_no_double (s : str) :
  has_double c s = false -> Py.re_sub [c; c] [c] s = s.
Proof.
  induction s as [|x t IH]; [reflexivity |].
  destruct (N.eqb_spec x c) as [->|Hx].
  - destruct t as [|y t']; [intros _; apply sub_single_end |].
    rewrite has_double_cons, N.eqb_refl. cbn [andb].
    destruct (N.eqb_spec y c) as [->|Hy]; [discriminate |].
    cbn [orb]. intro H. rewrite sub_single by exact Hy.
    now rewrite (IH H).
  - intro H. rewrite sub_other by exact Hx. f_equal. apply IH.
    destruct t as [|y t']; [reflexivity |].
    rewrite has_double_cons in H. apply orb_false_elim in H. tauto.
Qed.

(** One substitution never lengthens, shortens a string that has a doubled
    letter, and keeps the same characters. *)
Lemma sub_shape (n : nat) :
  forall s, length s <= n ->
  length (Py.re_sub [c; c] [c] s) <= length s
  /\ (has_double c s = true -> length (Py.re_sub [c; c] [c] s) < length s)
  /\ (forall x, In x (Py.re_sub [c; c] [c] s) <-> In x s).
Proof.
  induction n as [|n IH]; intros s Hn.
  - destruct s; [| cbn [length] in Hn; lia].
    repeat split; try discriminate; auto.
  - destruct s as [|x t]; [repeat split; try discriminate; auto |].
    cbn [length] in Hn.
    destruct (N.eqb_spec x c) as [->|Hx].
    + destruct t as [|y t'].
      * rewrite sub_single_end. repeat split; try discriminate; auto.
      * destruct (N.eqb_spec y c) as [->|Hy].
        -- rewrite sub_pair. cbn [length] in *.
           destruct (IH t' ltac:(lia)) as [Hle [_ Hin]].
           split; [lia |]. split; [intros _; lia |].
           intro z. cbn [In]. rewrite Hin. tauto.
        -- rewrite sub_single by exact Hy.
           destruct (IH (y :: t') ltac:(lia)) as [Hle [Hlt Hin]].
           cbn [length] in *. split; [lia |]. split.
           ++ rewrite has_double_cons, N.eqb_refl.
              destruct (N.eqb_spec y c) as [Heq|_]; [contradiction |].
              cbn [andb orb]. intro H. specialize (Hlt H). lia.
           ++ intro z. cbn [In] in *. rewrite Hin. tauto.
    + rewrite sub_other by exact Hx.
      destruct (IH t ltac:(lia)) as [Hle [Hlt Hin]].
      cbn [length]. split; [lia |]. split.
      * destruct t as [|y t']; [discriminate |].
        rewrite has_double_cons.
        destruct (N.eqb_spec x c) as [Heq|_]; [contradiction |].
        cbn [andb orb]. intro H. specialize (Hlt H). cbn [length] in *. lia.
      * intro z. cbn [In]. rewrite Hin. tauto.
Qed.

End DoubledLettersMore.

Lemma double_div2 (n : nat) :
  n <= 2 * Nat.div2 (S n) /\ S n <= 2 * Nat.div2 (S (S n)).
Proof.
  induction n as [|n [IH1 IH2]]; [split; cbn; auto |].
  split; [exact IH2 |].
  change (Nat.div2 (S (S (S n)))) with (S (Nat.div2 (S n))).
  rewrite Nat.mul_succ_r, Nat.add_comm. cbn [Nat.add].
  apply le_n_S, le_n_S. exact IH1.
Qed.

Lemma halve_runs_length (rs : list (codepoint * nat)) :
  length (unruns rs)
  <= 2 * length (unruns (map (fun '(c, n) =>
                                if is_vowel_letter c
                                then (c, Nat.div2 (S n)) else (c, n)) rs)).
Proof.
  induction rs as [|[c n] rs IH]; [cbn; auto |].
  cbn [map]. unfold unruns in *. cbn [flat_map].
  destruct (is_vowel_letter c); rewrite !length_app, !repeat_length.
  - pose proof (proj1 (double_div2 n)) as Hn.
    rewrite Nat.mul_add_distr_l.
    apply Nat.add_le_mono; [exact Hn | exact IH].
  - rewrite Nat.mul_add_distr_l. apply Nat.add_le_mono; [| exact IH].
    rewrite <- (Nat.mul_1_l n) at 1. apply Nat.mul_le_mono_r. auto.
Qed.

(** X8. [remove_matres_lectionis] never lengthens a string, keeps at least
    half of its characters, and keeps exactly the same set of characters:
    no letter disappears altogether, none appears. *)
Theorem remove_matres_lectionis_shape (text : str) :
  length (remove_matres_lectionis text) <= length text
  /\ length text <= 2 * length (remove_matres_lectionis text)
  /\ (forall x, In x (remove_matres_lectionis text) <-> In x text).
Proof.
  split; [| split].
  - unfold remove_matres_lectionis.
    pose proof (@sub_shape vav _ text (le_n _)) as [H1 _].
    pose proof (@sub_shape yod _ (Py.re_sub [vav; vav] [vav] text) (le_n _))
      as [H2 _].
    etransitivity; [exact H2 | exact H1].
  - rewrite remove_matres_lectionis_runs. unfold halve_runs.
    rewrite <- (unruns_runs text) at 1. apply halve_runs_length.
  - intro x. unfold remove_matres_lectionis.
    pose proof (@sub_shape vav _ text (le_n _)) as [_ [_ H1]].
    pose proof (@sub_shape yod _ (Py.re_sub [vav; vav] [vav] text) (le_n _))
      as [_ [_ H2]].
    rewrite H2. apply H1.
Qed.

(** X9. [remove_matres_lectionis] leaves a string unchanged exactly when it
    has no two adjacent vavs and no two adjacent yods. *)
Theorem remove_matres_lectionis_fixed (text : str) :
  remove_matres_lectionis text = text
  <-> has_double vav text = false /\ has_double yod text = false.
Proof.
  unfold remove_matres_lectionis. split.
  - intro Heq.
    pose proof (@sub_shape vav _ text (le_n _)) as [Hle1 [Hlt1 _]].
    pose proof (@sub_shape yod _ (Py.re_sub [vav; vav] [vav] text) (le_n _))
      as [Hle2 [Hlt2 _]].
    assert (Hlen : length (Py.re_sub [yod; yod] [yod]
                             (Py.re_sub [vav; vav] [vav] text)) = length text)
      by (now rewrite Heq).
    destruct (has_double vav text) eqn:Ev.
    + specialize (Hlt1 eq_refl). lia.
    + split; [reflexivity |].
      rewrite (sub_no_double vav text Ev) in Hlt2, Hlen.
      destruct (has_double yod text); [specialize (Hlt2 eq_refl); lia | reflexivity].
  - intros [Hv Hy]. rewrite (sub_no_double vav text Hv).
    apply sub_no_double, Hy.
Qed.

(** ** The values of the score *)

Section ScoreValues.

Variable category : codepoint -> string.

Lemma similarity_below_one (norm1 norm2 : str) :
  norm1 <> norm2 ->
  (0 <= similarity_of (lev norm1 norm2) norm1 norm2 * 0.7 < 0.7)%Q.
Proof.
  intro Hne. pose proof (similarity_range Hne) as [H0 _].
  unfold similarity_of in *.
  assert (Hd : lev norm1 norm2 <> 0) by (intro H; apply Hne, lev_zero, H).
  set (d := lev norm1 norm2) in *.
  set (m := Nat.max (length norm1) (length norm2)) in *.
  assert (Hpos : (0 < Z.of_nat d # Pos.of_nat m)%Q)
    by (unfold Qlt; simpl; lia).
  split; lra.
Qed.

(** The tier that answers, with its conditions. *)
Lemma compare_hebrew_cases (text1 text2 : option str) (fuzzy : bool) :
  exists v,
    compare_hebrew_default category text1 text2 fuzzy = Ok v
    /\ (((Py.not_ text1 = true \/ Py.not_ text2 = true) /\ v = 0.0%Q)
        \/ (Py.not_ text1 = false /\ Py.not_ text2 = false
            /\ ((text1 = text2 /\ v = 1.0%Q)
                \/ (text1 <> text2
                    /\ ((normalize_hebrew category text1
                         = normalize_hebrew category text2 /\ v = 0.9%Q)
                        \/ (normalize_hebrew category text1
                            <> normalize_hebrew category text2
                            /\ ((fuzzy = false /\ v = 0.0%Q)
                                \/ (fuzzy = true
                                    /\ (v = 0.85%Q
                                        \/ (0 <= v < 0.7)%Q))))))))).
Proof.
  unfold compare_hebrew_default. rewrite compare_hebrew_value.
  eexists. split; [reflexivity |].
  destruct (Py.not_ text1) eqn:E1; [left; split; [now left | reflexivity] |].
  destruct (Py.not_ text2) eqn:E2; [left; split; [now right | reflexivity] |].
  right. split; [reflexivity |]. split; [reflexivity |]. cbn [orb].
  destruct (Py.eqb text1 text2) eqn:E.
  { left. apply py_eqb_eq in E. now split. }
  right. split.
  { intro H. apply py_eqb_eq in H. congruence. }
  cbv zeta.
  destruct (Py.str_eqb _ _) eqn:En.
  { left. apply str_eqb_eq in En. now split. }
  right. apply str_eqb_neq in En. split; [exact En |].
  destruct fuzzy; cbn [negb]; [right | left; now split].
  split; [reflexivity |].
  destruct (_ && _); [now left | right].
  now apply similarity_below_one.
Qed.

(** A normal form is a fixed point of the normalisation, when the five
    letters that replace final forms are not nonspacing marks. *)
Lemma normal_form_fixed (x : option str) :
  (forall c, In c [kaf; mem; nun; pe; tsadi] -> category c <> "Mn"%string) ->
  normalize_hebrew category (Some (normalize_hebrew category x))
  = normalize_hebrew category x.
Proof.
  intro Hcat.
  pose proof (normalize_hebrew_letters category x) as Hall.
  pose proof (normalize_hebrew_sources category x) as Hsrc.
  rewrite Forall_forall in Hall, Hsrc.
  rewrite (normalize_hebrew_spec category (Some _)). cbn [Py.chars].
  set (y := normalize_hebrew category x) in *.
  rewrite (filter_all (is_kept category) (l := y)).
  - rewrite (map_fixed to_regular (l := y)).
    + apply filter_all, Forall_forall. intros c Hc. now apply Hall.
    + apply Forall_forall. intros c Hc. apply to_regular_fixed. now apply Hall.
  - apply Forall_forall. intros c Hc.
    destruct (Hsrc c Hc) as [Hk | Hr]; [exact Hk |].
    rewrite is_kept_letter by (now apply Hall).
    specialize (Hcat c Hr). apply String.eqb_neq in Hcat. now rewrite Hcat.
Qed.

End ScoreValues.

(** X10. With the default weights the score is [1.0], [0.9] or [0.0], or,
    with [fuzzy=True] only, [0.85] or a value below [0.7]: an edit-distance
    score never reaches the two matching tiers or the spelling-variant
    score. *)
Theorem compare_hebrew_score_values (category : codepoint -> string)
        (text1 text2 : option str) (fuzzy : bool) :
  exists v,
    compare_hebrew_default category text1 text2 fuzzy = Ok v
    /\ (v = 1.0%Q \/ v = 0.9%Q \/ v = 0.0%Q
        \/ (fuzzy = true /\ (v = 0.85%Q \/ (0 <= v < 0.7)%Q))).
Proof.
  destruct (compare_hebrew_cases category text1 text2 fuzzy) as [v [Hv Hc]].
  exists v. split; [exact Hv |]. intuition.
Qed.

(** X11. What the thresholds mean: the score is at least [0.9] exactly when
    both texts are non-empty and have the same normal form, and above [0.9]
    exactly when both are non-empty and identical. *)
Theorem compare_hebrew_thresholds (category : codepoint -> string)
        (text1 text2 : option str) (fuzzy : bool) :
  exists v,
    compare_hebrew_default category text1 text2 fuzzy = Ok v
    /\ ((0.9 <= v)%Q
        <-> Py.not_ text1 = false /\ Py.not_ text2 = false
            /\ normalize_hebrew category text1
               = normalize_hebrew category text2)
    /\ ((0.9 < v)%Q
        <-> Py.not_ text1 = false /\ Py.not_ text2 = false
            /\ text1 = text2).
Proof.
  destruct (compare_hebrew_cases category text1 text2 fuzzy) as [v [Hv Hc]].
  exists v. split; [exact Hv |].
  destruct Hc as [[Hempty ->] | [H1 [H2 Hc]]].
  { split; (split; [intro H; exfalso; revert H; unfold Qle, Qlt; simpl; lia |]);
      intros [E1 [E2 _]]; destruct Hempty; congruence. }
  destruct Hc as [[Heq ->] | [Hne Hc]].
  { subst text2.
    split; (split; [intros _; now repeat split
                   | intros _; unfold Qle, Qlt; simpl; lia]). }
  destruct Hc as [[Hn ->] | [Hn Hc]].
  { split; split.
    - intros _. now repeat split.
    - intros _. unfold Qle; simpl; lia.
    - unfold Qlt; simpl; lia.
    - intros [_ [_ H]]. contradiction. }
  assert (Hlow : (v < 0.9)%Q).
  { destruct Hc as [[_ ->] | [_ [-> | Hv7]]];
      [unfold Qlt; simpl; lia | unfold Qlt; simpl; lia | lra]. }
  split; split.
  - intro H. lra.
  - intros [_ [_ H]]. contradiction.
  - intro H. lra.
  - intros [_ [_ H]]. contradiction.
Qed.

(** X12. On two normal forms, as every caller passes them, the consonantal
    tier never answers: the score is [1.0] when the two forms are equal and
    non-empty and below [0.9] otherwise. *)
Theorem compare_hebrew_on_normal_forms (category : codepoint -> string)
        (a b : option str) (fuzzy : bool) :
  (forall c, In c [kaf; mem; nun; pe; tsadi] -> category c <> "Mn"%string) ->
  let norm_a := normalize_hebrew category a in
  let norm_b := normalize_hebrew category b in
  exists v,
    compare_hebrew_default category (Some norm_a) (Some norm_b) fuzzy = Ok v
    /\ ((norm_a = norm_b /\ norm_a <> [] /\ v = 1.0%Q)
        \/ ((norm_a <> norm_b \/ norm_a = [] \/ norm_b = []) /\ (v < 0.9)%Q)).
Proof.
  intros Hcat norm_a norm_b.
  destruct (compare_hebrew_cases category (Some norm_a) (Some norm_b) fuzzy)
    as [v [Hv Hc]].
  exists v. split; [exact Hv |].
  assert (H09 : (0.0 < 0.9)%Q) by (unfold Qlt; simpl; lia).
  assert (H85 : (0.85 < 0.9)%Q) by (unfold Qlt; simpl; lia).
  destruct Hc as [[Hempty ->] | [H1 [H2 Hc]]].
  { right. split; [| exact H09].
    right. destruct Hempty as [H | H]; [left | right];
      [destruct norm_a | destruct norm_b]; try reflexivity; discriminate. }
  destruct Hc as [[Heq ->] | [Hne Hc]].
  { left. injection Heq as Heq. split; [exact Heq |]. split; [| reflexivity].
    intro H. rewrite H in H1. discriminate. }
  assert (Hab : norm_a <> norm_b) by congruence.
  right. split; [now left |].
  unfold norm_a, norm_b in Hc.
  rewrite !(normal_form_fixed category _ Hcat) in Hc.
  fold norm_a norm_b in Hc.
  destruct Hc as [[Hn _] | [_ [[_ ->] | [_ [-> | Hv7]]]]];
    [contradiction | exact H09 | exact H85 | lra].
Qed.

Lemma compare_hebrew_on_normal_forms_witness :
  exists v,
    compare_hebrew_default hebrew_block_category
      (Some (normalize_hebrew hebrew_block_category (Some melekh_pointed)))
      (Some (normalize_hebrew hebrew_block_category (Some melekh_plain)))
      true = Ok v
    /\ v = 1.0%Q.
Proof.
  destruct (@compare_hebrew_on_normal_forms hebrew_block_category
              (Some melekh_pointed) (Some melekh_plain) true
              hebrew_block_regular_not_marks) as [v [Hv Hc]].
  exists v. split; [exact Hv |].
  destruct Hc as [[_ [_ H]] | [[H | [H | H]] _]];
    [exact H | exfalso; apply H; reflexivity | discriminate | discriminate].
Defined.

(** ** The statistics of a text *)

Section Statistics.

Variable category : codepoint -> string.

Lemma str_eqb_single (a b : codepoint) : Py.str_eqb [a] [b] = (a =? b)%N.
Proof.
  destruct (N.eqb_spec a b) as [->|H]; [apply str_eqb_refl |].
  apply str_eqb_neq. congruence.
Qed.

Lemma in_FINAL_FORMS_final (c : codepoint) :
  HebrewStats.in_FINAL_FORMS c = is_final_form c.
Proof.
  unfold HebrewStats.in_FINAL_FORMS, is_final_form, FINAL_FORMS.
  cbn [existsb]. now rewrite !str_eqb_single.
Qed.

Lemma final_form_letter (c : codepoint) :
  is_final_form c = true -> is_hebrew_letter c = true.
Proof.
  unfold is_final_form. cbn [existsb]. intro H.
  repeat (apply orb_prop in H; destruct H as [H | H]);
    try discriminate; apply N.eqb_eq in H; subst c; reflexivity.
Qed.

(** The loop of [get_hebrew_stats] from any state. *)
Lemma stats_loop (text : str) :
  forall st,
  let r := fold_left (HebrewStats.stats_step category) text st in
  HebrewStats.consonants r
  = HebrewStats.consonants st + length (filter is_hebrew_letter text)
  /\ HebrewStats.final_forms r
     = HebrewStats.final_forms st + length (filter is_final_form text)
  /\ HebrewStats.vowel_points r
     = HebrewStats.vowel_points st
       + length (filter (fun c => String.eqb (category c) "Mn") text)
  /\ HebrewStats.has_niqqud r
     = HebrewStats.has_niqqud st
       || existsb (fun c => String.eqb (category c) "Mn") text
  /\ HebrewStats.length r = HebrewStats.length st.
Proof.
  induction text as [|c text IH]; intro st; cbn [fold_left filter existsb length].
  - rewrite !Nat.add_0_r, orb_false_r. repeat split.
  - specialize (IH (HebrewStats.stats_step category st c)).
    cbv zeta in IH. destruct IH as [H1 [H2 [H3 [H4 H5]]]].
    rewrite H1, H2, H3, H4, H5. clear H1 H2 H3 H4 H5.
    unfold HebrewStats.stats_step. rewrite in_FINAL_FORMS_final.
    fold (is_hebrew_letter c).
    destruct (is_final_form c) eqn:Ef.
    + rewrite (final_form_letter c Ef).
      destruct (String.eqb (category c) "Mn"); cbn -[Nat.add];
        rewrite ?orb_true_r; repeat split; lia.
    + destruct (is_hebrew_letter c);
        destruct (String.eqb (category c) "Mn"); cbn -[Nat.add];
        rewrite ?orb_true_r; repeat split; lia.
Qed.

Lemma count_le_two (f g : codepoint -> bool) (l : str) :
  (forall c, f c = true -> g c = false) ->
  length (filter f l) + length (filter g l) <= length l.
Proof.
  intro H. induction l as [|c l IH]; [auto |].
  cbn [filter length]. destruct (f c) eqn:Ef.
  - rewrite (H c Ef). cbn [length]. lia.
  - destruct (g c); cbn [length]; lia.
Qed.

Lemma normal_form_length (l : str) :
  length (filter is_hebrew_letter (map to_regular (filter (is_kept category) l)))
  = length (filter (fun c => is_kept category c && is_hebrew_letter c) l).
Proof.
  induction l as [|c l IH]; [reflexivity |].
  cbn [filter]. destruct (is_kept category c); cbn [andb map filter]; [| exact IH].
  rewrite to_regular_letter. destruct (is_hebrew_letter c); cbn [length]; lia.
Qed.

Lemma filter_length_mono (f g : codepoint -> bool) (l : str) :
  (forall c, f c = true -> g c = true) ->
  length (filter f l) <= length (filter g l).
Proof.
  intro H. induction l as [|c l IH]; [auto |].
  cbn [filter]. destruct (f c) eqn:Ef.
  - rewrite (H c Ef). cbn [length]. lia.
  - destruct (g c); cbn [length]; lia.
Qed.

End Statistics.

(** X13. [get_hebrew_stats] on a string: [length] is the length of the text,
    [consonants] counts the code points in U+05D0-U+05EA, [final_forms]
    counts the five final forms, [vowel_points] counts the characters of
    category [Mn]; the final forms are among the consonants, no count
    exceeds the length, and [has_niqqud] is set exactly when [vowel_points]
    is not zero. *)
Theorem get_hebrew_stats_counts (category : codepoint -> string) (text : str) :
  let st := HebrewStats.get_hebrew_stats category text in
  HebrewStats.length st = length text
  /\ HebrewStats.consonants st = length (filter is_hebrew_letter text)
  /\ HebrewStats.final_forms st
     = length (filter (fun c => existsb (N.eqb c)
                                  [0x05DA; 0x05DD; 0x05DF; 0x05E3; 0x05E5]%N)
                      text)
  /\ HebrewStats.vowel_points st
     = length (filter (fun c => String.eqb (category c) "Mn") text)
  /\ HebrewStats.final_forms st <= HebrewStats.consonants st
  /\ HebrewStats.consonants st <= length text
  /\ HebrewStats.vowel_points st <= length text
  /\ (HebrewStats.has_niqqud st = true <-> HebrewStats.vowel_points st <> 0).
Proof.
  unfold HebrewStats.get_hebrew_stats. cbv zeta.
  destruct (stats_loop category text
              {| HebrewStats.consonants := 0; HebrewStats.vowel_points := 0;
                 HebrewStats.final_forms := 0; HebrewStats.has_niqqud := false;
                 HebrewStats.length := length text |})
    as [H1 [H2 [H3 [H4 H5]]]].
  cbv zeta in *. rewrite H1, H2, H3, H4, H5. cbn [HebrewStats.consonants
    HebrewStats.final_forms HebrewStats.vowel_points HebrewStats.has_niqqud
    HebrewStats.length Nat.add orb].
  split; [reflexivity |]. split; [reflexivity |].
  split; [reflexivity |]. split; [reflexivity |].
  split; [apply filter_length_mono, final_form_letter |].
  split; [apply filter_length_le |]. split; [apply filter_length_le |].
  clear. induction text as [|c text IH]; cbn [existsb filter].
  - split; [discriminate | intro H; now contradiction H].
  - destruct (String.eqb (category c) "Mn"); cbn [orb length];
      [split; [intros _; discriminate | reflexivity] | exact IH].
Qed.

(** X14. The statistics and the normal form: the normal form of a string is
    never longer than its count of consonants; when the Unicode database
    classifies no Hebrew letter as a nonspacing mark the two are equal, and
    consonants and vowel points together do not exceed the length. *)
Theorem get_hebrew_stats_normal_form (category : codepoint -> string)
        (text : str) :
  let st := HebrewStats.get_hebrew_stats category text in
  length (normalize_hebrew category (Some text)) <= HebrewStats.consonants st
  /\ ((forall c, is_hebrew_letter c = true -> category c <> "Mn"%string) ->
      HebrewStats.consonants st
      = length (normalize_hebrew category (Some text))
      /\ HebrewStats.consonants st + HebrewStats.vowel_points st
         <= length text).
Proof.
  unfold HebrewStats.get_hebrew_stats. cbv zeta.
  destruct (stats_loop category text
              {| HebrewStats.consonants := 0; HebrewStats.vowel_points := 0;
                 HebrewStats.final_forms := 0; HebrewStats.has_niqqud := false;
                 HebrewStats.length := length text |})
    as [H1 [_ [H3 _]]].
  cbv zeta in *. rewrite H1, H3. cbn [HebrewStats.consonants
    HebrewStats.vowel_points Nat.add].
  rewrite normalize_hebrew_some_spec, normal_form_length. split.
  - apply filter_length_mono. intros c H. apply andb_true_iff in H. tauto.
  - intro Hcat. split.
    + apply Nat.le_antisymm.
      * apply filter_length_mono. intros c Hl.
        rewrite (is_kept_letter category _ Hl), Hl.
        pose proof (Hcat c Hl) as H. apply String.eqb_neq in H. now rewrite H.
      * apply filter_length_mono. intros c H. apply andb_true_iff in H. tauto.
    + apply count_le_two. intros c Hl.
      pose proof (Hcat c Hl) as H. now apply String.eqb_neq in H.
Qed.

Lemma get_hebrew_stats_normal_form_witness :
  HebrewStats.consonants
    (HebrewStats.get_hebrew_stats hebrew_block_category melekh_pointed)
  = length (normalize_hebrew hebrew_block_category (Some melekh_pointed)).
Proof.
  apply (proj2 (get_hebrew_stats_normal_form hebrew_block_category
                  melekh_pointed)).
  exact hebrew_block_letters_not_marks.
Defined.

(** ** The Hebrew text of a dictionary entry *)

Lemma alt_fields_loop_first (d : StrongsEntry.entry) (fields : list str) :
  forall hebrew_text category,
  Py.not_ hebrew_text = true ->
  normalize_hebrew category (StrongsEntry.alt_fields_loop d fields hebrew_text)
  = normalize_hebrew category
      (first_non_empty
         (map (fun k => StrongsEntry.dict_get_default d k (Some [])) fields)).
Proof.
  induction fields as [|k fields IH]; intros hebrew_text category Hempty.
  - cbn. unfold normalize_hebrew. now rewrite Hempty.
  - cbn [StrongsEntry.alt_fields_loop map first_non_empty].
    destruct (Py.not_ (StrongsEntry.dict_get_default d k (Some []))) eqn:E;
      cbn [negb]; [now apply IH | reflexivity].
Qed.

Lemma extract_strongs_hebrew_value (category : codepoint -> string)
      (d : StrongsEntry.entry) (field : str) :
  StrongsEntry.extract_strongs_hebrew category (Some d) field
  = normalize_hebrew category
      (first_non_empty
         (map (fun k => StrongsEntry.dict_get_default d k (Some []))
              [field; StrongsEntry.lemma_field; StrongsEntry.hebrew_field;
               StrongsEntry.word_field; StrongsEntry.text_field])).
Proof.
  destruct d as [|kv d]; [reflexivity |].
  unfold StrongsEntry.extract_strongs_hebrew. cbv zeta.
  cbn [map first_non_empty].
  destruct (Py.not_ (StrongsEntry.dict_get_default (kv :: d) field (Some [])))
    eqn:E; [| reflexivity].
  now rewrite alt_fields_loop_first.
Qed.

Lemma extract_strongs_hebrew_normal_form (category : codepoint -> string)
      (strongs_entry : option StrongsEntry.entry) (field : str) :
  exists text,
    StrongsEntry.extract_strongs_hebrew category strongs_entry field
    = normalize_hebrew category text.
Proof.
  destruct strongs_entry as [d|]; [| now exists None].
  eexists. apply extract_strongs_hebrew_value.
Qed.

(** X15. [extract_strongs_hebrew] returns the empty string for [None] and for
    an empty dictionary; otherwise it returns the normal form of the first
    non-empty value among the requested field, [lemma], [hebrew], [word] and
    [text], in this order (the empty string when there is none), and the
    result contains only Hebrew letters. *)
Theorem extract_strongs_hebrew_first_field (category : codepoint -> string)
        (d : StrongsEntry.entry) (field : str) :
  StrongsEntry.extract_strongs_hebrew category None field = []
  /\ StrongsEntry.extract_strongs_hebrew category (Some []) field = []
  /\ StrongsEntry.extract_strongs_hebrew category (Some d) field
     = normalize_hebrew category
         (first_non_empty
            (map (fun k => StrongsEntry.dict_get_default d k (Some []))
                 [field; StrongsEntry.lemma_field; StrongsEntry.hebrew_field;
                  StrongsEntry.word_field; StrongsEntry.text_field]))
  /\ Forall (fun c => is_hebrew_letter c = true)
            (StrongsEntry.extract_strongs_hebrew category (Some d) field).
Proof.
  split; [reflexivity |]. split; [reflexivity |].
  split; [apply extract_strongs_hebrew_value |].
  rewrite extract_strongs_hebrew_value.
  eapply Forall_impl; [| apply normalize_hebrew_letters]. now intros c [H _].
Qed.

(** ** Sorting by decreasing score *)

Section SortDesc.

Variable A : Type.
Variable key : A -> Q.

Lemma insert_desc_perm (x : A) (l : list A) :
  Permutation (PyMore.insert_desc key x l) (x :: l).
Proof.
  induction l as [|y l IH]; cbn [PyMore.insert_desc]; [reflexivity |].
  destruct (Py.ltb (key x) (key y)); [| reflexivity].
  rewrite IH. apply perm_swap.
Qed.

Lemma sort_desc_perm (l : list A) : Permutation (PyMore.sort_desc key l) l.
Proof.
  induction l as [|x l IH]; [reflexivity |].
  unfold PyMore.sort_desc in *. cbn [fold_right].
  rewrite insert_desc_perm. now constructor.
Qed.

Lemma insert_desc_sorted (x : A) (l : list A) :
  StronglySorted (fun a b => (key b <= key a)%Q) l ->
  StronglySorted (fun a b => (key b <= key a)%Q) (PyMore.insert_desc key x l).
Proof.
  induction 1 as [|y l Hs IH Hall]; cbn [PyMore.insert_desc].
  - constructor; constructor.
  - destruct (Py.ltb (key x) (key y)) eqn:E.
    + apply py_ltb_lt in E. constructor; [exact IH |].
      apply (Permutation_Forall (Permutation_sym (insert_desc_perm x l))).
      constructor; [now apply Qlt_le_weak | exact Hall].
    + assert (Hle : (key y <= key x)%Q).
      { apply Qnot_lt_le. intro H. apply py_ltb_lt in H. congruence. }
      constructor; [constructor; assumption |].
      constructor; [exact Hle |].
      eapply Forall_impl; [| exact Hall].
      intros z Hz. cbv beta in *. eapply Qle_trans; eassumption.
Qed.

Lemma sort_desc_sorted (l : list A) :
  StronglySorted (fun a b => (key b <= key a)%Q) (PyMore.sort_desc key l).
Proof.
  induction l as [|x l IH]; [constructor |].
  unfold PyMore.sort_desc in *. cbn [fold_right]. now apply insert_desc_sorted.
Qed.

End SortDesc.

Lemma strongly_sorted_firstn {A} (R : A -> A -> Prop) (n : nat) (l : list A) :
  StronglySorted R l -> StronglySorted R (firstn n l).
Proof.
  intro H. revert n. induction H as [|x l Hs IH Hall]; intro n.
  - rewrite firstn_nil. constructor.
  - destruct n as [|n]; [constructor |]. cbn [firstn].
    constructor; [apply IH |].
    apply Forall_forall. intros y Hy. rewrite Forall_forall in Hall.
    apply Hall. rewrite <- (firstn_skipn n l). apply in_or_app. now left.
Qed.

Lemma forall_firstn {A} (P : A -> Prop) (n : nat) (l : list A) :
  Forall P l -> Forall P (firstn n l).
Proof.
  intro H. apply Forall_forall. intros x Hx. rewrite Forall_forall in H.
  apply H. rewrite <- (firstn_skipn n l). apply in_or_app. now left.
Qed.

(** ** The matches of a dictionary entry *)

Section FindMatches.

Import CompleteMapping.

Variable category : codepoint -> string.

Lemma dict_get_in {V} (d : dict V) (k : str) (v : V) :
  dict_get d k = Some v -> In (k, v) d.
Proof.
  induction d as [|[k0 v0] d IH]; cbn [dict_get]; [discriminate |].
  destruct (Py.str_eqb k k0) eqn:E.
  - apply str_eqb_eq in E. intro H. injection H as ->. subst. now left.
  - intro H. right. now apply IH.
Qed.

Lemma round_half_even_floor (x : Q) : (Qfloor x <= round_half_even x)%Z.
Proof.
  unfold round_half_even. cbv zeta.
  destruct (Qcompare _ _); [destruct (Z.even _) | |]; lia.
Qed.

Lemma round3_ge (v : Q) : (0.7 <= v)%Q -> (0.7 <= round3 v)%Q.
Proof.
  intro H. unfold round3.
  assert (Hf : (700 <= Qfloor (v * 1000))%Z).
  { rewrite <- (Qfloor_Z 700). apply Qfloor_resp_le.
    change (inject_Z 700) with 700%Q. lra. }
  pose proof (round_half_even_floor (v * 1000)).
  unfold Qle. simpl. lia.
Qed.

(** The loop over the lexemes of a bucket never raises and only appends. *)
Lemma match_loop (strongs_hebrew : str) (bhsa_list : list BuildMapping.Lexeme.t) :
  forall matches,
  exists added,
    for_each (BuildMapping.match_step category strongs_hebrew) bhsa_list matches
    = Ok (matches ++ added)
    /\ Forall (fun m =>
                 exists bhsa_lex score,
                   In bhsa_lex bhsa_list
                   /\ compare_hebrew_default category (Some strongs_hebrew)
                        (Some (BuildMapping.Lexeme.normalized bhsa_lex)) true
                      = Ok score
                   /\ (0.7 <= score)%Q
                   /\ m = BuildMapping.match_of bhsa_lex score) added.
Proof.
  induction bhsa_list as [|lex bhsa_list IH]; intro matches.
  - exists []. rewrite app_nil_r. split; [reflexivity | constructor].
  - cbn [for_each]. unfold BuildMapping.match_step at 1.
    destruct (compare_hebrew_cases category (Some strongs_hebrew)
                (Some (BuildMapping.Lexeme.normalized lex)) true) as [v [Hv _]].
    rewrite Hv. cbn [bind]. unfold PyMore.geb.
    destruct (Qle_bool 0.7 v) eqn:E; cbn [bind].
    + destruct (IH (matches ++ [BuildMapping.match_of lex v]))
        as [added [Hrun Hall]].
      exists (BuildMapping.match_of lex v :: added).
      split; [now rewrite Hrun, <- app_assoc |].
      constructor.
      * exists lex, v. apply Qle_bool_iff in E. repeat split; auto. now left.
      * eapply Forall_impl; [| exact Hall].
        intros m [l' [v' [Hin Hrest]]]. exists l', v'. split; [now right | exact Hrest].
    + destruct (IH matches) as [added [Hrun Hall]].
      exists added. split; [exact Hrun |].
      eapply Forall_impl; [| exact Hall].
      intros m [l' [v' [Hin Hrest]]]. exists l', v'. split; [now right | exact Hrest].
Qed.

(** The loop over the buckets never raises and only appends. *)
Lemma fuzzy_loop (strongs_hebrew : str)
      (items : dict (list BuildMapping.Lexeme.t)) :
  forall matches,
  exists added,
    for_each (BuildMapping.fuzzy_step category strongs_hebrew) items matches
    = Ok (matches ++ added)
    /\ Forall (accepted_match category items strongs_hebrew) added.
Proof.
  induction items as [|[norm bucket] items IH]; intro matches.
  - exists []. rewrite app_nil_r. split; [reflexivity | constructor].
  - cbn [for_each]. unfold BuildMapping.fuzzy_step at 1.
    assert (Hweak : forall ms,
               Forall (accepted_match category items strongs_hebrew) ms ->
               Forall (accepted_match category ((norm, bucket) :: items)
                         strongs_hebrew) ms).
    { intros ms Hms. eapply Forall_impl; [| exact Hms].
      intros m [n' [b' [l' [v' [Hin Hrest]]]]].
      exists n', b', l', v'. split; [now right | exact Hrest]. }
    destruct (_ <=? 2)%Z.
    + destruct (match_loop strongs_hebrew bucket matches) as [a1 [Hrun1 Hall1]].
      rewrite Hrun1. cbn [bind].
      destruct (IH (matches ++ a1)) as [a2 [Hrun2 Hall2]].
      exists (a1 ++ a2). split; [now rewrite Hrun2, <- app_assoc |].
      apply Forall_app. split; [| now apply Hweak].
      eapply Forall_impl; [| exact Hall1].
      intros m [l' [v' [Hin Hrest]]].
      exists norm, bucket, l', v'. split; [now left |]. split; [exact Hin | exact Hrest].
    + cbn [bind]. destruct (IH matches) as [a2 [Hrun2 Hall2]].
      exists a2. split; [exact Hrun2 | now apply Hweak].
Qed.

(** [find_bhsa_matches] never raises; what it returns before the sort. *)
Lemma find_bhsa_matches_value (use_bhsa : bool)
      (bhsa_index : dict (list BuildMapping.Lexeme.t))
      (strongs_entry : option StrongsEntry.entry) :
  exists matches,
    BuildMapping.find_bhsa_matches category use_bhsa bhsa_index strongs_entry
    = Ok (firstn 10 (PyMore.sort_desc BuildMapping.Match.score matches))
    /\ Forall (accepted_match category bhsa_index
                 (StrongsEntry.extract_strongs_hebrew category strongs_entry
                    StrongsEntry.lemma_field)) matches.
Proof.
  unfold BuildMapping.find_bhsa_matches.
  destruct (negb use_bhsa || PyMore.list_not bhsa_index);
    [exists []; split; [reflexivity | constructor] |].
  cbv zeta.
  set (sh := StrongsEntry.extract_strongs_hebrew category strongs_entry
               StrongsEntry.lemma_field).
  destruct (PyMore.str_not sh);
    [exists []; split; [reflexivity | constructor] |].
  destruct (match_loop sh (StrongsEntry.dict_get_default bhsa_index sh []) [])
    as [a1 [Hrun1 Hall1]].
  rewrite Hrun1. cbn [bind app].
  assert (Hall1' : Forall (accepted_match category bhsa_index sh) a1).
  { eapply Forall_impl; [| exact Hall1].
    intros m [lex [v [Hin Hrest]]].
    unfold StrongsEntry.dict_get_default in Hin.
    destruct (dict_get bhsa_index sh) as [bucket|] eqn:Eg; [| contradiction].
    exists sh, bucket, lex, v. split; [now apply dict_get_in |]. now split. }
  destruct (PyMore.list_not a1) eqn:Ea.
  - destruct a1; [| discriminate].
    destruct (fuzzy_loop sh bhsa_index []) as [a2 [Hrun2 Hall2]].
    rewrite Hrun2. cbn [bind app]. exists a2. now split.
  - cbn [bind]. exists a1. now split.
Qed.

End FindMatches.

(** X16. [find_bhsa_matches] never raises and returns at most ten matches,
    in order of decreasing score; every match is built from a lexeme of the
    index whose [compare_hebrew] score against the entry's normalised Hebrew
    is at least [0.7], and its rounded score is at least [0.7] too. *)
Theorem find_bhsa_matches_result (category : codepoint -> string)
        (use_bhsa : bool)
        (bhsa_index : CompleteMapping.dict (list BuildMapping.Lexeme.t))
        (strongs_entry : option StrongsEntry.entry) :
  exists matches,
    BuildMapping.find_bhsa_matches category use_bhsa bhsa_index strongs_entry
    = Ok matches
    /\ length matches <= 10
    /\ StronglySorted
         (fun a b => (BuildMapping.Match.score b <= BuildMapping.Match.score a)%Q)
         matches
    /\ Forall (fun m =>
                 accepted_match category bhsa_index
                   (StrongsEntry.extract_strongs_hebrew category strongs_entry
                      StrongsEntry.lemma_field) m
                 /\ (0.7 <= BuildMapping.Match.score m)%Q) matches.
Proof.
  destruct (find_bhsa_matches_value category use_bhsa bhsa_index strongs_entry)
    as [ms [Hrun Hall]].
  eexists. split; [exact Hrun |]. split; [apply firstn_le_length |].
  split; [apply strongly_sorted_firstn, sort_desc_sorted |].
  apply forall_firstn.
  apply (Permutation_Forall
           (Permutation_sym (sort_desc_perm BuildMapping.Match.score ms))).
  eapply Forall_impl; [| exact Hall].
  intros m Hm. split; [exact Hm |].
  destruct Hm as [n [b [lex [v [_ [_ [_ [Hv ->]]]]]]]].
  cbn [BuildMapping.match_of BuildMapping.Match.score]. now apply round3_ge.
Qed.

(** X17. When the [normalized] fields of the index are normal forms, as
    [load_bhsa_data] writes them, every match returned by
    [find_bhsa_matches] has the score [1.0] or [0.85]: only identical normal
    forms and spelling variants pass the threshold, never an edit-distance
    score. *)
Theorem find_bhsa_matches_scores (category : codepoint -> string)
        (use_bhsa : bool)
        (bhsa_index : CompleteMapping.dict (list BuildMapping.Lexeme.t))
        (strongs_entry : option StrongsEntry.entry) :
  (forall c, In c [kaf; mem; nun; pe; tsadi] -> category c <> "Mn"%string) ->
  index_normalized category bhsa_index ->
  exists matches,
    BuildMapping.find_bhsa_matches category use_bhsa bhsa_index strongs_entry
    = Ok matches
    /\ Forall (fun m => (BuildMapping.Match.score m == 1.0)%Q
                        \/ (BuildMapping.Match.score m == 0.85)%Q) matches.
Proof.
  intros Hcat Hidx.
  destruct (find_bhsa_matches_value category use_bhsa bhsa_index strongs_entry)
    as [ms [Hrun Hall]].
  eexists. split; [exact Hrun |].
  apply forall_firstn.
  apply (Permutation_Forall
           (Permutation_sym (sort_desc_perm BuildMapping.Match.score ms))).
  eapply Forall_impl; [| exact Hall].
  intros m [n [b [lex [v [Hin [Hlex [Hv [Hge ->]]]]]]]].
  cbn [BuildMapping.match_of BuildMapping.Match.score].
  destruct (extract_strongs_hebrew_normal_form category strongs_entry
              StrongsEntry.lemma_field) as [t1 Ht1].
  destruct (Hidx n b lex Hin Hlex) as [t2 Ht2].
  rewrite Ht1, Ht2 in Hv.
  destruct (compare_hebrew_cases category
              (Some (normalize_hebrew category t1))
              (Some (normalize_hebrew category t2)) true) as [v' [Hv' Hc]].
  rewrite Hv in Hv'. injection Hv' as <-.
  rewrite !(normal_form_fixed category _ Hcat) in Hc.
  destruct Hc as [[_ ->] | [_ [_ [[_ ->] | [Hne [[Heq _] | [_ Hc]]]]]]].
  - exfalso. revert Hge. unfold Qle. simpl. lia.
  - left. reflexivity.
  - exfalso. apply Hne. now rewrite Heq.
  - destruct Hc as [[Hf _] | [_ [-> | Hlt]]];
      [discriminate | right; reflexivity | exfalso; lra].
Qed.

Lemma sample_index_normalized :
  index_normalized hebrew_block_category sample_index.
Proof.
  intros n b l [H | []] Hl. injection H as <- <-.
  destruct Hl as [<- | []]. exists (Some melekh_pointed). reflexivity.
Qed.

Lemma find_bhsa_matches_scores_witness :
  exists matches,
    BuildMapping.find_bhsa_matches hebrew_block_category true sample_index
      (Some sample_entry) = Ok matches
    /\ Forall (fun m => (BuildMapping.Match.score m == 1.0)%Q
                        \/ (BuildMapping.Match.score m == 0.85)%Q) matches.
Proof.
  apply find_bhsa_matches_scores;
    [exact hebrew_block_regular_not_marks | exact sample_index_normalized].
Defined.

(** ** Dictionaries in insertion order *)

Section Dictionaries.

Import CompleteMapping.

Variable V : Type.

Lemma dict_contains_keys (d : dict V) (k : str) :
  dict_contains d k = true <-> In k (dict_keys d).
Proof.
  unfold dict_contains, dict_keys.
  induction d as [|[k0 v0] d IH]; cbn [dict_get map In fst];
    [split; [discriminate | contradiction] |].
  destruct (Py.str_eqb k k0) eqn:E.
  - apply str_eqb_eq in E. subst. split; auto.
  - apply str_eqb_neq in E. rewrite IH. split; [auto | intros [H | H]; congruence].
Qed.

Lemma dict_set_keys (d : dict V) (k : str) (v : V) :
  dict_keys (dict_set d k v)
  = if dict_contains d k then dict_keys d else dict_keys d ++ [k].
Proof.
  unfold dict_contains, dict_keys.
  induction d as [|[k0 v0] d IH]; cbn [dict_set dict_get map fst app];
    [reflexivity |].
  destruct (Py.str_eqb k k0) eqn:E; cbn [map fst]; [reflexivity |].
  rewrite IH. now destruct (dict_get d k).
Qed.

Lemma dict_set_nodup (d : dict V) (k : str) (v : V) :
  NoDup (dict_keys d) -> NoDup (dict_keys (dict_set d k v)).
Proof.
  intro H. rewrite dict_set_keys.
  destruct (dict_contains d k) eqn:E; [exact H |].
  apply NoDup_app; [exact H | constructor; [intros [] | constructor] |].
  intros x Hx [<- | []]. apply dict_contains_keys in Hx. congruence.
Qed.

Lemma dict_in_get (d : dict V) (k : str) (v : V) :
  NoDup (dict_keys d) -> In (k, v) d -> dict_get d k = Some v.
Proof.
  unfold dict_keys. induction d as [|[k0 v0] d IH]; [contradiction |].
  cbn [map fst dict_get]. intros Hnd [H | H].
  - injection H as -> ->. now rewrite str_eqb_refl.
  - inversion Hnd as [|? ? Hnotin Hnd']; subst.
    destruct (Py.str_eqb k k0) eqn:E; [| now apply IH].
    apply str_eqb_eq in E. subst k0. exfalso. apply Hnotin.
    change k with (fst (k, v)). now apply in_map.
Qed.

Lemma dict_set_in (d : dict V) (k k' : str) (v v' : V) :
  In (k', v') (dict_set d k v) -> (k' = k /\ v' = v) \/ In (k', v') d.
Proof.
  induction d as [|[k0 v0] d IH]; cbn [dict_set].
  - intros [H | []]. injection H as <- <-. now left.
  - destruct (Py.str_eqb k k0) eqn:E.
    + apply str_eqb_eq in E. subst k0. intros [H | H].
      * injection H as <- <-. now left.
      * right. now right.
    + intros [H | H]; [right; now left |].
      destruct (IH H) as [Hl | Hr]; [now left | right; now right].
Qed.

End Dictionaries.

(** ** The lexemes and the index of build_mapping.py *)

Section Loader.

Import CompleteMapping.

Variable category : codepoint -> string.
Variables lex_lines voc_lex_lines lang_lines : list str.

Lemma str_or_empty (a b : str) :
  PyMore.str_or a b = [] <-> a = [] /\ b = [].
Proof. destruct a, b; cbn; split; intros; try tauto; try discriminate;
  destruct H; discriminate. Qed.

Lemma load_step_ok (t : nat) (m : dict BuildMapping.Lexeme.t) :
  t < length lex_lines ->
  lexeme_map_ok category lex_lines voc_lex_lines lang_lines t m ->
  lexeme_map_ok category lex_lines voc_lex_lines lang_lines (S t)
    (BuildMapping.load_step category lex_lines voc_lex_lines lang_lines m t).
Proof.
  intros Ht [Hnd [Hin Hall]]. unfold BuildMapping.load_step. cbv zeta.
  fold (key_at lex_lines voc_lex_lines t).
  set (k := key_at lex_lines voc_lex_lines t).
  assert (Hweak : forall k0 l, In (k0, l) m ->
            lexeme_from_lines category lex_lines voc_lex_lines lang_lines l
            /\ k0 = lexeme_key l /\ k0 <> []
            /\ BuildMapping.Lexeme.node l <= S t
            /\ forall j, j + 1 < BuildMapping.Lexeme.node l ->
                         key_at lex_lines voc_lex_lines j <> k0).
  { intros k0 l H. destruct (Hin k0 l H) as [H1 [H2 [H3 [H4 H5]]]].
    repeat split; auto. }
  destruct (negb (PyMore.str_not (nth t lex_lines []))
            || negb (PyMore.str_not (nth t voc_lex_lines []))) eqn:Etest.
  - assert (Hk : k <> []).
    { intro H. apply str_or_empty in H. destruct H as [H1 H2].
      rewrite H1, H2 in Etest. discriminate. }
    destruct (dict_contains m k) eqn:Ec; cbn [negb].
    + split; [exact Hnd |]. split; [exact Hweak |].
      intros j Hj Hne. destruct (Nat.eq_dec j t) as [-> | Hjt]; [exact Ec |].
      apply Hall; [lia | exact Hne].
    + split; [now apply dict_set_nodup |]. split.
      * intros k0 l H. apply dict_set_in in H.
        destruct H as [[-> ->] | H]; [| now apply Hweak].
        split; [exists t; repeat split; auto |].
        cbn. split; [reflexivity |]. split; [exact Hk |]. split; [lia |].
        intros j Hj Heq. assert (Hjt : j < t) by lia.
        fold k in Heq. specialize (Hall j Hjt). rewrite Heq in Hall.
        specialize (Hall Hk). congruence.
      * intros j Hj Hne. rewrite dict_contains_set.
        destruct (Nat.eq_dec j t) as [-> | Hjt];
          [fold k; now rewrite str_eqb_refl |].
        rewrite Hall by (auto; lia). apply orb_true_r.
  - split; [exact Hnd |]. split; [exact Hweak |].
    intros j Hj Hne. destruct (Nat.eq_dec j t) as [-> | Hjt];
      [| apply Hall; [lia | exact Hne]].
    exfalso. apply Hne. apply str_or_empty.
    apply orb_false_elim in Etest. destruct Etest as [E1 E2].
    destruct (nth t lex_lines []), (nth t voc_lex_lines []);
      try discriminate. now split.
Qed.

Lemma load_loop_ok (n : nat) :
  n <= length lex_lines ->
  lexeme_map_ok category lex_lines voc_lex_lines lang_lines n
    (fold_left (BuildMapping.load_step category lex_lines voc_lex_lines
                  lang_lines) (seq 0 n) []).
Proof.
  induction n as [|n IH]; intro Hn.
  - split; [constructor |]. split; [intros k l [] | intros j Hj; lia].
  - rewrite seq_S, fold_left_app. cbn [fold_left Nat.add].
    apply load_step_ok; [lia | apply IH; lia].
Qed.

(** The loop that builds the index, from any index with distinct keys. *)
Lemma index_loop (lexemes : list BuildMapping.Lexeme.t) :
  forall idx,
  NoDup (dict_keys idx) ->
  exists idx',
    for_each BuildMapping.index_step lexemes idx = Ok idx'
    /\ NoDup (dict_keys idx')
    /\ (forall norm,
          dict_get idx' norm
          = match dict_get idx norm,
                  filter (fun l => Py.str_eqb (BuildMapping.Lexeme.normalized l)
                                              norm) lexemes with
            | None, [] => None
            | None, ls => Some ls
            | Some b, ls => Some (b ++ ls)
            end).
Proof.
  induction lexemes as [|lex lexemes IH]; intros idx Hnd.
  - exists idx. split; [reflexivity |]. split; [exact Hnd |].
    intro norm. cbn [filter]. destruct (dict_get idx norm); [| reflexivity].
    now rewrite app_nil_r.
  - cbn [for_each]. unfold BuildMapping.index_step at 1. cbv zeta.
    set (n0 := BuildMapping.Lexeme.normalized lex).
    set (idx1 := if negb (dict_contains idx n0) then dict_set idx n0 [] else idx).
    assert (Hnd1 : NoDup (dict_keys idx1)).
    { subst idx1. destruct (negb (dict_contains idx n0));
        [now apply dict_set_nodup | exact Hnd]. }
    assert (Hget1 : forall norm,
              dict_get idx1 norm
              = match dict_get idx norm with
                | Some b => Some b
                | None => if Py.str_eqb norm n0 then Some [] else None
                end).
    { intro norm. subst idx1. unfold dict_contains.
      destruct (dict_get idx n0) as [b0|] eqn:E0; cbn [negb].
      - destruct (dict_get idx norm) eqn:E; [reflexivity |].
        destruct (Py.str_eqb norm n0) eqn:En; [| reflexivity].
        apply str_eqb_eq in En. congruence.
      - rewrite dict_get_set. destruct (Py.str_eqb norm n0) eqn:En.
        + apply str_eqb_eq in En. subst norm. now rewrite E0.
        + now destruct (dict_get idx norm). }
    unfold dict_getitem.
    destruct (dict_get idx1 n0) as [bucket|] eqn:Eb.
    2:{ rewrite Hget1, str_eqb_refl in Eb. destruct (dict_get idx n0); discriminate. }
    cbn [bind].
    destruct (IH (dict_set idx1 n0 (bucket ++ [lex])))
      as [idx' [Hrun [Hnd' Hget']]]; [now apply dict_set_nodup |].
    exists idx'. split; [exact Hrun |]. split; [exact Hnd' |].
    intro norm. rewrite Hget', dict_get_set. cbn [filter].
    fold n0. rewrite (str_eqb_sym n0 norm).
    destruct (Py.str_eqb norm n0) eqn:En.
    + apply str_eqb_eq in En. subst norm.
      rewrite Hget1, str_eqb_refl in Eb.
      destruct (dict_get idx n0) as [b0|]; injection Eb as <-.
      * rewrite <- app_assoc. reflexivity.
      * cbn [app]. reflexivity.
    + rewrite Hget1, En. now destruct (dict_get idx norm).
Qed.

(** [load_bhsa_data] never raises; its lexemes and its index. *)
Lemma load_bhsa_data_value :
  exists bhsa_lexemes bhsa_index,
    BuildMapping.load_bhsa_data category lex_lines voc_lex_lines lang_lines
    = Ok (bhsa_lexemes, bhsa_index)
    /\ bhsa_lexemes
       = map snd (BuildMapping.load_lexeme_map category lex_lines
                    voc_lex_lines lang_lines)
    /\ NoDup (dict_keys bhsa_index)
    /\ (forall norm,
          dict_get bhsa_index norm
          = match filter (fun l => Py.str_eqb (BuildMapping.Lexeme.normalized l)
                                              norm) bhsa_lexemes with
            | [] => None
            | ls => Some ls
            end).
Proof.
  unfold BuildMapping.load_bhsa_data. cbv zeta.
  destruct (@index_loop
              (map snd (BuildMapping.load_lexeme_map category lex_lines
                          voc_lex_lines lang_lines)) [] (NoDup_nil _))
    as [idx' [Hrun [Hnd Hget]]].
  rewrite Hrun. cbn [bind]. eexists. eexists.
  split; [reflexivity |]. split; [reflexivity |]. split; [exact Hnd |].
  intro norm. rewrite Hget. cbn [dict_get]. reflexivity.
Qed.

Lemma load_lexeme_map_ok :
  lexeme_map_ok category lex_lines voc_lex_lines lang_lines
    (Nat.min (length lex_lines) BuildMapping.word_limit)
    (BuildMapping.load_lexeme_map category lex_lines voc_lex_lines lang_lines).
Proof. apply load_loop_ok. apply Nat.le_min_l. Qed.

End Loader.

(** X18. [load_bhsa_data] never raises.  Its lexemes have distinct keys
    ([voc_lex or lex], never empty); each one was read from the first line
    carrying its key, with [node] the number of that line and [normalized]
    the normal form of the key; and every non-empty key among the first
    426590 lines has a lexeme. *)
Theorem load_bhsa_data_lexemes (category : codepoint -> string)
        (lex_lines voc_lex_lines lang_lines : list str) :
  exists bhsa_lexemes bhsa_index,
    BuildMapping.load_bhsa_data category lex_lines voc_lex_lines lang_lines
    = Ok (bhsa_lexemes, bhsa_index)
    /\ NoDup (map lexeme_key bhsa_lexemes)
    /\ Forall (fun l =>
                 lexeme_from_lines category lex_lines voc_lex_lines lang_lines l
                 /\ lexeme_key l <> []
                 /\ forall j, j + 1 < BuildMapping.Lexeme.node l ->
                              key_at lex_lines voc_lex_lines j <> lexeme_key l)
              bhsa_lexemes
    /\ (forall j,
          j < Nat.min (length lex_lines) BuildMapping.word_limit ->
          key_at lex_lines voc_lex_lines j <> [] ->
          exists l, In l bhsa_lexemes
                    /\ lexeme_key l = key_at lex_lines voc_lex_lines j).
Proof.
  destruct (load_bhsa_data_value category lex_lines voc_lex_lines lang_lines)
    as [ls [idx [Hrun [Hls _]]]].
  exists ls, idx. split; [exact Hrun |].
  destruct (load_lexeme_map_ok category lex_lines voc_lex_lines lang_lines)
    as [Hnd [Hin Hall]].
  set (m := BuildMapping.load_lexeme_map category lex_lines voc_lex_lines
              lang_lines) in *.
  assert (Hkeys : map lexeme_key ls = CompleteMapping.dict_keys m).
  { subst ls. unfold CompleteMapping.dict_keys. rewrite map_map.
    apply map_ext_in. intros [k l] Hkl. cbn [fst snd].
    symmetry. apply (Hin k l Hkl). }
  split; [now rewrite Hkeys |]. split.
  - apply Forall_forall. intros l Hl. subst ls.
    apply in_map_iff in Hl. destruct Hl as [[k l'] [<- Hkl]]. cbn [snd].
    destruct (Hin k l' Hkl) as [H1 [H2 [H3 [_ H5]]]].
    split; [exact H1 |]. rewrite <- H2. split; [exact H3 | exact H5].
  - intros j Hj Hne. specialize (Hall j Hj Hne).
    apply dict_contains_keys in Hall. rewrite <- Hkeys in Hall.
    apply in_map_iff in Hall. destruct Hall as [l [Hk Hl]]. now exists l.
Qed.

(** X19. The index built by [load_bhsa_data] has distinct keys, and the
    bucket of a normal form holds exactly the lexemes with this [normalized]
    field, in the order of the lexemes; no bucket is empty. *)
Theorem load_bhsa_data_index (category : codepoint -> string)
        (lex_lines voc_lex_lines lang_lines : list str) :
  exists bhsa_lexemes bhsa_index,
    BuildMapping.load_bhsa_data category lex_lines voc_lex_lines lang_lines
    = Ok (bhsa_lexemes, bhsa_index)
    /\ NoDup (CompleteMapping.dict_keys bhsa_index)
    /\ (forall norm bucket,
          In (norm, bucket) bhsa_index
          <-> bucket <> []
              /\ bucket
                 = filter (fun l =>
                             Py.str_eqb (BuildMapping.Lexeme.normalized l) norm)
                          bhsa_lexemes)
    /\ index_normalized category bhsa_index.
Proof.
  destruct (load_bhsa_data_value category lex_lines voc_lex_lines lang_lines)
    as [ls [idx [Hrun [Hls [Hnd Hget]]]]].
  exists ls, idx. split; [exact Hrun |]. split; [exact Hnd |].
  assert (Hiff : forall norm bucket,
             In (norm, bucket) idx
             <-> bucket <> []
                 /\ bucket
                    = filter (fun l =>
                                Py.str_eqb (BuildMapping.Lexeme.normalized l)
                                           norm) ls).
  { intros norm bucket. split.
    - intro Hin. apply (dict_in_get _ _ _ Hnd) in Hin. rewrite Hget in Hin.
      destruct (filter _ ls) as [|x xs]; [discriminate |].
      injection Hin as <-. split; [discriminate | reflexivity].
    - intros [Hne ->]. apply dict_get_in. rewrite Hget.
      destruct (filter _ ls); [contradiction | reflexivity]. }
  split; [exact Hiff |].
  intros norm bucket l Hin Hl. apply Hiff in Hin. destruct Hin as [_ ->].
  apply filter_In in Hl. destruct Hl as [Hl _].
  destruct (load_lexeme_map_ok category lex_lines voc_lex_lines lang_lines)
    as [_ [Hin _]].
  subst ls. apply in_map_iff in Hl. destruct Hl as [[k l'] [<- Hkl]].
  destruct (Hin k l' Hkl) as [[i [_ [_ [_ [_ [_ Hn]]]]]] _].
  cbn [snd]. eexists. exact Hn.
Qed.

Lemma distinctb_nodup (l : list str) : distinctb l = true -> NoDup l.
Proof.
  induction l as [|x l IH]; cbn [distinctb]; intro H; [constructor |].
  apply andb_true_iff in H. destruct H as [Hx Hl].
  constructor; [| now apply IH].
  intro Hin. apply negb_true_iff in Hx.
  assert (Ht : existsb (Py.str_eqb x) l = true)
    by (apply existsb_exists; exists x; split; [exact Hin | apply str_eqb_refl]).
  congruence.
Qed.

(** ** The entries added by the coverage pass *)

Section CoverageResult.

Import CompleteMapping.

Variable category : codepoint -> string.

Lemma dict_set_new {V} (d : dict V) (k : str) (v : V) :
  dict_contains d k = false -> dict_set d k v = d ++ [(k, v)].
Proof.
  unfold dict_contains.
  induction d as [|[k0 v0] d IH]; cbn [dict_set dict_get app]; [reflexivity |].
  destruct (Py.str_eqb k k0); [discriminate |].
  intro H. now rewrite IH.
Qed.

Lemma dict_get_app {V} (d1 d2 : dict V) (k : str) :
  dict_get (d1 ++ d2) k
  = match dict_get d1 k with
    | Some v => Some v
    | None => dict_get d2 k
    end.
Proof.
  induction d1 as [|[k0 v0] d1 IH]; cbn [dict_get app]; [reflexivity |].
  now destruct (Py.str_eqb k k0).
Qed.

Lemma dict_contains_app {V} (d1 d2 : dict V) (k : str) :
  dict_contains (d1 ++ d2) k = dict_contains d1 k || dict_contains d2 k.
Proof.
  unfold dict_contains. rewrite dict_get_app. now destruct (dict_get d1 k).
Qed.

Lemma candidate_score_total (bhsa : bhsa_data) (sd : strongs_data) :
  exists v, candidate_score category bhsa sd = Ok v.
Proof.
  unfold candidate_score, compare_hebrew_default.
  rewrite compare_hebrew_value. eexists. reflexivity.
Qed.

(** The inner loop from any state: either no candidate beats the score it
    started with and the state is unchanged, or it ends with the entry of
    the first candidate of maximal score. *)
Lemma best_loop_value (bhsa : bhsa_data) (l : dict strongs_data) :
  forall best_match best_score,
  exists best_match' best_score',
    for_each (best_step category bhsa) l (best_match, best_score)
    = Ok (best_match', best_score')
    /\ ((best_match' = best_match /\ best_score' = best_score
         /\ forall num sd v, In (num, sd) l ->
               candidate_score category bhsa sd = Ok v -> (v <= best_score)%Q)
        \/ (exists e, best_match' = Some e
                      /\ (best_score < best_score')%Q
                      /\ first_best category l bhsa best_score' e)).
Proof.
  induction l as [|[num sd] l IH]; intros bm bs.
  - exists bm, bs. split; [reflexivity |]. left.
    split; [reflexivity |]. split; [reflexivity |]. intros ? ? ? [].
  - destruct (candidate_score_total bhsa sd) as [v Hv].
    cbn [for_each]. unfold best_step at 1.
    change (compare_hebrew_default category (Some (normalized bhsa))
              (Some (strongs_normalized sd)) true)
      with (candidate_score category bhsa sd).
    rewrite Hv. cbn [bind].
    destruct (Py.ltb bs v) eqn:E; cbn [bind].
    + apply py_ltb_lt in E.
      match goal with
      | |- context [for_each _ l (Some ?m, v)] =>
          set (m0 := m); destruct (IH (Some m0) v) as [bm' [bs' [Hrun Hcase]]]
      end.
      exists bm', bs'. split; [exact Hrun |]. right.
      destruct Hcase as [[-> [-> Hall]] | [e [-> [Hlt Hfb]]]].
      * exists m0. split; [reflexivity |]. split; [exact E |].
        exists [], num, sd, l. split; [reflexivity |]. split; [exact Hv |].
        split; [intros ? ? ? [] |]. split; [exact Hall |].
        subst m0. cbn. split; [reflexivity |]. split; [reflexivity |].
        split; [reflexivity |]. split; [| split].
        -- intro H. apply py_ltb_lt in H. now rewrite H.
        -- intro H. destruct (Py.ltb v 0.9) eqn:E9; [| reflexivity].
           apply py_ltb_lt in E9. exfalso. exact (Qlt_not_le _ _ E9 H).
        -- reflexivity.
      * exists e. split; [reflexivity |]. split; [lra |].
        destruct Hfb as [pre [num' [sd' [post [-> [Hs [Hpre Hrest]]]]]]].
        exists ((num, sd) :: pre), num', sd', post.
        split; [reflexivity |]. split; [exact Hs |]. split; [| exact Hrest].
        intros n1 s1 v1 [H | H] Hv1; [| now apply (Hpre n1 s1)].
        injection H as <- <-. rewrite Hv in Hv1. injection Hv1 as <-.
        exact Hlt.
    + assert (Hle : (v <= bs)%Q).
      { apply Qnot_lt_le. intro Hlt. apply py_ltb_lt in Hlt. congruence. }
      destruct (IH bm bs) as [bm' [bs' [Hrun Hcase]]].
      exists bm', bs'. split; [exact Hrun |].
      destruct Hcase as [[-> [-> Hall]] | [e [-> [Hlt Hfb]]]]; [left | right].
      * split; [reflexivity |]. split; [reflexivity |].
        intros n1 s1 v1 [H | H] Hv1; [| now apply (Hall n1 s1)].
        injection H as <- <-. rewrite Hv in Hv1. injection Hv1 as <-.
        exact Hle.
      * exists e. split; [reflexivity |]. split; [exact Hlt |].
        destruct Hfb as [pre [num' [sd' [post [-> [Hs [Hpre Hrest]]]]]]].
        exists ((num, sd) :: pre), num', sd', post.
        split; [reflexivity |]. split; [exact Hs |]. split; [| exact Hrest].
        intros n1 s1 v1 [H | H] Hv1; [| now apply (Hpre n1 s1)].
        injection H as <- <-. rewrite Hv in Hv1. injection Hv1 as <-.
        lra.
Qed.

Variable all_bhsa : dict bhsa_data.
Variable all_strongs : dict strongs_data.

(** The outer loop over distinct lexemes of the corpus that have no entry
    yet: it appends the entries it adds, in the order of the lexemes. *)
Lemma cover_loop_value (lexemes : list str) :
  NoDup lexemes ->
  (forall lex, In lex lexemes -> In lex (dict_keys all_bhsa)) ->
  forall bhsa_to_strongs matched_count,
  (forall lex, In lex lexemes -> dict_contains bhsa_to_strongs lex = false) ->
  exists added,
    for_each (cover_step category all_bhsa all_strongs) lexemes
             (bhsa_to_strongs, matched_count)
    = Ok (bhsa_to_strongs ++ added, matched_count + length added)
    /\ subseq (dict_keys added) lexemes
    /\ Forall (fun kv =>
                 exists bhsa,
                   dict_get all_bhsa (fst kv) = Some bhsa
                   /\ best_candidate category all_strongs bhsa (snd kv)) added
    /\ (forall lex bhsa,
          In lex lexemes -> dict_get all_bhsa lex = Some bhsa ->
          has_positive_candidate category all_strongs bhsa ->
          In lex (dict_keys added)).
Proof.
  induction lexemes as [|lex0 lexemes IH]; intros Hnd Hkeys m n Hnew.
  - exists []. rewrite app_nil_r, Nat.add_0_r. split; [reflexivity |].
    split; [constructor |]. split; [constructor |]. intros ? ? [].
  - inversion Hnd as [|? ? Hnotin Hnd']; subst.
    cbn [for_each]. unfold cover_step at 1. unfold dict_getitem.
    destruct (dict_get_key all_bhsa lex0 (Hkeys lex0 (or_introl eq_refl)))
      as [bhsa Hbhsa].
    rewrite Hbhsa. cbn [bind].
    destruct (best_loop_value bhsa all_strongs None 0%Q)
      as [bm [bs [Hrun Hcase]]].
    rewrite Hrun. cbn [bind fst].
    assert (Hkeys' : forall lex, In lex lexemes -> In lex (dict_keys all_bhsa))
      by (intros lex H; apply Hkeys; now right).
    destruct Hcase as [[-> [-> Hall]] | [e [-> [Hlt Hfb]]]].
    + destruct (IH Hnd' Hkeys' m n) as [added [Hrun' [Hsub [Hbest Hpos]]]];
        [intros lex H; apply Hnew; now right |].
      exists added. split; [exact Hrun' |].
      split; [now constructor |]. split; [exact Hbest |].
      intros lex b [<- | Hin] Hget Hp; [| now apply (Hpos lex b)].
      rewrite Hbhsa in Hget. injection Hget as <-.
      destruct Hp as [num [sd [v [Hin [Hv Hv0]]]]].
      specialize (Hall num sd v Hin Hv). lra.
    + rewrite (dict_set_new m lex0 e (Hnew lex0 (or_introl eq_refl))).
      destruct (IH Hnd' Hkeys' (m ++ [(lex0, e)]) (n + 1))
        as [added [Hrun' [Hsub [Hbest Hpos]]]].
      { intros lex H. rewrite dict_contains_app, (Hnew lex (or_intror H)).
        unfold dict_contains. cbn [dict_get orb].
        destruct (Py.str_eqb lex lex0) eqn:Eq; [| reflexivity].
        apply str_eqb_eq in Eq. subst. contradiction. }
      exists ((lex0, e) :: added). cbn [bind]. rewrite Hrun'.
      rewrite <- app_assoc. cbn [app length].
      replace (n + 1 + length added) with (n + S (length added)) by lia.
      split; [reflexivity |]. unfold dict_keys in *. cbn [map fst].
      split; [now constructor |]. split.
      * constructor; [| exact Hbest]. exists bhsa. cbn [fst snd].
        split; [exact Hbhsa |]. exists bs. split; [exact Hlt | exact Hfb].
      * intros lex b [<- | Hin] Hget Hp; [now left | right].
        now apply (Hpos lex b).
Qed.

Lemma unmatched_of_nodup (bhsa_to_strongs : dict match_entry) :
  NoDup (dict_keys all_bhsa) ->
  NoDup (unmatched_of all_bhsa bhsa_to_strongs).
Proof. intro H. unfold unmatched_of. now apply NoDup_filter. Qed.

(** The pass as a whole, for a corpus with distinct keys. *)
Lemma coverage_pass_value (bhsa_to_strongs : dict match_entry) :
  NoDup (dict_keys all_bhsa) ->
  exists added,
    coverage_pass category all_bhsa all_strongs bhsa_to_strongs
    = Ok (bhsa_to_strongs ++ added, length added)
    /\ subseq (dict_keys added) (unmatched_of all_bhsa bhsa_to_strongs)
    /\ Forall (fun kv =>
                 exists bhsa,
                   dict_get all_bhsa (fst kv) = Some bhsa
                   /\ best_candidate category all_strongs bhsa (snd kv)) added
    /\ (forall lex bhsa,
          In lex (unmatched_of all_bhsa bhsa_to_strongs) ->
          dict_get all_bhsa lex = Some bhsa ->
          has_positive_candidate category all_strongs bhsa ->
          In lex (dict_keys added)).
Proof.
  intro Hnd. unfold coverage_pass. cbv zeta.
  destruct (@cover_loop_value (unmatched_of all_bhsa bhsa_to_strongs)
              (unmatched_of_nodup bhsa_to_strongs Hnd)
              ltac:(intros lex H; apply filter_In in H; tauto)
              bhsa_to_strongs 0) as [added Hadded].
  - intros lex H. apply filter_In in H. destruct H as [_ H].
    now apply negb_true_iff in H.
  - exists added. exact Hadded.
Qed.

End CoverageResult.

Lemma subseq_incl {A} (l1 l2 : list A) :
  subseq l1 l2 -> forall x, In x l1 -> In x l2.
Proof.
  induction 1 as [| x l1 l2 _ IH | x l1 l2 _ IH]; intros y Hy.
  - exact Hy.
  - right. now apply IH.
  - destruct Hy as [<- | Hy]; [now left | right; now apply IH].
Qed.

Lemma subseq_nodup {A} (l1 l2 : list A) :
  subseq l1 l2 -> NoDup l2 -> NoDup l1.
Proof.
  induction 1 as [| x l1 l2 Hs IH | x l1 l2 Hs IH]; intro Hnd.
  - exact Hnd.
  - inversion Hnd; subst. now apply IH.
  - inversion Hnd as [|? ? Hnotin Hnd']; subst. constructor; [| now apply IH].
    intro Hin. apply Hnotin. exact (subseq_incl Hs _ Hin).
Qed.

Lemma subseq_filter {A} (f : A -> bool) (l : list A) : subseq (filter f l) l.
Proof.
  induction l as [|x l IH]; cbn [filter]; [constructor |].
  destruct (f x); now constructor.
Qed.

Lemma subseq_trans {A} (l1 l2 l3 : list A) :
  subseq l1 l2 -> subseq l2 l3 -> subseq l1 l3.
Proof.
  intros H12 H23. revert l1 H12.
  induction H23 as [| x l2 l3 _ IH | x l2 l3 _ IH]; intros l1 H12.
  - exact H12.
  - constructor. now apply IH.
  - inversion H12; subst; constructor; now apply IH.
Qed.

Lemma best_candidate_positive (category : codepoint -> string)
      (all_strongs : CompleteMapping.dict CompleteMapping.strongs_data)
      (bhsa : CompleteMapping.bhsa_data) (e : CompleteMapping.match_entry) :
  best_candidate category all_strongs bhsa e ->
  has_positive_candidate category all_strongs bhsa.
Proof.
  intros [v [Hv [pre [num [sd [post [-> [Hs _]]]]]]]].
  exists num, sd, v. split; [| now split].
  apply in_or_app. right. now left.
Qed.

(** X20. For a corpus with distinct keys the coverage pass never raises and
    only appends: the mapping it returns is the one it was given followed by
    the added entries, [matched_count] is their number, and their keys are
    distinct, in the order of the corpus, and exactly the lexemes of the
    corpus that had no entry and have a candidate scoring above zero. *)
Theorem coverage_pass_appends (category : codepoint -> string)
        (all_bhsa : CompleteMapping.dict CompleteMapping.bhsa_data)
        (all_strongs : CompleteMapping.dict CompleteMapping.strongs_data)
        (bhsa_to_strongs : CompleteMapping.dict CompleteMapping.match_entry) :
  NoDup (CompleteMapping.dict_keys all_bhsa) ->
  exists added,
    CompleteMapping.coverage_pass category all_bhsa all_strongs bhsa_to_strongs
    = Ok (bhsa_to_strongs ++ added, length added)
    /\ NoDup (CompleteMapping.dict_keys added)
    /\ subseq (CompleteMapping.dict_keys added)
              (CompleteMapping.dict_keys all_bhsa)
    /\ (forall lex,
          In lex (CompleteMapping.dict_keys added)
          <-> CompleteMapping.dict_contains bhsa_to_strongs lex = false
              /\ exists bhsa,
                   CompleteMapping.dict_get all_bhsa lex = Some bhsa
                   /\ has_positive_candidate category all_strongs bhsa).
Proof.
  intro Hnd.
  destruct (coverage_pass_value category all_bhsa all_strongs bhsa_to_strongs
              Hnd) as [added [Hrun [Hsub [Hbest Hpos]]]].
  exists added. split; [exact Hrun |].
  assert (Hsub' : subseq (CompleteMapping.dict_keys added)
                         (CompleteMapping.dict_keys all_bhsa)).
  { eapply subseq_trans; [exact Hsub | apply subseq_filter]. }
  split; [exact (subseq_nodup Hsub' Hnd) |]. split; [exact Hsub' |].
  intro lex. split.
  - intro Hin. pose proof (subseq_incl Hsub _ Hin) as Hun.
    apply filter_In in Hun. destruct Hun as [_ Hun].
    apply negb_true_iff in Hun. split; [exact Hun |].
    unfold CompleteMapping.dict_keys in Hin. apply in_map_iff in Hin.
    destruct Hin as [[k e] [Hk Hke]]. cbn [fst] in Hk. subst k.
    rewrite Forall_forall in Hbest.
    destruct (Hbest _ Hke) as [bhsa [Hget Hb]]. cbn [fst snd] in Hget, Hb.
    exists bhsa. split; [exact Hget |].
    exact (best_candidate_positive Hb).
  - intros [Hnew [bhsa [Hget Hp]]]. apply (Hpos lex bhsa); [| exact Hget | exact Hp].
    apply filter_In. split; [| now rewrite Hnew].
    apply dict_get_in in Hget. unfold CompleteMapping.dict_keys.
    apply in_map_iff. now exists (lex, bhsa).
Qed.

(** The pass on the sample corpus: ahav keeps the entry it had, melekh and
    David are appended in this order (an identical normal form, and a
    spelling variant), the word without Hebrew letters gets nothing. *)
Lemma coverage_pass_sample :
  CompleteMapping.coverage_pass hebrew_block_category sample_all_bhsa
    sample_all_strongs sample_bhsa_to_strongs
  = Ok (sample_bhsa_to_strongs
        ++ [ (melekh_pointed,
              {| CompleteMapping.strongs := strongs_H4428;
                 CompleteMapping.strongs_lemma := melekh_pointed;
                 CompleteMapping.score := CompleteMapping.round3 1.0;
                 CompleteMapping.method := "consonantal_match";
                 CompleteMapping.kjv_glosses := gloss_king |});
             (dvd,
              {| CompleteMapping.strongs := strongs_H1732;
                 CompleteMapping.strongs_lemma := dvvd;
                 CompleteMapping.score := CompleteMapping.round3 0.85;
                 CompleteMapping.method := "fuzzy_match";
                 CompleteMapping.kjv_glosses := gloss_David |}) ],
        2).
Proof. vm_compute. reflexivity. Qed.

Lemma sample_all_bhsa_nodup :
  NoDup (CompleteMapping.dict_keys sample_all_bhsa).
Proof. apply distinctb_nodup. vm_compute. reflexivity. Qed.

Lemma coverage_pass_appends_witness :
  NoDup (CompleteMapping.dict_keys sample_all_bhsa)
  /\ exists added,
       CompleteMapping.coverage_pass hebrew_block_category
         sample_all_bhsa sample_all_strongs sample_bhsa_to_strongs
       = Ok (sample_bhsa_to_strongs ++ added, length added)
       /\ NoDup (CompleteMapping.dict_keys added)
       /\ subseq (CompleteMapping.dict_keys added)
                 (CompleteMapping.dict_keys sample_all_bhsa)
       /\ (forall lex,
             In lex (CompleteMapping.dict_keys added)
             <-> CompleteMapping.dict_contains sample_bhsa_to_strongs lex
                 = false
                 /\ exists bhsa,
                      CompleteMapping.dict_get sample_all_bhsa lex = Some bhsa
                      /\ has_positive_candidate hebrew_block_category
                           sample_all_strongs bhsa).
Proof.
  split; [exact sample_all_bhsa_nodup |].
  exact (@coverage_pass_appends hebrew_block_category sample_all_bhsa
           sample_all_strongs sample_bhsa_to_strongs sample_all_bhsa_nodup).
Defined.

(** ** Binary64 numbers: order and examples *)

Section Binary64Facts.

Lemma compare_cont_eq (a b : positive) :
  Pos.compare_cont Eq a b = Pos.compare a b.
Proof. reflexivity. Qed.

Ltac compare_cases :=
  repeat match goal with
         | H : context [Z.compare ?a ?b] |- _ =>
             destruct (Z.compare_spec a b)
         | |- context [Z.compare ?a ?b] =>
             destruct (Z.compare_spec a b)
         | H : context [Pos.compare ?a ?b] |- _ =>
             destruct (Pos.compare_spec a b)
         | |- context [Pos.compare ?a ?b] =>
             destruct (Pos.compare_spec a b)
         end.

(** [<] on floats is transitive. *)
Lemma float_ltb_trans (x y z : Binary64.float) :
  Binary64.ltb x y = true -> Binary64.ltb y z = true ->
  Binary64.ltb x z = true.
Proof.
  unfold Binary64.ltb, SpecFloat.SFltb, SpecFloat.SFcompare.
  destruct x as [sx|sx| |sx mx ex], y as [sy|sy| |sy my ey],
    z as [sz|sz| |sz mz ez];
    try destruct sx; try destruct sy; try destruct sz;
    intros H1 H2; try discriminate; try reflexivity;
    rewrite ?compare_cont_eq in *; compare_cases;
    cbn in *; try discriminate; try reflexivity; try lia.
Qed.

(** On numbers, what is not above is below whatever is above. *)
Lemma float_not_ltb_trans (x y z : Binary64.float) :
  is_nan x = false -> is_nan y = false ->
  Binary64.ltb y x = false -> Binary64.ltb y z = true ->
  Binary64.ltb x z = true.
Proof.
  unfold Binary64.ltb, SpecFloat.SFltb, SpecFloat.SFcompare, is_nan.
  destruct x as [sx|sx| |sx mx ex], y as [sy|sy| |sy my ey],
    z as [sz|sz| |sz mz ez];
    try destruct sx; try destruct sy; try destruct sz;
    intros Hx Hy H1 H2; try discriminate; try reflexivity;
    rewrite ?compare_cont_eq in *; compare_cases;
    cbn in *; try discriminate; try reflexivity; try lia.
Qed.

Lemma float_ltb_not_nan (x y : Binary64.float) :
  Binary64.ltb x y = true -> is_nan y = false.
Proof.
  unfold Binary64.ltb, SpecFloat.SFltb, SpecFloat.SFcompare.
  destruct x, y; try reflexivity; discriminate.
Qed.

(** Rounding never produces "not a number" from a mantissa that is not
    negative. *)
Lemma shr_1_nonneg (mrs : SpecFloat.shr_record) :
  (0 <= SpecFloat.shr_m mrs)%Z ->
  (0 <= SpecFloat.shr_m (SpecFloat.shr_1 mrs))%Z.
Proof.
  destruct mrs as [m r s]. cbn [SpecFloat.shr_m]. intro H.
  destruct m as [|p|p]; [cbn; lia | | lia].
  destruct p; cbn; lia.
Qed.

Lemma iter_shr_1_nonneg (p : positive) :
  forall mrs,
  (0 <= SpecFloat.shr_m mrs)%Z ->
  (0 <= SpecFloat.shr_m (SpecFloat.iter_pos SpecFloat.shr_1 p mrs))%Z.
Proof.
  induction p as [p IH | p IH |]; intros mrs H; cbn [SpecFloat.iter_pos].
  - apply IH, IH, shr_1_nonneg, H.
  - apply IH, IH, H.
  - apply shr_1_nonneg, H.
Qed.

Lemma shr_record_of_loc_m (m : Z) (l : SpecFloat.location) :
  SpecFloat.shr_m (SpecFloat.shr_record_of_loc m l) = m.
Proof. destruct l as [|[]]; reflexivity. Qed.

Lemma shr_fexp_nonneg (m e : Z) (l : SpecFloat.location) :
  (0 <= m)%Z ->
  (0 <= SpecFloat.shr_m
          (fst (SpecFloat.shr_fexp Binary64.prec Binary64.emax m e l)))%Z.
Proof.
  intro H. unfold SpecFloat.shr_fexp, SpecFloat.shr.
  destruct (_ - e)%Z; cbn [fst];
    rewrite ?shr_record_of_loc_m; try exact H.
  apply iter_shr_1_nonneg. now rewrite shr_record_of_loc_m.
Qed.

Lemma round_nearest_even_nonneg (m : Z) (l : SpecFloat.location) :
  (0 <= m)%Z -> (0 <= SpecFloat.round_nearest_even m l)%Z.
Proof.
  intro H. unfold SpecFloat.round_nearest_even.
  destruct l as [|[]]; [exact H | | exact H | lia].
  destruct (Z.even m); lia.
Qed.

Lemma binary_round_aux_not_nan (sx : bool) (mx ex : Z)
      (lx : SpecFloat.location) :
  (0 <= mx)%Z ->
  is_nan (SpecFloat.binary_round_aux Binary64.prec Binary64.emax sx mx ex lx)
  = false.
Proof.
  intro H. unfold SpecFloat.binary_round_aux.
  pose proof (@shr_fexp_nonneg mx ex lx H) as H1.
  destruct (SpecFloat.shr_fexp Binary64.prec Binary64.emax mx ex lx)
    as [mrs' e'].
  cbn [fst] in H1.
  pose proof (@shr_fexp_nonneg
                (SpecFloat.round_nearest_even (SpecFloat.shr_m mrs')
                   (SpecFloat.loc_of_shr_record mrs'))
                e' SpecFloat.loc_Exact
                (@round_nearest_even_nonneg _ _ H1)) as H2.
  destruct (SpecFloat.shr_fexp Binary64.prec Binary64.emax _ e'
              SpecFloat.loc_Exact) as [mrs'' e''].
  cbn [fst] in H2.
  destruct (SpecFloat.shr_m mrs'') as [|p|p]; [reflexivity | | lia].
  now destruct (Z.leb e'' (Z.sub Binary64.emax Binary64.prec)).
Qed.

Lemma mul_not_nan (x : Binary64.float) (s : bool) (m : positive) (e : Z) :
  is_nan x = false ->
  is_nan (Binary64.mul x (SpecFloat.S754_finite s m e)) = false.
Proof.
  unfold Binary64.mul.
  destruct x as [sx|sx| |sx mx ex]; intro H; try discriminate;
    try reflexivity.
  cbn [SpecFloat.SFmul]. apply binary_round_aux_not_nan. lia.
Qed.

Lemma sub_not_nan (s : bool) (m : positive) (e : Z) (y : Binary64.float) :
  is_nan y = false ->
  is_nan (Binary64.sub (SpecFloat.S754_finite s m e) y) = false.
Proof.
  unfold Binary64.sub.
  destruct y as [sy|sy| |sy my ey]; intro H; try discriminate;
    try reflexivity.
  cbn [SpecFloat.SFsub]. unfold SpecFloat.binary_normalize,
    SpecFloat.binary_round.
  destruct (_ - _)%Z as [|p|p]; [reflexivity | |];
    destruct (SpecFloat.shl_align _ _ _) as [mz ez];
    apply binary_round_aux_not_nan; lia.
Qed.

Lemma div_int_not_nan (n d : Z) :
  d <> 0%Z -> is_nan (Binary64.div_int n d) = false.
Proof.
  intro Hd. unfold Binary64.div_int, Binary64.exact_int.
  destruct d as [|q|q]; [contradiction | |];
    (destruct n as [|p|p]; [reflexivity | |]);
    cbn [SpecFloat.SFdiv]; unfold SpecFloat.SFdiv_core_binary;
    match goal with
    | |- context [Z.div_eucl ?a ?b] =>
        pose proof (Z.div_pos a b) as Hq;
        assert (Hdef : Z.div_eucl a b = (a / b, a mod b)%Z)
          by (unfold Z.div, Z.modulo; now destruct (Z.div_eucl a b));
        rewrite Hdef
    end;
    apply binary_round_aux_not_nan; (apply Hq; [| lia]);
    (destruct (Z.sub _ _) as [|k|k]; [lia | | lia]);
    apply Z.shiftl_nonneg; lia.
Qed.

(** The literals are the floats nearest to the decimals they spell. *)
Lemma literals_nearest :
  Binary64.d0_7 = Binary64.div_int 7 10
  /\ Binary64.d0_85 = Binary64.div_int 85 100
  /\ Binary64.d0_9 = Binary64.div_int 9 10
  /\ Binary64.d1_0 = Binary64.div_int 1 1.
Proof. repeat split. Qed.

(** Rounded products and quotients are not the exact ones: the fuzzy score
    for one edit in four letters is 0.5249999999999999, below 21/40;
    [round((1.0 - 7/8) * 0.7, 3)] is 0.087, because the product is just
    below 0.0875; [round(100 * 1 / 4000, 2)] is 0.03, because the quotient
    is just above 0.025.  A tie between two decimals goes to the even one:
    0.125 gives 0.12 and 0.375 gives 0.38. *)
Lemma binary64_examples :
  Binary64.mul (Binary64.sub Binary64.d1_0 (Binary64.div_int 1 4))
               Binary64.d0_7
  = SpecFloat.S754_finite false 4728779608739020 (-53)
  /\ (Binary64.to_Q (SpecFloat.S754_finite false 4728779608739020 (-53))
      < 21 # 40)%Q
  /\ Binary64.round
       (Binary64.mul (Binary64.sub Binary64.d1_0 (Binary64.div_int 7 8))
                     Binary64.d0_7) 3
     = Binary64.div_int 87 1000
  /\ Binary64.round (Binary64.div_int 100 4000) 2 = Binary64.div_int 3 100
  /\ Binary64.round (Binary64.div_int 125 1000) 2 = Binary64.div_int 12 100
  /\ Binary64.round (Binary64.div_int 375 1000) 2 = Binary64.div_int 38 100
  /\ Binary64.round Binary64.d0_85 3 = Binary64.d0_85
  /\ Binary64.round Binary64.d1_0 3 = Binary64.d1_0.
Proof. repeat split. Qed.

End Binary64Facts.

(** ** The coverage pass with binary64 scores *)

Section CoverageResult64.

Import CompleteMapping.

Variable category : codepoint -> string.

(** The binary64 score is always a number. *)
Lemma candidate_score64_number (bhsa : bhsa_data) (sd : strongs_data) :
  exists v, candidate_score64 category bhsa sd = Ok v /\ is_nan v = false.
Proof.
  unfold candidate_score64, HebrewNormalizer64.compare_hebrew_default.
  rewrite compare_hebrew64_value. eexists. split; [reflexivity |].
  destruct (Py.not_ _ || Py.not_ _); [reflexivity |].
  destruct (Py.eqb _ _); [reflexivity |].
  cbv zeta.
  destruct (Py.str_eqb _ _) eqn:En; [reflexivity |].
  cbn [negb].
  destruct (_ && _); [reflexivity |].
  apply mul_not_nan. unfold similarity64_of. apply sub_not_nan.
  apply div_int_not_nan.
  apply str_eqb_neq in En.
  destruct (normalize_hebrew category (Some (normalized bhsa)));
    destruct (normalize_hebrew category (Some (strongs_normalized sd)));
    cbn; try lia. congruence.
Qed.

(** The inner loop from any state whose score is a number. *)
Lemma best_loop_value64 (bhsa : bhsa_data) (l : dict strongs_data) :
  forall best_match best_score,
  is_nan best_score = false ->
  exists best_match' best_score',
    for_each (CompleteMapping64.best_step category bhsa) l
             (best_match, best_score)
    = Ok (best_match', best_score')
    /\ ((best_match' = best_match /\ best_score' = best_score
         /\ forall num sd v, In (num, sd) l ->
               candidate_score64 category bhsa sd = Ok v ->
               Binary64.ltb best_score v = false)
        \/ (exists e, best_match' = Some e
                      /\ Binary64.ltb best_score best_score' = true
                      /\ first_best64 category l bhsa best_score' e)).
Proof.
  induction l as [|[num sd] l IH]; intros bm bs Hbs.
  - exists bm, bs. split; [reflexivity |]. left.
    split; [reflexivity |]. split; [reflexivity |]. intros ? ? ? [].
  - destruct (candidate_score64_number bhsa sd) as [v [Hv Hnum]].
    cbn [for_each]. unfold CompleteMapping64.best_step at 1.
    change (HebrewNormalizer64.compare_hebrew_default category
              (Some (normalized bhsa)) (Some (strongs_normalized sd)) true)
      with (candidate_score64 category bhsa sd).
    rewrite Hv. cbn [bind].
    destruct (Binary64.ltb bs v) eqn:E; cbn [bind].
    + match goal with
      | |- context [for_each _ l (Some ?m, v)] =>
          set (m0 := m);
          destruct (IH (Some m0) v Hnum) as [bm' [bs' [Hrun Hcase]]]
      end.
      exists bm', bs'. split; [exact Hrun |]. right.
      destruct Hcase as [[-> [-> Hall]] | [e [-> [Hlt Hfb]]]].
      * exists m0. split; [reflexivity |]. split; [exact E |].
        exists [], num, sd, l. split; [reflexivity |]. split; [exact Hv |].
        split; [intros ? ? ? [] |]. split; [exact Hall |].
        subst m0. cbn. split; [reflexivity |]. split; [reflexivity |].
        split; [reflexivity |]. split; [| split].
        -- intro H. now rewrite H.
        -- intro H. now rewrite H.
        -- reflexivity.
      * exists e. split; [reflexivity |].
        split; [exact (float_ltb_trans _ _ _ E Hlt) |].
        destruct Hfb as [pre [num' [sd' [post [-> [Hs [Hpre Hrest]]]]]]].
        exists ((num, sd) :: pre), num', sd', post.
        split; [reflexivity |]. split; [exact Hs |]. split; [| exact Hrest].
        intros n1 s1 v1 [H | H] Hv1; [| now apply (Hpre n1 s1)].
        injection H as <- <-. rewrite Hv in Hv1. injection Hv1 as <-.
        exact Hlt.
    + destruct (IH bm bs Hbs) as [bm' [bs' [Hrun Hcase]]].
      exists bm', bs'. split; [exact Hrun |].
      destruct Hcase as [[-> [-> Hall]] | [e [-> [Hlt Hfb]]]]; [left | right].
      * split; [reflexivity |]. split; [reflexivity |].
        intros n1 s1 v1 [H | H] Hv1; [| now apply (Hall n1 s1)].
        injection H as <- <-. rewrite Hv in Hv1. injection Hv1 as <-.
        exact E.
      * exists e. split; [reflexivity |]. split; [exact Hlt |].
        destruct Hfb as [pre [num' [sd' [post [-> [Hs [Hpre Hrest]]]]]]].
        exists ((num, sd) :: pre), num', sd', post.
        split; [reflexivity |]. split; [exact Hs |]. split; [| exact Hrest].
        intros n1 s1 v1 [H | H] Hv1; [| now apply (Hpre n1 s1)].
        injection H as <- <-. rewrite Hv in Hv1. injection Hv1 as <-.
        exact (float_not_ltb_trans _ _ _ Hnum Hbs E Hlt).
Qed.

Variable all_bhsa : dict bhsa_data.
Variable all_strongs : dict strongs_data.
Variable unmatched : list str.

(** Inside the loop [unmatched] is not empty, and the progress message is
    written. *)
Lemma progress_written (matched_count : nat) :
  unmatched <> [] ->
  CompleteMapping64.progress matched_count unmatched = Ok tt.
Proof.
  intro H. unfold CompleteMapping64.progress.
  destruct (matched_count mod 100 =? 0); [| reflexivity].
  destruct unmatched; [contradiction | reflexivity].
Qed.

(** The outer loop over distinct lexemes of the corpus that have no entry
    yet. *)
Lemma cover_loop_value64 (lexemes : list str) :
  NoDup lexemes ->
  (forall lex, In lex lexemes -> In lex (dict_keys all_bhsa)) ->
  (lexemes <> [] -> unmatched <> []) ->
  forall bhsa_to_strongs matched_count,
  (forall lex, In lex lexemes -> dict_contains bhsa_to_strongs lex = false) ->
  exists added,
    for_each (CompleteMapping64.cover_step category all_bhsa all_strongs
                unmatched)
             lexemes (bhsa_to_strongs, matched_count)
    = Ok (bhsa_to_strongs ++ added, matched_count + length added)
    /\ subseq (dict_keys added) lexemes
    /\ Forall (fun kv =>
                 exists bhsa,
                   dict_get all_bhsa (fst kv) = Some bhsa
                   /\ best_candidate64 category all_strongs bhsa (snd kv))
              added.
Proof.
  induction lexemes as [|lex0 lexemes IH]; intros Hnd Hkeys Hne m n Hnew.
  - exists []. rewrite app_nil_r, Nat.add_0_r. split; [reflexivity |].
    split; constructor.
  - inversion Hnd as [|? ? Hnotin Hnd']; subst.
    assert (Hun : unmatched <> []) by (apply Hne; discriminate).
    cbn [for_each]. unfold CompleteMapping64.cover_step at 1.
    unfold dict_getitem.
    destruct (dict_get_key all_bhsa lex0 (Hkeys lex0 (or_introl eq_refl)))
      as [bhsa Hbhsa].
    rewrite Hbhsa. cbn [bind].
    destruct (best_loop_value64 bhsa all_strongs None Binary64.d0_0 eq_refl)
      as [bm [bs [Hrun Hcase]]].
    rewrite Hrun. cbn [bind fst].
    assert (Hkeys' : forall lex, In lex lexemes -> In lex (dict_keys all_bhsa))
      by (intros lex H; apply Hkeys; now right).
    destruct Hcase as [[-> [-> Hall]] | [e [-> [Hlt Hfb]]]].
    + destruct (IH Hnd' Hkeys' (fun _ => Hun) m n)
        as [added [Hrun' [Hsub Hbest]]];
        [intros lex H; apply Hnew; now right |].
      exists added. split; [exact Hrun' |].
      split; [now constructor | exact Hbest].
    + cbv zeta. rewrite (progress_written (n + 1) Hun). cbn [bind].
      rewrite (dict_set_new m lex0 e (Hnew lex0 (or_introl eq_refl))).
      destruct (IH Hnd' Hkeys' (fun _ => Hun) (m ++ [(lex0, e)]) (n + 1))
        as [added [Hrun' [Hsub Hbest]]].
      { intros lex H. rewrite dict_contains_app, (Hnew lex (or_intror H)).
        unfold dict_contains. cbn [dict_get orb].
        destruct (Py.str_eqb lex lex0) eqn:Eq; [| reflexivity].
        apply str_eqb_eq in Eq. subst. contradiction. }
      exists ((lex0, e) :: added). cbn [bind]. rewrite Hrun'.
      rewrite <- app_assoc. cbn [app length].
      replace (n + 1 + length added) with (n + S (length added)) by lia.
      split; [reflexivity |]. unfold dict_keys in *. cbn [map fst].
      split; [now constructor |].
      constructor; [| exact Hbest]. exists bhsa. cbn [fst snd].
      split; [exact Hbhsa |]. exists bs. split; [exact Hlt | exact Hfb].
Qed.

End CoverageResult64.

(** X21. The coverage pass with the scores as Python has them, binary64
    floats.  For a corpus with distinct keys the pass never raises; the
    mapping it returns keeps every entry it was given, and the entry of any
    other key is built from the first dictionary entry whose
    [compare_hebrew] score against the lexeme's normal form is maximal, this
    score being above zero: it carries that entry's number, lemma and
    glosses, [round(score, 3)], and the method [fuzzy_match] when
    [score < 0.9] and [consonantal_match] otherwise. *)
Theorem coverage_pass_best_entries (category : codepoint -> string)
        (all_bhsa : CompleteMapping.dict CompleteMapping.bhsa_data)
        (all_strongs : CompleteMapping.dict CompleteMapping.strongs_data)
        (bhsa_to_strongs : CompleteMapping.dict CompleteMapping64.match_entry) :
  NoDup (CompleteMapping.dict_keys all_bhsa) ->
  exists bhsa_to_strongs' matched_count,
    CompleteMapping64.coverage_pass category all_bhsa all_strongs
      bhsa_to_strongs
    = Ok (bhsa_to_strongs', matched_count)
    /\ (forall lex,
          CompleteMapping.dict_contains bhsa_to_strongs lex = true ->
          CompleteMapping.dict_get bhsa_to_strongs' lex
          = CompleteMapping.dict_get bhsa_to_strongs lex)
    /\ (forall lex e,
          CompleteMapping.dict_contains bhsa_to_strongs lex = false ->
          CompleteMapping.dict_get bhsa_to_strongs' lex = Some e ->
          exists bhsa,
            CompleteMapping.dict_get all_bhsa lex = Some bhsa
            /\ best_candidate64 category all_strongs bhsa e).
Proof.
  intro Hnd. unfold CompleteMapping64.coverage_pass. cbv zeta.
  destruct (@cover_loop_value64 category all_bhsa all_strongs
              (CompleteMapping64.unmatched_of all_bhsa bhsa_to_strongs)
              (CompleteMapping64.unmatched_of all_bhsa bhsa_to_strongs)
              ltac:(unfold CompleteMapping64.unmatched_of;
                    now apply NoDup_filter)
              ltac:(intros lex H; apply filter_In in H; tauto)
              (fun H => H)
              bhsa_to_strongs 0) as [added [Hrun [_ Hbest]]].
  { intros lex H. apply filter_In in H. destruct H as [_ H].
    now apply negb_true_iff in H. }
  exists (bhsa_to_strongs ++ added), (length added).
  split; [exact Hrun |]. split.
  - intros lex Hc. rewrite dict_get_app.
    unfold CompleteMapping.dict_contains in Hc.
    now destruct (CompleteMapping.dict_get bhsa_to_strongs lex).
  - intros lex e Hc. rewrite dict_get_app.
    unfold CompleteMapping.dict_contains in Hc.
    destruct (CompleteMapping.dict_get bhsa_to_strongs lex); [discriminate |].
    intro Hget. apply dict_get_in in Hget.
    rewrite Forall_forall in Hbest. exact (Hbest _ Hget).
Qed.

(** The pass on the sample corpus: ahav keeps its entry, melekh gets the
    entry of the identical normal form with score 1.0, David the entry of
    the spelling variant with score 0.85, and the word without Hebrew
    letters gets nothing. *)
Lemma coverage_pass64_sample :
  CompleteMapping64.coverage_pass hebrew_block_category sample_all_bhsa
    sample_all_strongs sample_bhsa_to_strongs64
  = Ok (sample_bhsa_to_strongs64
        ++ [ (melekh_pointed,
              {| CompleteMapping64.strongs := strongs_H4428;
                 CompleteMapping64.strongs_lemma := melekh_pointed;
                 CompleteMapping64.score := Binary64.d1_0;
                 CompleteMapping64.method := "consonantal_match";
                 CompleteMapping64.kjv_glosses := gloss_king |});
             (dvd,
              {| CompleteMapping64.strongs := strongs_H1732;
                 CompleteMapping64.strongs_lemma := dvvd;
                 CompleteMapping64.score := Binary64.d0_85;
                 CompleteMapping64.method := "fuzzy_match";
                 CompleteMapping64.kjv_glosses := gloss_David |}) ],
        2).
Proof. vm_compute. reflexivity. Qed.

(** Seven edits over eight letters: the score [(1.0 - 7/8) * 0.7] is just
    below 0.0875 and the entry gets [round(score, 3)], the float 0.087. *)
Lemma coverage_pass64_rounds_the_float :
  CompleteMapping64.coverage_pass hebrew_block_category
    [ (alef_to_het,
       {| CompleteMapping.voc := alef_to_het;
          CompleteMapping.cons := alef_to_het;
          CompleteMapping.normalized := alef_to_het |}) ]
    [ (CompleteMapping.strongs_H1,
       {| CompleteMapping.lemma := alef_tet_to_samekh;
          CompleteMapping.strongs_normalized := alef_tet_to_samekh;
          CompleteMapping.glosses := [] |}) ]
    []
  = Ok ([ (alef_to_het,
           {| CompleteMapping64.strongs := CompleteMapping.strongs_H1;
              CompleteMapping64.strongs_lemma := alef_tet_to_samekh;
              CompleteMapping64.score := Binary64.div_int 87 1000;
              CompleteMapping64.method := "fuzzy_match";
              CompleteMapping64.kjv_glosses := [] |}) ],
        1).
Proof. vm_compute. reflexivity. Qed.

Lemma coverage_pass_best_entries_witness :
  NoDup (CompleteMapping.dict_keys sample_all_bhsa)
  /\ exists bhsa_to_strongs' matched_count,
       CompleteMapping64.coverage_pass hebrew_block_category
         sample_all_bhsa sample_all_strongs sample_bhsa_to_strongs64
       = Ok (bhsa_to_strongs', matched_count)
       /\ (forall lex,
             CompleteMapping.dict_contains sample_bhsa_to_strongs64 lex
             = true ->
             CompleteMapping.dict_get bhsa_to_strongs' lex
             = CompleteMapping.dict_get sample_bhsa_to_strongs64 lex)
       /\ (forall lex e,
             CompleteMapping.dict_contains sample_bhsa_to_strongs64 lex
             = false ->
             CompleteMapping.dict_get bhsa_to_strongs' lex = Some e ->
             exists bhsa,
               CompleteMapping.dict_get sample_all_bhsa lex = Some bhsa
               /\ best_candidate64 hebrew_block_category
                    sample_all_strongs bhsa e).
Proof.
  split; [exact sample_all_bhsa_nodup |].
  exact (@coverage_pass_best_entries hebrew_block_category sample_all_bhsa
           sample_all_strongs sample_bhsa_to_strongs64 sample_all_bhsa_nodup).
Defined.

(** ** Confidence levels and counters of build_mapping.py *)

Section Confidence.

Import CompleteMapping MappingBuilder.

Variable category : codepoint -> string.
Variable clean_kjv_glosses : option str -> str * list str.
Variable use_bhsa : bool.
Variable bhsa_index : dict (list BuildMapping.Lexeme.t).

(** Whatever the index holds, a match has one of three scores. *)
Lemma find_bhsa_matches_three_scores (strongs_entry : option StrongsEntry.entry) :
  exists matches,
    BuildMapping.find_bhsa_matches category use_bhsa bhsa_index strongs_entry
    = Ok matches
    /\ length matches <= 10
    /\ Forall (fun m => (BuildMapping.Match.score m == 1.0)%Q
                        \/ (BuildMapping.Match.score m == 0.9)%Q
                        \/ (BuildMapping.Match.score m == 0.85)%Q) matches.
Proof.
  destruct (find_bhsa_matches_value category use_bhsa bhsa_index strongs_entry)
    as [ms [Hrun Hall]].
  eexists. split; [exact Hrun |]. split; [apply firstn_le_length |].
  apply forall_firstn.
  apply (Permutation_Forall
           (Permutation_sym (sort_desc_perm BuildMapping.Match.score ms))).
  eapply Forall_impl; [| exact Hall].
  intros m [n [b [lex [v [_ [_ [Hv [Hge ->]]]]]]]].
  cbn [BuildMapping.match_of BuildMapping.Match.score].
  destruct (compare_hebrew_cases category
              (Some (StrongsEntry.extract_strongs_hebrew category strongs_entry
                       StrongsEntry.lemma_field))
              (Some (BuildMapping.Lexeme.normalized lex)) true)
    as [v' [Hv' Hc]].
  rewrite Hv in Hv'. injection Hv' as <-.
  destruct Hc as [[_ ->] | [_ [_ [[_ ->] | [_ [[_ ->] | [_ Hc]]]]]]].
  - exfalso. revert Hge. unfold Qle. simpl. lia.
  - left. reflexivity.
  - right. left. reflexivity.
  - destruct Hc as [[Hf _] | [_ [-> | Hlt]]];
      [discriminate | right; right; reflexivity | exfalso; lra].
Qed.

Lemma geb_true (x y : Q) : PyMore.geb x y = true <-> (y <= x)%Q.
Proof. unfold PyMore.geb. apply Qle_bool_iff. Qed.

Lemma geb_false (x y : Q) : PyMore.geb x y = false <-> (x < y)%Q.
Proof.
  unfold PyMore.geb. split.
  - intro H. apply Qnot_le_lt. intro Hle. apply Qle_bool_iff in Hle. congruence.
  - intro H. destruct (Qle_bool y x) eqn:E; [| reflexivity].
    apply Qle_bool_iff in E. exfalso. exact (Qlt_not_le _ _ H E).
Qed.

(** One entry: the result, and how the counters move. *)
Lemma process_strongs_entry_value (st : stats) (strongs_num : str)
      (entry : StrongsEntry.entry) :
  exists e st',
    process_strongs_entry category clean_kjv_glosses use_bhsa bhsa_index
      st strongs_num entry = Ok (e, st')
    /\ strongs_number e = strongs_num
    /\ strongs_normalized e = normalize_hebrew category (strongs_lemma e)
    /\ entry_confidence e
    /\ total_strongs st' = total_strongs st
    /\ low_confidence st' = low_confidence st
    /\ ((confidence e = "none"%string
         /\ unmatched st' = unmatched st + 1
         /\ matched st' = matched st
         /\ ambiguous st' = ambiguous st
         /\ high_confidence st' = high_confidence st
         /\ medium_confidence st' = medium_confidence st)
        \/ (confidence e <> "none"%string
            /\ unmatched st' = unmatched st
            /\ matched st' = matched st + 1
            /\ ambiguous st'
               = ambiguous st + (if 1 <? match_count e then 1 else 0)
            /\ high_confidence st'
               = high_confidence st
                 + (if String.eqb (confidence e) "high" then 1 else 0)
            /\ medium_confidence st'
               = medium_confidence st
                 + (if String.eqb (confidence e) "medium" then 1 else 0))).
Proof.
  unfold process_strongs_entry. cbv zeta.
  destruct (clean_kjv_glosses _) as [gloss_string gloss_list].
  destruct (find_bhsa_matches_three_scores (Some entry))
    as [ms [Hrun [Hlen Hall]]].
  rewrite Hrun. cbn [bind].
  destruct ms as [|m0 rest].
  - eexists. eexists. split; [reflexivity |]. cbn.
    split; [reflexivity |]. split; [reflexivity |].
    split; [split; [reflexivity |]; split; [exact Hlen |]; left; now split |].
    split; [reflexivity |]. split; [reflexivity |]. left. repeat split.
  - inversion Hall as [|? ? Hm0 _]; subst.
    assert (Hcase :
              ((BuildMapping.Match.score m0 == 1.0)%Q
               /\ PyMore.geb (BuildMapping.Match.score m0) 0.95%Q = true)
              \/ (((BuildMapping.Match.score m0 == 0.9)%Q
                   \/ (BuildMapping.Match.score m0 == 0.85)%Q)
                  /\ PyMore.geb (BuildMapping.Match.score m0) 0.95%Q = false
                  /\ PyMore.geb (BuildMapping.Match.score m0) 0.85%Q = true)).
    { destruct Hm0 as [H | [H | H]].
      - left. split; [exact H |]. apply geb_true. rewrite H. discriminate.
      - right. split; [now left |]. split.
        + apply geb_false. rewrite H. reflexivity.
        + apply geb_true. rewrite H. discriminate.
      - right. split; [now right |]. split.
        + apply geb_false. rewrite H. reflexivity.
        + apply geb_true. rewrite H. discriminate. }
    destruct Hcase as [[Hs Hg] | [Hs [Hg1 Hg2]]].
    + rewrite Hg. eexists. eexists. split; [reflexivity |].
      cbn [strongs_number strongs_normalized strongs_lemma confidence
           match_count fst snd].
      split; [reflexivity |]. split; [reflexivity |]. split.
      { split; [reflexivity |]. split; [exact Hlen |]. right.
        exists m0, rest. split; [reflexivity |]. left. now split. }
      destruct (1 <? length (m0 :: rest)); cbn;
        (split; [reflexivity |]; split; [reflexivity |]; right;
         split; [discriminate |]; repeat split; lia).
    + rewrite Hg1, Hg2. eexists. eexists. split; [reflexivity |].
      cbn [strongs_number strongs_normalized strongs_lemma confidence
           match_count fst snd].
      split; [reflexivity |]. split; [reflexivity |]. split.
      { split; [reflexivity |]. split; [exact Hlen |]. right.
        exists m0, rest. split; [reflexivity |]. right. now split. }
      destruct (1 <? length (m0 :: rest)); cbn;
        (split; [reflexivity |]; split; [reflexivity |]; right;
         split; [discriminate |]; repeat split; lia).
Qed.

End Confidence.

Section BuildLoop.

Import CompleteMapping MappingBuilder.

Variable category : codepoint -> string.
Variable clean_kjv_glosses : option str -> str * list str.
Variable use_bhsa : bool.
Variable bhsa_index : dict (list BuildMapping.Lexeme.t).

Lemma dict_contains_cons {V} (d : dict V) (k k0 : str) (v : V) :
  dict_contains ((k0, v) :: d) k = Py.str_eqb k k0 || dict_contains d k.
Proof.
  unfold dict_contains. cbn [dict_get]. now destruct (Py.str_eqb k k0).
Qed.

(** One entry: the counters alone. *)
Lemma process_strongs_entry_counters (st : stats) (strongs_num : str)
      (entry : StrongsEntry.entry) :
  exists e st',
    process_strongs_entry category clean_kjv_glosses use_bhsa bhsa_index
      st strongs_num entry = Ok (e, st')
    /\ strongs_number e = strongs_num
    /\ entry_confidence e
    /\ total_strongs st' = total_strongs st
    /\ low_confidence st' = low_confidence st
    /\ matched st' + unmatched st' = matched st + unmatched st + 1
    /\ high_confidence st' + medium_confidence st' + matched st
       = high_confidence st + medium_confidence st + matched st'
    /\ matched st <= matched st'
    /\ ambiguous st <= ambiguous st'
    /\ ambiguous st' + matched st <= ambiguous st + matched st'
    /\ (matched st' = matched st <-> bhsa_matches e = []).
Proof.
  destruct (process_strongs_entry_value category clean_kjv_glosses use_bhsa
              bhsa_index st strongs_num entry)
    as [e [st' [Hrun [Hnum [_ [Hconf [Htot [Hlow Hcase]]]]]]]].
  exists e, st'. split; [exact Hrun |]. split; [exact Hnum |].
  split; [exact Hconf |]. split; [exact Htot |]. split; [exact Hlow |].
  destruct Hconf as [_ [_ Hconf]].
  destruct Hcase as [[Hc [H1 [H2 [H3 [H4 H5]]]]] | [Hc [H1 [H2 [H3 [H4 H5]]]]]].
  - assert (Hnil : bhsa_matches e = []).
    { destruct Hconf as [[H _] | [m0 [rest [_ [[_ H] | [_ H]]]]]];
        [exact H | |]; rewrite Hc in H; discriminate. }
    repeat (split; [lia |]). split; [intros _; exact Hnil | intros _; exact H2].
  - assert (Hcons : bhsa_matches e <> []
                    /\ (if String.eqb (confidence e) "high" then 1 else 0)
                       + (if String.eqb (confidence e) "medium" then 1 else 0)
                       = 1).
    { destruct Hconf as [[_ H] | [m0 [rest [Hm [[_ H] | [_ H]]]]]];
        [contradiction | |]; rewrite H, Hm; split;
        [discriminate | reflexivity | discriminate | reflexivity]. }
    destruct Hcons as [Hne Hone].
    destruct (1 <? match_count e);
      (repeat (split; [lia |]); intro; contradiction).
Qed.

(** The progress message raises exactly at a multiple of one hundred with
    [total_strongs] at zero. *)
Lemma progress_value (st : stats) (i : nat) :
  progress st i
  = if (i mod 100 =? 0) && (total_strongs st =? 0)
    then Raise ZeroDivisionError else Ok tt.
Proof.
  unfold progress. destruct (i mod 100 =? 0); [| reflexivity].
  cbn [andb]. unfold Py.truediv.
  now destruct (total_strongs st).
Qed.

(** The loop of [build_mapping] from any state and any first index, when no
    message divides by zero. *)
Lemma build_loop (strongs_data : dict StrongsEntry.entry) :
  forall first mapping st,
  (total_strongs st <> 0
   \/ forall j, first <= j < first + length strongs_data -> j mod 100 <> 0) ->
  exists mapping' st',
    for_enumerate
      (build_step category clean_kjv_glosses use_bhsa bhsa_index)
      first strongs_data (mapping, st) = Ok (mapping', st')
    /\ total_strongs st' = total_strongs st
    /\ low_confidence st' = low_confidence st
    /\ matched st' + unmatched st'
       = matched st + unmatched st + length strongs_data
    /\ high_confidence st' + medium_confidence st' + matched st
       = high_confidence st + medium_confidence st + matched st'
    /\ matched st <= matched st'
    /\ ambiguous st <= ambiguous st'
    /\ ambiguous st' + matched st <= ambiguous st + matched st'
    /\ (forall k, dict_contains mapping' k
                  = dict_contains mapping k || dict_contains strongs_data k)
    /\ (forall k e, In (k, e) mapping' ->
          In (k, e) mapping
          \/ (strongs_number e = k /\ entry_confidence e
              /\ In k (dict_keys strongs_data))).
Proof.
  induction strongs_data as [|[num entry] l IH]; intros first mapping st Hsafe.
  - exists mapping, st. cbn [for_enumerate length]. split; [reflexivity |].
    repeat (split; [lia |]). split.
    + intro k. unfold dict_contains at 3. cbn [dict_get].
      now rewrite orb_false_r.
    + intros k e H. now left.
  - cbn [for_enumerate]. unfold build_step at 1. rewrite progress_value.
    assert (Hmsg : (first mod 100 =? 0) && (total_strongs st =? 0) = false).
    { destruct Hsafe as [Ht | Hj].
      - apply Nat.eqb_neq in Ht. rewrite Ht. apply andb_false_r.
      - assert (Hf : first mod 100 <> 0)
          by (apply Hj; cbn [length]; lia).
        apply Nat.eqb_neq in Hf. now rewrite Hf. }
    rewrite Hmsg. cbn [bind].
    destruct (process_strongs_entry_counters st num entry)
      as [e [st1 [Hrun [Hnum [Hconf [Htot [Hlow [H1 [H2 [H3 [H4 [H5 _]]]]]]]]]]]].
    rewrite Hrun. cbn [bind].
    destruct (IH (S first) (dict_set mapping num e) st1)
      as [m' [st' [Hrun' [Htot' [Hlow' [G1 [G2 [G3 [G4 [G5 [Hc Hin]]]]]]]]]]].
    { destruct Hsafe as [Ht | Hj]; [left; now rewrite Htot | right].
      intros j Hj'. apply Hj. cbn [length]. lia. }
    exists m', st'. split; [exact Hrun' |]. cbn [length].
    repeat (split; [lia |]). split.
    + intro k. rewrite Hc, dict_contains_set, dict_contains_cons.
      destruct (Py.str_eqb k num), (dict_contains mapping k),
        (dict_contains l k); reflexivity.
    + intros k e' H. apply Hin in H.
      destruct H as [H | [Hn [Hcf Hk]]].
      * apply dict_set_in in H. destruct H as [[-> ->] | H]; [right | now left].
        split; [exact Hnum |]. split; [exact Hconf |]. now left.
      * right. split; [exact Hn |]. split; [exact Hcf |]. now right.
Qed.

(** With [total_strongs] at zero the loop raises at the first index that is
    a multiple of one hundred. *)
Lemma build_loop_raises (strongs_data : dict StrongsEntry.entry) :
  forall first mapping st,
  total_strongs st = 0 ->
  (exists j, first <= j < first + length strongs_data /\ j mod 100 = 0) ->
  for_enumerate
    (build_step category clean_kjv_glosses use_bhsa bhsa_index)
    first strongs_data (mapping, st) = Raise ZeroDivisionError.
Proof.
  induction strongs_data as [|[num entry] l IH];
    intros first mapping st Hzero [j [Hj Hmod]].
  - cbn [length] in Hj. lia.
  - cbn [for_enumerate]. unfold build_step at 1. rewrite progress_value.
    rewrite Hzero. cbn [Nat.eqb]. rewrite andb_true_r.
    destruct (first mod 100 =? 0) eqn:Ef; [reflexivity |].
    cbn [bind].
    destruct (process_strongs_entry_counters st num entry)
      as [e [st1 [Hrun [_ [_ [Htot _]]]]]].
    rewrite Hrun. cbn [bind].
    apply IH; [now rewrite Htot |].
    exists j. split; [| exact Hmod].
    apply Nat.eqb_neq in Ef. cbn [length] in Hj.
    assert (j <> first) by congruence. lia.
Qed.

End BuildLoop.

(** X22. [process_strongs_entry] never raises, and its confidence is never
    ['low']: a match has passed the threshold [0.7], so its score is [1.0],
    [0.9] or [0.85]; the entry is ['high'] when the first match scores
    [1.0], ['medium'] when it scores [0.9] or [0.85], and ['none'] exactly
    when there is no match.  [match_count] is the number of matches, at most
    ten.  Of the counters, [low_confidence] never moves; exactly one of
    [matched] and [unmatched] grows by one, [matched] exactly when there is
    a match, and then one of [high_confidence] and [medium_confidence]
    grows by one as well. *)
Theorem process_strongs_entry_confidence (category : codepoint -> string)
        (clean_kjv_glosses : option str -> str * list str)
        (use_bhsa : bool)
        (bhsa_index : CompleteMapping.dict (list BuildMapping.Lexeme.t))
        (st : MappingBuilder.stats) (strongs_num : str)
        (entry : StrongsEntry.entry) :
  exists e st',
    MappingBuilder.process_strongs_entry category clean_kjv_glosses use_bhsa
      bhsa_index st strongs_num entry = Ok (e, st')
    /\ entry_confidence e
    /\ MappingBuilder.confidence e <> "low"%string
    /\ (MappingBuilder.confidence e = "none"%string
        <-> MappingBuilder.bhsa_matches e = [])
    /\ MappingBuilder.low_confidence st' = MappingBuilder.low_confidence st
    /\ MappingBuilder.matched st' + MappingBuilder.unmatched st'
       = MappingBuilder.matched st + MappingBuilder.unmatched st + 1
    /\ (MappingBuilder.matched st' = MappingBuilder.matched st
        <-> MappingBuilder.bhsa_matches e = [])
    /\ MappingBuilder.high_confidence st' + MappingBuilder.medium_confidence st'
       + MappingBuilder.matched st
       = MappingBuilder.high_confidence st + MappingBuilder.medium_confidence st
         + MappingBuilder.matched st'.
Proof.
  destruct (process_strongs_entry_counters category clean_kjv_glosses use_bhsa
              bhsa_index st strongs_num entry)
    as [e [st' [Hrun [_ [Hconf [_ [Hlow [H1 [H2 [_ [_ [_ H3]]]]]]]]]]]].
  exists e, st'. split; [exact Hrun |]. split; [exact Hconf |].
  destruct Hconf as [_ [_ Hconf]].
  split; [| split; [| split; [exact Hlow | split; [exact H1 | split;
                                  [exact H3 | exact H2]]]]].
  - destruct Hconf as [[_ H] | [m0 [rest [_ [[_ H] | [_ H]]]]]];
      rewrite H; discriminate.
  - destruct Hconf as [[Hn H] | [m0 [rest [Hm [[_ H] | [_ H]]]]]].
    + split; intros _; assumption.
    + rewrite H, Hm. split; discriminate.
    + rewrite H, Hm. split; discriminate.
Qed.

(** X23. [build_mapping] and its progress message.  Every hundredth entry
    the loop formats [100*i/self.stats['total_strongs']]: with
    [total_strongs] at zero, as [__init__] leaves it, and a hundred entries
    or more, [build_mapping] raises [ZeroDivisionError] (at the hundredth
    entry).  In every other case, so whenever [load_strongs_data] has set
    [total_strongs] to the number of entries, it returns, and over the
    whole loop [matched + unmatched] grows by the number of dictionary
    entries, [high_confidence + medium_confidence] grows as much as
    [matched], [ambiguous] grows at most as much as [matched], and
    [low_confidence] and [total_strongs] do not move; the mapping has
    exactly the keys of the dictionary, and every entry carries its own
    number and a confidence that agrees with its matches. *)
Theorem build_mapping_counters (category : codepoint -> string)
        (clean_kjv_glosses : option str -> str * list str)
        (use_bhsa : bool)
        (bhsa_index : CompleteMapping.dict (list BuildMapping.Lexeme.t))
        (strongs_data : CompleteMapping.dict StrongsEntry.entry)
        (st : MappingBuilder.stats) :
  (MappingBuilder.total_strongs st = 0 /\ 100 <= length strongs_data
   /\ MappingBuilder.build_mapping category clean_kjv_glosses use_bhsa
        bhsa_index strongs_data [] st = Raise ZeroDivisionError)
  \/ ((MappingBuilder.total_strongs st <> 0 \/ length strongs_data < 100)
      /\ exists mapping st',
          MappingBuilder.build_mapping category clean_kjv_glosses use_bhsa
            bhsa_index strongs_data [] st
          = Ok (mapping, st')
          /\ MappingBuilder.total_strongs st' = MappingBuilder.total_strongs st
          /\ MappingBuilder.low_confidence st'
             = MappingBuilder.low_confidence st
          /\ MappingBuilder.matched st' + MappingBuilder.unmatched st'
             = MappingBuilder.matched st + MappingBuilder.unmatched st
               + length strongs_data
          /\ MappingBuilder.high_confidence st'
             + MappingBuilder.medium_confidence st'
             + MappingBuilder.matched st
             = MappingBuilder.high_confidence st
               + MappingBuilder.medium_confidence st
               + MappingBuilder.matched st'
          /\ MappingBuilder.ambiguous st <= MappingBuilder.ambiguous st'
          /\ MappingBuilder.ambiguous st' + MappingBuilder.matched st
             <= MappingBuilder.ambiguous st + MappingBuilder.matched st'
          /\ (forall k, CompleteMapping.dict_contains mapping k
                        = CompleteMapping.dict_contains strongs_data k)
          /\ (forall k e, In (k, e) mapping ->
                MappingBuilder.strongs_number e = k /\ entry_confidence e)).
Proof.
  unfold MappingBuilder.build_mapping.
  destruct (Nat.eq_dec (MappingBuilder.total_strongs st) 0) as [Hz | Hnz].
  - destruct (le_lt_dec 100 (length strongs_data)) as [Hlen | Hlen].
    + left. split; [exact Hz |]. split; [exact Hlen |].
      apply build_loop_raises; [exact Hz |].
      exists 100. split; [lia | reflexivity].
    + right. split; [now right |].
      destruct (@build_loop category clean_kjv_glosses use_bhsa bhsa_index
                  strongs_data 1 [] st)
        as [m [st' [Hrun [Htot [Hlow [H1 [H2 [_ [H3 [H4 [Hc Hin]]]]]]]]]]].
      { right. intros j Hj. rewrite Nat.mod_small by lia. lia. }
      exists m, st'. split; [exact Hrun |].
      split; [exact Htot |]. split; [exact Hlow |]. split; [exact H1 |].
      split; [exact H2 |]. split; [exact H3 |]. split; [exact H4 |].
      split; [intro k; now rewrite Hc |].
      intros k e H. destruct (Hin k e H) as [[] | [Hn [Hcf _]]]. now split.
  - right. split; [now left |].
    destruct (@build_loop category clean_kjv_glosses use_bhsa bhsa_index
                strongs_data 1 [] st (or_introl Hnz))
      as [m [st' [Hrun [Htot [Hlow [H1 [H2 [_ [H3 [H4 [Hc Hin]]]]]]]]]]].
    exists m, st'. split; [exact Hrun |].
    split; [exact Htot |]. split; [exact Hlow |]. split; [exact H1 |].
    split; [exact H2 |]. split; [exact H3 |]. split; [exact H4 |].
    split; [intro k; now rewrite Hc |].
    intros k e H. destruct (Hin k e H) as [[] | [Hn [Hcf _]]]. now split.
Qed.

(** ** The steps of create_complete_bhsa_mapping.py *)

Section FirstWins.

Import CompleteMapping.

Variables A V : Type.
Variable key : A -> str.
Variable val : A -> V.

(** A loop that stores [val x] under [key x] unless the key is empty or
    already present. *)
Lemma first_wins_loop (l : list A) :
  forall d : dict V,
  NoDup (dict_keys d) ->
  NoDup (dict_keys
           (fold_left (fun d x =>
                         if negb (PyMore.str_not (key x))
                            && negb (dict_contains d (key x))
                         then dict_set d (key x) (val x) else d) l d))
  /\ forall k,
      dict_get (fold_left (fun d x =>
                             if negb (PyMore.str_not (key x))
                                && negb (dict_contains d (key x))
                             then dict_set d (key x) (val x) else d) l d) k
      = match dict_get d k with
        | Some v => Some v
        | None =>
            if PyMore.str_not k then None
            else option_map val (find (fun x => Py.str_eqb (key x) k) l)
        end.
Proof.
  induction l as [|x l IH]; intros d Hnd.
  - cbn [fold_left find option_map]. split; [exact Hnd |].
    intro k. destruct (dict_get d k); [reflexivity |].
    now destruct (PyMore.str_not k).
  - cbn [fold_left find].
    destruct (negb (PyMore.str_not (key x)) && negb (dict_contains d (key x)))
      eqn:Et.
    + apply andb_true_iff in Et. destruct Et as [Hne Hnew].
      apply negb_true_iff in Hne. apply negb_true_iff in Hnew.
      destruct (IH (dict_set d (key x) (val x)) (dict_set_nodup _ _ _ Hnd))
        as [Hnd' Hget].
      split; [exact Hnd' |]. intro k. rewrite Hget, dict_get_set.
      rewrite (str_eqb_sym (key x) k).
      destruct (Py.str_eqb k (key x)) eqn:Ek.
      * apply str_eqb_eq in Ek. subst k. unfold dict_contains in Hnew.
        destruct (dict_get d (key x)); [discriminate |].
        now rewrite Hne.
      * reflexivity.
    + destruct (IH d Hnd) as [Hnd' Hget].
      split; [exact Hnd' |]. intro k. rewrite Hget.
      destruct (dict_get d k) eqn:Ed; [reflexivity |].
      destruct (PyMore.str_not k) eqn:En; [reflexivity |].
      destruct (Py.str_eqb (key x) k) eqn:Ek; [| reflexivity].
      apply str_eqb_eq in Ek. subst k. rewrite En in Et.
      unfold dict_contains in Et. rewrite Ed in Et. discriminate.
Qed.

End FirstWins.

Lemma fold_left_map {A B C} (f : A -> B -> A) (g : C -> B) (l : list C) :
  forall a, fold_left f (map g l) a = fold_left (fun a x => f a (g x)) l a.
Proof. induction l as [|x l IH]; intro a; cbn; [reflexivity | apply IH]. Qed.

Lemma dict_empty_get {V} (d : CompleteMapping.dict V) :
  (forall k, CompleteMapping.dict_get d k = None) -> d = [].
Proof.
  destruct d as [|[k v] d]; [reflexivity |].
  intro H. specialize (H k). cbn [CompleteMapping.dict_get] in H.
  now rewrite str_eqb_refl in H.
Qed.

Section CreateCompleteSteps.

Import CompleteMapping CreateComplete.

(** Step 1 visits the matches in the order of [all_matches]. *)
Lemma reverse_mapping_fold (strongs_mapping : dict Entry.t) :
  forall d,
  fold_left reverse_entry_step strongs_mapping d
  = fold_left (fun d x =>
                 if negb (PyMore.str_not (BuildMapping.Match.bhsa_voc (snd x)))
                    && negb (dict_contains d
                               (BuildMapping.Match.bhsa_voc (snd x)))
                 then dict_set d (BuildMapping.Match.bhsa_voc (snd x))
                        (exact_entry x)
                 else d)
              (all_matches strongs_mapping) d.
Proof.
  induction strongs_mapping as [|[num entry] l IH]; intro d; [reflexivity |].
  cbn [fold_left all_matches flat_map]. rewrite fold_left_app, <- IH.
  f_equal. unfold reverse_entry_step. rewrite fold_left_map. reflexivity.
Qed.

Lemma reverse_mapping_value (strongs_mapping : dict Entry.t) :
  NoDup (dict_keys (reverse_mapping strongs_mapping))
  /\ forall k,
      dict_get (reverse_mapping strongs_mapping) k
      = if PyMore.str_not k then None
        else option_map exact_entry (first_match strongs_mapping k).
Proof.
  unfold reverse_mapping. rewrite reverse_mapping_fold.
  destruct (first_wins_loop
              (fun x : str * Entry.t * BuildMapping.Match.t =>
                 BuildMapping.Match.bhsa_voc (snd x))
              exact_entry (all_matches strongs_mapping) []
              (NoDup_nil _)) as [Hnd Hget].
  split; [exact Hnd |]. intro k. rewrite Hget. reflexivity.
Qed.

Lemma reverse_mapping_methods (strongs_mapping : dict Entry.t) :
  forall k e, In (k, e) (reverse_mapping strongs_mapping) ->
              method e = "exact_match"%string.
Proof.
  intros k e Hin.
  destruct (reverse_mapping_value strongs_mapping) as [Hnd Hget].
  apply (dict_in_get _ _ _ Hnd) in Hin. rewrite Hget in Hin.
  destruct (PyMore.str_not k); [discriminate |].
  destruct (first_match strongs_mapping k); [| discriminate].
  injection Hin as <-. reflexivity.
Qed.

Variable category : codepoint -> string.
Variables lex_lines voc_lex_lines : list str.

Lemma getitem_nth {A} (l : list A) (i : nat) (d : A) :
  i < length l -> Py.getitem l i = Ok (nth i l d).
Proof.
  intro H. unfold Py.getitem.
  destruct (nth_error l i) eqn:E.
  - now rewrite (nth_error_nth _ _ d E).
  - apply nth_error_None in E. lia.
Qed.

(** Step 2 never raises: every index it reads is in range. *)
Lemma load_all_bhsa_fold (indices : list nat) :
  (forall i, In i indices -> i < length lex_lines) ->
  forall d,
  for_each (bhsa_step category lex_lines voc_lex_lines) indices d
  = Ok (fold_left
          (fun d i =>
             if negb (PyMore.str_not (nth i voc_lex_lines []))
                && negb (dict_contains d (nth i voc_lex_lines []))
             then dict_set d (nth i voc_lex_lines [])
                    {| voc := nth i voc_lex_lines [];
                       cons := nth i lex_lines [];
                       normalized :=
                         normalize_hebrew category
                           (Some (nth i voc_lex_lines [])) |}
             else d) indices d).
Proof.
  induction indices as [|i l IH]; intros Hin d; [reflexivity |].
  cbn [for_each fold_left]. unfold bhsa_step at 1.
  assert (Hvoc : (if i <? length voc_lex_lines
                  then Py.getitem voc_lex_lines i else Ok [])
                 = Ok (nth i voc_lex_lines [])).
  { destruct (i <? length voc_lex_lines) eqn:E.
    - apply Nat.ltb_lt in E. now apply getitem_nth.
    - apply Nat.ltb_ge in E. now rewrite nth_overflow. }
  rewrite Hvoc. cbn [bind].
  rewrite (getitem_nth lex_lines [] (Hin i (or_introl eq_refl))). cbn [bind].
  destruct (negb _ && negb _); cbn [bind]; apply IH;
    intros j Hj; apply Hin; now right.
Qed.

Lemma load_all_bhsa_value :
  exists all_bhsa,
    load_all_bhsa category lex_lines voc_lex_lines = Ok all_bhsa
    /\ NoDup (dict_keys all_bhsa)
    /\ forall k,
        dict_get all_bhsa k
        = if PyMore.str_not k then None
          else option_map
                 (fun i => {| voc := k;
                              cons := nth i lex_lines [];
                              normalized :=
                                normalize_hebrew category (Some k) |})
                 (first_line lex_lines voc_lex_lines k).
Proof.
  unfold load_all_bhsa. rewrite load_all_bhsa_fold.
  2:{ intros i Hi. apply in_seq in Hi.
      pose proof (Nat.le_min_l (length lex_lines) BuildMapping.word_limit).
      lia. }
  eexists. split; [reflexivity |].
  destruct (first_wins_loop
              (fun i : nat => nth i voc_lex_lines [])
              (fun i : nat =>
                 {| voc := nth i voc_lex_lines [];
                    cons := nth i lex_lines [];
                    normalized :=
                      normalize_hebrew category
                        (Some (nth i voc_lex_lines [])) |})
              (seq 0 (Nat.min (length lex_lines) BuildMapping.word_limit))
              [] (NoDup_nil _)) as [Hnd Hget].
  split; [exact Hnd |]. intro k. rewrite Hget. cbn [dict_get].
  destruct (PyMore.str_not k); [reflexivity |]. unfold first_line.
  destruct (find _ _) as [i|] eqn:Ef; [| reflexivity].
  apply find_some in Ef. destruct Ef as [_ Ef]. apply str_eqb_eq in Ef.
  cbn [option_map]. now rewrite Ef.
Qed.

(** [all_bhsa] is empty exactly when no line read has a vocalised lexeme. *)
Lemma load_all_bhsa_empty (all_bhsa : dict bhsa_data) :
  load_all_bhsa category lex_lines voc_lex_lines = Ok all_bhsa ->
  (all_bhsa = []
   <-> forall i, i < Nat.min (length lex_lines) BuildMapping.word_limit ->
                 nth i voc_lex_lines [] = []).
Proof.
  intro Hrun. destruct load_all_bhsa_value as [d [Hrun' [_ Hget]]].
  rewrite Hrun in Hrun'. injection Hrun' as <-. split.
  - intros -> i Hi. specialize (Hget (nth i voc_lex_lines [])).
    cbn [dict_get] in Hget.
    destruct (nth i voc_lex_lines []) as [|c k] eqn:Ek; [reflexivity |].
    cbn [PyMore.str_not] in Hget. unfold first_line in Hget.
    destruct (find _ _) eqn:Ef; [discriminate |].
    pose proof (find_none _ _ Ef i ltac:(apply in_seq; lia)) as Hn.
    cbv beta in Hn. rewrite Ek, str_eqb_refl in Hn. discriminate.
  - intro Hall. apply dict_empty_get. intro k. rewrite Hget.
    destruct (PyMore.str_not k) eqn:En; [reflexivity |].
    unfold first_line. destruct (find _ _) as [i|] eqn:Ef; [| reflexivity].
    apply find_some in Ef. destruct Ef as [Hi Ef]. apply in_seq in Hi.
    apply str_eqb_eq in Ef. rewrite Hall in Ef by lia. subst k. discriminate.
Qed.

End CreateCompleteSteps.

Section CreateCompleteWhole.

Import CompleteMapping CreateComplete.

Lemma count_values_app (p : match_entry -> bool) (d1 d2 : dict match_entry) :
  count_values p (d1 ++ d2) = count_values p d1 + count_values p d2.
Proof.
  unfold count_values. now rewrite map_app, filter_app, length_app.
Qed.

Lemma count_values_all (p : match_entry -> bool) (d : dict match_entry) :
  (forall k e, In (k, e) d -> p e = true) -> count_values p d = length d.
Proof.
  unfold count_values. induction d as [|[k e] d IH]; intro H; [reflexivity |].
  cbn [map snd filter]. rewrite (H k e (or_introl eq_refl)). cbn [length].
  f_equal. apply IH. intros k' e' Hin. apply (H k' e'). now right.
Qed.

Lemma count_values_none (p : match_entry -> bool) (d : dict match_entry) :
  (forall k e, In (k, e) d -> p e = false) -> count_values p d = 0.
Proof.
  unfold count_values. induction d as [|[k e] d IH]; intro H; [reflexivity |].
  cbn [map snd filter]. rewrite (H k e (or_introl eq_refl)).
  apply IH. intros k' e' Hin. apply (H k' e'). now right.
Qed.

(** The three confidence classes partition any mapping. *)
Lemma confidence_partition (d : dict match_entry) :
  count_values (fun v => PyMore.geb (score v) 0.9%Q) d
  + count_values (fun v => PyMore.geb (score v) 0.7%Q
                           && Py.ltb (score v) 0.9%Q) d
  + count_values (fun v => Py.ltb (score v) 0.7%Q) d
  = length d.
Proof.
  unfold count_values. induction d as [|[k e] d IH]; [reflexivity |].
  cbn [map snd filter length].
  destruct (PyMore.geb (score e) 0.9%Q) eqn:E1;
    destruct (PyMore.geb (score e) 0.7%Q) eqn:E2;
    destruct (Py.ltb (score e) 0.9%Q) eqn:E3;
    destruct (Py.ltb (score e) 0.7%Q) eqn:E4;
    cbn [andb length]; try lia; exfalso;
    repeat match goal with
           | H : PyMore.geb _ _ = true |- _ => apply geb_true in H
           | H : PyMore.geb _ _ = false |- _ => apply geb_false in H
           | H : Py.ltb _ _ = true |- _ => apply py_ltb_lt in H
           | H : Py.ltb ?a ?b = false |- _ =>
               assert (b <= a)%Q
                 by (apply Qnot_lt_le; intro Hlt; apply py_ltb_lt in Hlt;
                     congruence);
               clear H
           end; lra.
Qed.

Variable category : codepoint -> string.

Lemma best_candidate_method
      (all_strongs : dict strongs_data) (bhsa : bhsa_data) (e : match_entry) :
  best_candidate category all_strongs bhsa e ->
  method e = "fuzzy_match"%string \/ method e = "consonantal_match"%string.
Proof.
  intros [v [_ [pre [num [sd [post [_ [_ [_ [_ [_ [_ [_ [Hf [Hc _]]]]]]]]]]]]]]].
  destruct (Qlt_le_dec v 0.9) as [H | H]; [left; now apply Hf |].
  right. now apply Hc.
Qed.

Variable strongs_mapping : dict Entry.t.
Variables lex_lines voc_lex_lines : list str.

(** The whole function up to the division. *)
Lemma create_complete_value :
  exists all_bhsa added,
    load_all_bhsa category lex_lines voc_lex_lines = Ok all_bhsa
    /\ coverage_pass category all_bhsa (all_strongs_of strongs_mapping)
         (reverse_mapping strongs_mapping)
       = Ok (reverse_mapping strongs_mapping ++ added, length added)
    /\ Forall (fun kv =>
                 method (snd kv) = "fuzzy_match"%string
                 \/ method (snd kv) = "consonantal_match"%string) added
    /\ create_complete_bhsa_to_strongs category strongs_mapping lex_lines
         voc_lex_lines
       = (q <- Binary64.truediv
                 (100 * length (reverse_mapping strongs_mapping ++ added))
                 (length all_bhsa) ;;
          Ok (reverse_mapping strongs_mapping ++ added,
              {| total_bhsa_lexemes := length all_bhsa;
                 total_matched :=
                   length (reverse_mapping strongs_mapping ++ added);
                 coverage := Binary64.round q 2;
                 exact_match := length (reverse_mapping strongs_mapping);
                 consonantal_match :=
                   count_values
                     (fun v => String.eqb (method v) "consonantal_match")
                     added;
                 fuzzy_match :=
                   count_values
                     (fun v => String.eqb (method v) "fuzzy_match") added;
                 high :=
                   count_values (fun v => PyMore.geb (score v) 0.9%Q)
                     (reverse_mapping strongs_mapping ++ added);
                 medium :=
                   count_values (fun v => PyMore.geb (score v) 0.7%Q
                                          && Py.ltb (score v) 0.9%Q)
                     (reverse_mapping strongs_mapping ++ added);
                 low :=
                   count_values (fun v => Py.ltb (score v) 0.7%Q)
                     (reverse_mapping strongs_mapping ++ added) |})).
Proof.
  destruct (load_all_bhsa_value category lex_lines voc_lex_lines)
    as [all_bhsa [Hload [Hnd _]]].
  destruct (coverage_pass_value category all_bhsa
              (all_strongs_of strongs_mapping)
              (reverse_mapping strongs_mapping) Hnd)
    as [added [Hrun [_ [Hbest _]]]].
  assert (Hmeth : Forall (fun kv =>
                            method (snd kv) = "fuzzy_match"%string
                            \/ method (snd kv) = "consonantal_match"%string)
                         added).
  { eapply Forall_impl; [| exact Hbest].
    intros kv [bhsa [_ Hb]]. exact (best_candidate_method Hb). }
  exists all_bhsa, added. split; [exact Hload |]. split; [exact Hrun |].
  split; [exact Hmeth |].
  unfold create_complete_bhsa_to_strongs. cbv zeta.
  rewrite Hload. cbn [bind]. rewrite Hrun. cbn [bind].
  rewrite !count_values_app.
  assert (Hrev := reverse_mapping_methods strongs_mapping).
  rewrite Forall_forall in Hmeth.
  rewrite (count_values_all (fun v => String.eqb (method v) "exact_match")
             (reverse_mapping strongs_mapping))
    by (intros k e H; now rewrite (Hrev k e H)).
  rewrite (count_values_none (fun v => String.eqb (method v) "exact_match")
             added)
    by (intros k e H; destruct (Hmeth _ H) as [Hm | Hm]; cbn [snd] in Hm;
        now rewrite Hm).
  rewrite (count_values_none
             (fun v => String.eqb (method v) "consonantal_match")
             (reverse_mapping strongs_mapping))
    by (intros k e H; now rewrite (Hrev k e H)).
  rewrite (count_values_none (fun v => String.eqb (method v) "fuzzy_match")
             (reverse_mapping strongs_mapping))
    by (intros k e H; now rewrite (Hrev k e H)).
  rewrite Nat.add_0_r. reflexivity.
Qed.

Lemma method_partition (added : dict match_entry) :
  Forall (fun kv =>
            method (snd kv) = "fuzzy_match"%string
            \/ method (snd kv) = "consonantal_match"%string) added ->
  count_values (fun v => String.eqb (method v) "consonantal_match") added
  + count_values (fun v => String.eqb (method v) "fuzzy_match") added
  = length added.
Proof.
  unfold count_values. induction 1 as [|[k e] d [Hm | Hm] _ IH];
    [reflexivity | |]; cbn [snd] in Hm; cbn [map snd filter];
    rewrite Hm; cbn [String.eqb Ascii.eqb Bool.eqb andb length]; cbn; lia.
Qed.

End CreateCompleteWhole.

Lemma load_all_bhsa_nonempty (category : codepoint -> string)
      (lex_lines voc_lex_lines : list str)
      (all_bhsa : CompleteMapping.dict CompleteMapping.bhsa_data) :
  CreateComplete.load_all_bhsa category lex_lines voc_lex_lines = Ok all_bhsa ->
  (all_bhsa <> []
   <-> exists i, i < Nat.min (length lex_lines) BuildMapping.word_limit
                 /\ nth i voc_lex_lines [] <> []).
Proof.
  intro Hrun. split.
  - intro Hne.
    destruct (load_all_bhsa_value category lex_lines voc_lex_lines)
      as [d [Hrun' [_ Hget]]].
    rewrite Hrun in Hrun'. injection Hrun' as <-.
    destruct all_bhsa as [|[k v] d]; [contradiction |].
    specialize (Hget k). cbn [CompleteMapping.dict_get] in Hget.
    rewrite str_eqb_refl in Hget.
    destruct k as [|c k]; [discriminate |]. cbn [PyMore.str_not] in Hget.
    unfold first_line in Hget.
    destruct (find _ _) as [i|] eqn:Ef; [| discriminate].
    apply find_some in Ef. destruct Ef as [Hi Ef]. apply in_seq in Hi.
    apply str_eqb_eq in Ef. exists i. split; [lia |]. rewrite Ef. discriminate.
  - intros [i [Hi Hv]] ->.
    apply Hv. now apply (proj1 (load_all_bhsa_empty category lex_lines
                                  voc_lex_lines Hrun) eq_refl).
Qed.

(** X24. Step 1 of [create_complete_bhsa_to_strongs] (the reverse mapping):
    the first match wins.  The keys are distinct; the empty string is never
    a key; the entry of a non-empty key is the one built from the first
    match of the file, in reading order, whose [bhsa_voc] is the key, with
    the number, lemma and glosses of the entry that holds the match, the
    match's score and the method [exact_match]; a form that no match
    carries has no entry. *)
Theorem reverse_mapping_first_match
        (strongs_mapping : CompleteMapping.dict CreateComplete.Entry.t) :
  NoDup (CompleteMapping.dict_keys
           (CreateComplete.reverse_mapping strongs_mapping))
  /\ (forall k,
        CompleteMapping.dict_get
          (CreateComplete.reverse_mapping strongs_mapping) k
        = if PyMore.str_not k then None
          else option_map exact_entry (first_match strongs_mapping k))
  /\ (forall k e,
        In (k, e) (CreateComplete.reverse_mapping strongs_mapping) ->
        k <> []
        /\ CompleteMapping.method e = "exact_match"%string
        /\ exists x,
             In x (all_matches strongs_mapping)
             /\ BuildMapping.Match.bhsa_voc (snd x) = k
             /\ e = exact_entry x).
Proof.
  destruct (reverse_mapping_value strongs_mapping) as [Hnd Hget].
  split; [exact Hnd |]. split; [exact Hget |].
  intros k e Hin. apply (dict_in_get _ _ _ Hnd) in Hin. rewrite Hget in Hin.
  destruct k as [|c k]; [discriminate |]. cbn [PyMore.str_not] in Hin.
  unfold first_match in Hin.
  destruct (find _ _) as [x|] eqn:Ef; [| discriminate].
  injection Hin as <-. apply find_some in Ef. destruct Ef as [Hx Ef].
  apply str_eqb_eq in Ef.
  split; [discriminate |]. split; [reflexivity |]. now exists x.
Qed.

(** X25. Step 2 (the lexemes of the corpus) never raises: no index is out
    of range, whatever the lengths of the two line lists.  [all_bhsa] has
    distinct keys; the empty string is never a key; the entry of a non-empty
    key [k] comes from the first line read whose vocalised lexeme is [k]:
    [voc] is [k], [cons] the consonantal lexeme of that line and
    [normalized] the normal form of [k]; and [all_bhsa] is empty exactly
    when every line read has an empty vocalised lexeme. *)
Theorem load_all_bhsa_first_lines (category : codepoint -> string)
        (lex_lines voc_lex_lines : list str) :
  exists all_bhsa,
    CreateComplete.load_all_bhsa category lex_lines voc_lex_lines = Ok all_bhsa
    /\ NoDup (CompleteMapping.dict_keys all_bhsa)
    /\ (forall k,
          CompleteMapping.dict_get all_bhsa k
          = if PyMore.str_not k then None
            else option_map
                   (fun i =>
                      {| CompleteMapping.voc := k;
                         CompleteMapping.cons := nth i lex_lines [];
                         CompleteMapping.normalized :=
                           normalize_hebrew category (Some k) |})
                   (first_line lex_lines voc_lex_lines k))
    /\ (all_bhsa = []
        <-> forall i,
              i < Nat.min (length lex_lines) BuildMapping.word_limit ->
              nth i voc_lex_lines [] = []).
Proof.
  destruct (load_all_bhsa_value category lex_lines voc_lex_lines)
    as [all_bhsa [Hload [Hnd Hget]]].
  exists all_bhsa. split; [exact Hload |]. split; [exact Hnd |].
  split; [exact Hget |].
  exact (load_all_bhsa_empty category lex_lines voc_lex_lines Hload).
Qed.

(** X26. [create_complete_bhsa_to_strongs] raises [ZeroDivisionError], at
    the computation of the coverage, exactly when none of the first
    [min(len(lex_lines), 426590)] lines has a vocalised lexeme (so also for
    empty files); it returns exactly when one of them has.  No other
    exception is possible. *)
Theorem create_complete_zero_division (category : codepoint -> string)
        (strongs_mapping : CompleteMapping.dict CreateComplete.Entry.t)
        (lex_lines voc_lex_lines : list str) :
  (CreateComplete.create_complete_bhsa_to_strongs category strongs_mapping
     lex_lines voc_lex_lines = Raise ZeroDivisionError
   <-> forall i, i < Nat.min (length lex_lines) BuildMapping.word_limit ->
                 nth i voc_lex_lines [] = [])
  /\ ((exists bhsa_to_strongs summary,
         CreateComplete.create_complete_bhsa_to_strongs category
           strongs_mapping lex_lines voc_lex_lines
         = Ok (bhsa_to_strongs, summary))
      <-> exists i, i < Nat.min (length lex_lines) BuildMapping.word_limit
                    /\ nth i voc_lex_lines [] <> []).
Proof.
  destruct (create_complete_value category strongs_mapping lex_lines
              voc_lex_lines) as [all_bhsa [added [Hload [_ [_ Hval]]]]].
  rewrite Hval.
  pose proof (load_all_bhsa_empty category lex_lines voc_lex_lines Hload)
    as Hempty.
  pose proof (load_all_bhsa_nonempty category lex_lines voc_lex_lines Hload)
    as Hnonempty.
  destruct all_bhsa as [|kv all_bhsa]; cbn [length Binary64.truediv bind].
  - split; split.
    + intros _. now apply Hempty.
    + reflexivity.
    + intros [m [sm H]]. discriminate.
    + intro H. apply Hnonempty in H. contradiction.
  - split; split.
    + discriminate.
    + intro H. apply Hempty in H. discriminate.
    + intros _. apply Hnonempty. discriminate.
    + intros _. eexists. eexists. reflexivity.
Qed.

(** X27. When one of the lines read has a vocalised lexeme,
    [create_complete_bhsa_to_strongs] returns a mapping that starts with
    the reverse mapping of step 1, and a summary in which [total_matched] is
    the size of the mapping, [total_bhsa_lexemes] is not zero,
    [exact_match] is the size of the reverse mapping, the three methods add
    up to [total_matched], the three confidence classes add up to
    [total_matched], and [coverage] is
    [round(100 * total_matched / total_bhsa_lexemes, 2)], the quotient and
    the rounding being those of binary64 floats. *)
Theorem create_complete_summary (category : codepoint -> string)
        (strongs_mapping : CompleteMapping.dict CreateComplete.Entry.t)
        (lex_lines voc_lex_lines : list str) :
  (exists i, i < Nat.min (length lex_lines) BuildMapping.word_limit
             /\ nth i voc_lex_lines [] <> []) ->
  exists bhsa_to_strongs summary,
    CreateComplete.create_complete_bhsa_to_strongs category strongs_mapping
      lex_lines voc_lex_lines = Ok (bhsa_to_strongs, summary)
    /\ (exists added,
          bhsa_to_strongs
          = CreateComplete.reverse_mapping strongs_mapping ++ added)
    /\ CreateComplete.total_matched summary = length bhsa_to_strongs
    /\ 0 < CreateComplete.total_bhsa_lexemes summary
    /\ CreateComplete.exact_match summary
       = length (CreateComplete.reverse_mapping strongs_mapping)
    /\ CreateComplete.exact_match summary
       + CreateComplete.consonantal_match summary
       + CreateComplete.fuzzy_match summary
       = CreateComplete.total_matched summary
    /\ CreateComplete.high summary + CreateComplete.medium summary
       + CreateComplete.low summary
       = CreateComplete.total_matched summary
    /\ CreateComplete.coverage summary
       = Binary64.round
           (Binary64.div_int
              (Z.of_nat (100 * CreateComplete.total_matched summary))
              (Z.of_nat (CreateComplete.total_bhsa_lexemes summary)))
           2.
Proof.
  intro Hex.
  destruct (create_complete_value category strongs_mapping lex_lines
              voc_lex_lines) as [all_bhsa [added [Hload [_ [Hmeth Hval]]]]].
  rewrite Hval.
  apply (load_all_bhsa_nonempty category lex_lines voc_lex_lines Hload) in Hex.
  destruct all_bhsa as [|kv all_bhsa]; [contradiction |].
  cbn [length Binary64.truediv bind].
  eexists. eexists. split; [reflexivity |].
  cbn [CreateComplete.total_matched CreateComplete.total_bhsa_lexemes
       CreateComplete.exact_match CreateComplete.consonantal_match
       CreateComplete.fuzzy_match CreateComplete.high CreateComplete.medium
       CreateComplete.low CreateComplete.coverage].
  split; [now exists added |]. split; [reflexivity |]. split; [lia |].
  split; [reflexivity |]. split.
  { rewrite length_app, <- (method_partition Hmeth). lia. }
  split; [apply confidence_partition |].
  reflexivity.
Qed.

(** The function on the sample files: of three lexemes, ahav is matched by
    step 1 and David by the coverage pass; the coverage is
    [round(200 / 3, 2)], the float 66.67. *)
Lemma create_complete_sample :
  CreateComplete.create_complete_bhsa_to_strongs hebrew_block_category
    sample_strongs_mapping sample_lex_lines sample_voc_lex_lines
  = Ok ([ (ahav_pointed,
           {| CompleteMapping.strongs := strongs_H157;
              CompleteMapping.strongs_lemma := ahav_pointed;
              CompleteMapping.score := 1.0%Q;
              CompleteMapping.method := "exact_match";
              CompleteMapping.kjv_glosses := gloss_love |});
          (dvd,
           {| CompleteMapping.strongs := strongs_H1732;
              CompleteMapping.strongs_lemma := dvvd;
              CompleteMapping.score := CompleteMapping.round3 0.85;
              CompleteMapping.method := "fuzzy_match";
              CompleteMapping.kjv_glosses := gloss_David |}) ],
        {| CreateComplete.total_bhsa_lexemes := 3;
           CreateComplete.total_matched := 2;
           CreateComplete.coverage := Binary64.div_int 6667 100;
           CreateComplete.exact_match := 1;
           CreateComplete.consonantal_match := 0;
           CreateComplete.fuzzy_match := 1;
           CreateComplete.high := 1;
           CreateComplete.medium := 1;
           CreateComplete.low := 0 |}).
Proof. vm_compute. reflexivity. Qed.

Lemma create_complete_summary_witness :
  (exists i,
     i < Nat.min (length sample_lex_lines) BuildMapping.word_limit
     /\ nth i sample_voc_lex_lines [] <> [])
  /\ exists bhsa_to_strongs summary,
       CreateComplete.create_complete_bhsa_to_strongs hebrew_block_category
         sample_strongs_mapping sample_lex_lines sample_voc_lex_lines
       = Ok (bhsa_to_strongs, summary)
       /\ (exists added,
             bhsa_to_strongs
             = CreateComplete.reverse_mapping sample_strongs_mapping ++ added)
       /\ CreateComplete.total_matched summary = length bhsa_to_strongs
       /\ 0 < CreateComplete.total_bhsa_lexemes summary
       /\ CreateComplete.exact_match summary
          = length (CreateComplete.reverse_mapping sample_strongs_mapping)
       /\ CreateComplete.exact_match summary
          + CreateComplete.consonantal_match summary
          + CreateComplete.fuzzy_match summary
          = CreateComplete.total_matched summary
       /\ CreateComplete.high summary + CreateComplete.medium summary
          + CreateComplete.low summary
          = CreateComplete.total_matched summary
       /\ CreateComplete.coverage summary
          = Binary64.round
              (Binary64.div_int
                 (Z.of_nat (100 * CreateComplete.total_matched summary))
                 (Z.of_nat (CreateComplete.total_bhsa_lexemes summary)))
              2.
Proof.
  assert (H : exists i,
             i < Nat.min (length sample_lex_lines) BuildMapping.word_limit
             /\ nth i sample_voc_lex_lines [] <> []).
  { exists 0. split; [| discriminate].
    apply Nat.min_glb_lt; [cbn; lia | unfold BuildMapping.word_limit; lia]. }
  split; [exact H |].
  exact (@create_complete_summary hebrew_block_category
           sample_strongs_mapping sample_lex_lines sample_voc_lex_lines H).
Defined.

(** ** The offset of a node *)

Section Offsets.

Import EnglishTranslation.

Lemma insert_asc_in (x y : Z) (l : list Z) :
  In y (insert_asc x l) <-> y = x \/ In y l.
Proof.
  induction l as [|z l IH]; cbn [insert_asc In].
  - split; [intros [H | []]; now left | intros [H | []]; now left].
  - destruct (x <=? z)%Z; cbn [In]; [split; intuition congruence |].
    rewrite IH. split; intuition congruence.
Qed.

Lemma sorted_in (l : list Z) (y : Z) : In y (sorted l) <-> In y l.
Proof.
  unfold sorted. induction l as [|x l IH]; cbn [fold_right In]; [tauto |].
  rewrite insert_asc_in, IH. split; intuition congruence.
Qed.

Lemma insert_asc_sorted (x : Z) (l : list Z) :
  StronglySorted Z.le l -> StronglySorted Z.le (insert_asc x l).
Proof.
  induction 1 as [|y l Hs IH Hall]; cbn [insert_asc].
  - constructor; constructor.
  - destruct (x <=? y)%Z eqn:E.
    + apply Z.leb_le in E. constructor; [now constructor |].
      constructor; [exact E |].
      eapply Forall_impl; [| exact Hall]. intros z Hz. cbv beta in Hz. lia.
    + apply Z.leb_gt in E. constructor; [exact IH |].
      apply Forall_forall. intros z Hz. apply insert_asc_in in Hz.
      destruct Hz as [-> | Hz]; [lia |].
      rewrite Forall_forall in Hall. now apply Hall.
Qed.

Lemma sorted_sorted (l : list Z) : StronglySorted Z.le (sorted l).
Proof.
  unfold sorted. induction l as [|x l IH]; cbn [fold_right];
    [constructor | now apply insert_asc_sorted].
Qed.

Lemma offset_get_keys (d : offset_dict) (k : Z) :
  In k (map fst d) -> exists v, offset_get d k = Some v.
Proof.
  induction d as [|[k0 v0] d IH]; cbn [map fst In offset_get]; [contradiction |].
  intros [-> | H].
  - rewrite Z.eqb_refl. now exists v0.
  - destruct (k =? k0)%Z; [now exists v0 | now apply IH].
Qed.

(** The loop over an increasing list of keys of the dictionary: it stops at
    the first key above the node and returns the value of the last key it
    passed, or the offset it started with when it passed none. *)
Lemma offset_loop_value (d : offset_dict) (n : Z) (nodes : list Z) :
  StronglySorted Z.le nodes ->
  (forall k, In k nodes -> In k (map fst d)) ->
  forall offset,
  exists v,
    offset_loop d n nodes offset = Ok v
    /\ (((forall k, In k nodes -> (n < k)%Z) /\ v = offset)
        \/ (exists k,
              In k nodes /\ (k <= n)%Z
              /\ (forall k', In k' nodes -> (k' <= n)%Z -> (k' <= k)%Z)
              /\ offset_get d k = Some v)).
Proof.
  induction 1 as [|node nodes Hs IH Hall]; intros Hkeys offset.
  - exists offset. split; [reflexivity |]. left. split; [intros k [] | reflexivity].
  - cbn [offset_loop]. rewrite Forall_forall in Hall.
    destruct (n >=? node)%Z eqn:E.
    + apply Z.geb_le in E.
      destruct (offset_get_keys d node (Hkeys node (or_introl eq_refl)))
        as [v0 Hv0].
      unfold offset_getitem. rewrite Hv0. cbn [bind].
      destruct (IH (fun k H => Hkeys k (or_intror H)) v0)
        as [v [Hrun Hcase]].
      exists v. split; [exact Hrun |]. right.
      destruct Hcase as [[Hgt ->] | [k [Hin [Hle [Hmax Hget]]]]].
      * exists node. split; [now left |]. split; [exact E |].
        split; [| exact Hv0].
        intros k' [<- | Hk'] Hle; [lia |]. specialize (Hgt k' Hk'). lia.
      * exists k. split; [now right |]. split; [exact Hle |].
        split; [| exact Hget].
        intros k' [<- | Hk'] Hle'; [now apply Hall | now apply Hmax].
    + exists offset. split; [reflexivity |]. left. split; [| reflexivity].
      assert (Hlt : (n < node)%Z).
      { rewrite Z.geb_leb in E. apply Z.leb_gt in E. exact E. }
      intros k [<- | Hk]; [exact Hlt |]. specialize (Hall k Hk). lia.
Qed.

End Offsets.

(** X28. [_get_offset] never raises.  It returns the offset stored under the
    greatest key of [offset_map] that is not above the node, and [0] when
    every key is above the node (so also for an empty map). *)
Theorem get_offset_greatest_key (offset_map : EnglishTranslation.offset_dict)
        (bhsa_node : Z) :
  exists offset,
    EnglishTranslation._get_offset offset_map bhsa_node = Ok offset
    /\ (((forall k, In k (map fst offset_map) -> (bhsa_node < k)%Z)
         /\ offset = 0%Z)
        \/ (exists k,
              In k (map fst offset_map) /\ (k <= bhsa_node)%Z
              /\ (forall k', In k' (map fst offset_map) ->
                             (k' <= bhsa_node)%Z -> (k' <= k)%Z)
              /\ EnglishTranslation.offset_get offset_map k = Some offset)).
Proof.
  unfold EnglishTranslation._get_offset. cbv zeta.
  destruct (offset_loop_value offset_map bhsa_node
              (sorted_sorted (map fst offset_map))
              (fun k H => proj1 (sorted_in (map fst offset_map) k) H) 0%Z)
    as [v [Hrun Hcase]].
  exists v. split; [exact Hrun |].
  destruct Hcase as [[Hgt ->] | [k [Hin [Hle [Hmax Hget]]]]]; [left | right].
  - split; [| reflexivity]. intros k Hk. apply Hgt. now apply sorted_in.
  - exists k. split; [now apply sorted_in |]. split; [exact Hle |].
    split; [| exact Hget]. intros k' Hk'. apply Hmax. now apply sorted_in.
Qed.

(** ** The manual corrections *)

Section Corrections.

Import CompleteMapping ManualCorrections.

Variable strongs_data : dict CreateComplete.Entry.t.

Lemma dict_contains_same_keys {V W} (d1 : dict V) (d2 : dict W) (k : str) :
  dict_keys d1 = dict_keys d2 -> dict_contains d1 k = dict_contains d2 k.
Proof.
  intro H. destruct (dict_contains d2 k) eqn:E.
  - apply dict_contains_keys. rewrite H. now apply dict_contains_keys.
  - destruct (dict_contains d1 k) eqn:E1; [| reflexivity].
    apply dict_contains_keys in E1. rewrite H in E1.
    apply dict_contains_keys in E1. congruence.
Qed.

Lemma dict_get_not_key {V} (d : dict V) (k : str) :
  ~ In k (dict_keys d) -> dict_get d k = None.
Proof.
  intro H. destruct (dict_get d k) eqn:E; [| reflexivity].
  exfalso. apply H. apply dict_contains_keys. unfold dict_contains.
  now rewrite E.
Qed.

(** The loop over a table with distinct words. *)
Lemma corrections_loop (table : dict str) :
  NoDup (dict_keys table) ->
  forall mapping corrections_made,
  exists mapping',
    for_each (correction_step strongs_data) table (mapping, corrections_made)
    = Ok (mapping',
          corrections_made
          + length (filter (applies mapping strongs_data) table))
    /\ dict_keys mapping' = dict_keys mapping
    /\ forall k,
        dict_get mapping' k
        = option_map (corrected table strongs_data k) (dict_get mapping k).
Proof.
  induction table as [|[k0 s0] l IH]; intros Hnd m c.
  - exists m. cbn [for_each filter length]. rewrite Nat.add_0_r.
    split; [reflexivity |]. split; [reflexivity |].
    intro k. unfold corrected. cbn [dict_get]. now destruct (dict_get m k).
  - cbn [dict_keys map fst] in Hnd. inversion Hnd as [|? ? Hnotin Hnd']; subst.
    pose proof (dict_get_not_key l k0 Hnotin) as Hl.
    cbn [for_each filter]. unfold correction_step at 1.
    unfold applies at 1. cbn [fst snd].
    assert (Hcorr : forall k old,
              corrected ((k0, s0) :: l) strongs_data k old
              = if Py.str_eqb k k0
                then match dict_get strongs_data s0 with
                     | Some se => corrected_entry s0 se old
                     | None => old
                     end
                else corrected l strongs_data k old).
    { intros k old. unfold corrected. cbn [dict_get].
      now destruct (Py.str_eqb k k0). }
    assert (Hfix : forall old, corrected l strongs_data k0 old = old).
    { intro old. unfold corrected. now rewrite Hl. }
    unfold dict_contains at 1, dict_getitem at 1.
    destruct (dict_get m k0) as [old|] eqn:Em; cbn [bind andb].
    + unfold dict_contains at 1, dict_getitem at 1.
      destruct (dict_get strongs_data s0) as [se|] eqn:Es; cbn [bind].
      * fold (corrected_entry s0 se old).
        assert (Hkeys : dict_keys (dict_set m k0 (corrected_entry s0 se old))
                        = dict_keys m).
        { rewrite dict_set_keys. unfold dict_contains. now rewrite Em. }
        destruct (IH Hnd' (dict_set m k0 (corrected_entry s0 se old)) (c + 1))
          as [m' [Hrun [Hk Hget]]].
        exists m'. rewrite Hrun. split.
        { f_equal. f_equal. unfold dict_contains. rewrite Em, Es.
          cbn [andb length].
          rewrite (filter_ext (applies (dict_set m k0
                                          (corrected_entry s0 se old))
                                       strongs_data)
                              (applies m strongs_data)).
          - lia.
          - intros [k s]. unfold applies. cbn [fst snd].
            now rewrite (dict_contains_same_keys _ m k Hkeys). }
        split; [now rewrite Hk |].
        intro k. rewrite Hget, dict_get_set.
        destruct (Py.str_eqb k k0) eqn:Ek.
        -- apply str_eqb_eq in Ek. subst k. rewrite Em. cbn [option_map].
           now rewrite Hfix, Hcorr, str_eqb_refl.
        -- destruct (dict_get m k); [| reflexivity]. cbn [option_map].
           now rewrite Hcorr, Ek.
      * destruct (IH Hnd' m c) as [m' [Hrun [Hk Hget]]].
        exists m'. rewrite Hrun. split.
        { unfold dict_contains. now rewrite Em, Es. }
        split; [exact Hk |].
        intro k. rewrite Hget. destruct (dict_get m k) as [old'|] eqn:Ek;
          [| reflexivity].
        cbn [option_map]. rewrite Hcorr.
        destruct (Py.str_eqb k k0) eqn:Ek0; [| reflexivity].
        apply str_eqb_eq in Ek0. subst k. now rewrite Hfix.
    + destruct (IH Hnd' m c) as [m' [Hrun [Hk Hget]]].
      exists m'. rewrite Hrun.
      split; [unfold dict_contains; now rewrite Em |]. split; [exact Hk |].
      intro k. rewrite Hget. destruct (dict_get m k) as [old'|] eqn:Ek;
        [| reflexivity].
      cbn [option_map]. rewrite Hcorr.
      destruct (Py.str_eqb k k0) eqn:Ek0; [| reflexivity].
      apply str_eqb_eq in Ek0. subst k. congruence.
Qed.

(** The words of the table are distinct. *)
Lemma MANUAL_CORRECTIONS_nodup : NoDup (dict_keys MANUAL_CORRECTIONS).
Proof. apply distinctb_nodup. vm_compute. reflexivity. Qed.

Lemma corrections_confidence_partition (d : dict entry) :
  count_values (fun v => PyMore.geb (score v) 0.9%Q) d
  + count_values (fun v => PyMore.geb (score v) 0.7%Q
                           && Py.ltb (score v) 0.9%Q) d
  + count_values (fun v => Py.ltb (score v) 0.7%Q) d
  = length d.
Proof.
  unfold count_values. induction d as [|[k e] d IH]; [reflexivity |].
  cbn [map snd filter length].
  destruct (PyMore.geb (score e) 0.9%Q) eqn:E1;
    destruct (PyMore.geb (score e) 0.7%Q) eqn:E2;
    destruct (Py.ltb (score e) 0.9%Q) eqn:E3;
    destruct (Py.ltb (score e) 0.7%Q) eqn:E4;
    cbn [andb length]; try lia; exfalso;
    repeat match goal with
           | H : PyMore.geb _ _ = true |- _ => apply geb_true in H
           | H : PyMore.geb _ _ = false |- _ => apply geb_false in H
           | H : Py.ltb _ _ = true |- _ => apply py_ltb_lt in H
           | H : Py.ltb ?a ?b = false |- _ =>
               assert (b <= a)%Q
                 by (apply Qnot_lt_le; intro Hlt; apply py_ltb_lt in Hlt;
                     congruence);
               clear H
           end; lra.
Qed.

End Corrections.

(** X29. [apply_manual_corrections] never raises.  The mapping it returns
    has the keys of the mapping it read, in the same order; the entry of a
    word is replaced exactly when the word is in [MANUAL_CORRECTIONS] and
    the number given there is a key of the dictionary file, and then by an
    entry with this number, the lemma and glosses of its dictionary entry,
    score [1.0], method [manual_correction] and the old number as
    [previous_match]; every other entry is unchanged.
    [manual_correction] in the summary counts the items of the table that
    were applied, both totals are the size of the mapping, and the three
    confidence classes add up to it. *)
Theorem apply_manual_corrections_result
        (mapping : CompleteMapping.dict ManualCorrections.entry)
        (strongs_data : CompleteMapping.dict CreateComplete.Entry.t) :
  exists mapping' summary,
    ManualCorrections.apply_manual_corrections mapping strongs_data
    = Ok (mapping', summary)
    /\ CompleteMapping.dict_keys mapping' = CompleteMapping.dict_keys mapping
    /\ (forall k,
          CompleteMapping.dict_get mapping' k
          = option_map
              (corrected ManualCorrections.MANUAL_CORRECTIONS strongs_data k)
              (CompleteMapping.dict_get mapping k))
    /\ ManualCorrections.manual_correction summary
       = length (filter (applies mapping strongs_data)
                        ManualCorrections.MANUAL_CORRECTIONS)
    /\ ManualCorrections.total_matched summary = length mapping
    /\ ManualCorrections.total_bhsa_lexemes summary = length mapping
    /\ ManualCorrections.high summary + ManualCorrections.medium summary
       + ManualCorrections.low summary
       = length mapping.
Proof.
  unfold ManualCorrections.apply_manual_corrections. cbv zeta.
  destruct (@corrections_loop strongs_data _ MANUAL_CORRECTIONS_nodup mapping 0)
    as [m' [Hrun [Hk Hget]]].
  rewrite Hrun. cbn [bind].
  assert (Hlen : length m' = length mapping).
  { unfold CompleteMapping.dict_keys in Hk.
    rewrite <- (length_map fst m'), Hk. apply length_map. }
  eexists. eexists. split; [reflexivity |].
  cbn [ManualCorrections.manual_correction ManualCorrections.total_matched
       ManualCorrections.total_bhsa_lexemes ManualCorrections.high
       ManualCorrections.medium ManualCorrections.low].
  split; [exact Hk |]. split; [exact Hget |]. split; [reflexivity |].
  split; [exact Hlen |]. split; [exact Hlen |].
  rewrite corrections_confidence_partition. exact Hlen.
Qed.

(** ** The reverse index of create_supplementary_mapping.py *)

Section ReverseIndex.

Import CompleteMapping Supplementary.

Lemma for_each_app {A St} (body : St -> A -> result St) (l1 l2 : list A) :
  forall s,
  for_each body (l1 ++ l2) s
  = (s' <- for_each body l1 s ;; for_each body l2 s').
Proof.
  induction l1 as [|x l1 IH]; intro s; cbn [app for_each bind]; [reflexivity |].
  destruct (body s x) as [s1 | e]; cbn [bind]; [apply IH | reflexivity].
Qed.

(** The three nested loops visit the pairs of [keyed_entries] in order. *)
Lemma create_mapping_fold (strongs_mapping : dict CreateComplete.Entry.t) :
  forall d,
  for_each entry_step strongs_mapping d
  = for_each group_step (keyed_entries strongs_mapping) d.
Proof.
  induction strongs_mapping as [|[num entry] l IH]; intro d; [reflexivity |].
  cbn [for_each]. unfold keyed_entries, all_matches. cbn [flat_map].
  rewrite flat_map_app, for_each_app.
  fold (all_matches l). fold (keyed_entries l).
  assert (Hentry : forall ms d0,
            for_each (match_step num entry) ms d0
            = for_each group_step
                (flat_map (fun x : str * CreateComplete.Entry.t
                                   * BuildMapping.Match.t =>
                             [ (BuildMapping.Match.bhsa_lex (snd x),
                                index_entry_of x);
                               (BuildMapping.Match.bhsa_voc (snd x),
                                index_entry_of x) ])
                          (map (fun m => (num, entry, m)) ms)) d0).
  { induction ms as [|m ms IHm]; intro d0; [reflexivity |].
    cbn [for_each map flat_map app fst snd]. unfold match_step at 1.
    cbn [for_each].
    change (key_step num entry m d0 (BuildMapping.Match.bhsa_lex m))
      with (group_step d0 (BuildMapping.Match.bhsa_lex m,
                           index_entry_of (num, entry, m))).
    destruct (group_step d0 _) as [d1 | e]; cbn [bind]; [| reflexivity].
    change (key_step num entry m d1 (BuildMapping.Match.bhsa_voc m))
      with (group_step d1 (BuildMapping.Match.bhsa_voc m,
                           index_entry_of (num, entry, m))).
    destruct (group_step d1 _) as [d2 | e]; cbn [bind]; [| reflexivity].
    apply IHm. }
  unfold entry_step at 1. cbn [fst snd]. rewrite Hentry.
  destruct (for_each group_step _ d) as [d1 | e]; cbn [bind];
    [apply IH | reflexivity].
Qed.

(** Grouping never raises; the buckets after the loop. *)
Lemma group_loop (items : list (str * index_entry)) :
  forall d,
  NoDup (dict_keys d) ->
  exists d',
    for_each group_step items d = Ok d'
    /\ NoDup (dict_keys d')
    /\ forall k,
        dict_get d' k
        = match dict_get d k,
                (if PyMore.str_not k then []
                 else map snd (filter (fun kv => Py.str_eqb (fst kv) k) items))
          with
          | None, [] => None
          | None, ls => Some ls
          | Some b, ls => Some (b ++ ls)
          end.
Proof.
  induction items as [|[k0 v0] items IH]; intros d Hnd.
  - exists d. split; [reflexivity |]. split; [exact Hnd |].
    intro k. cbn [filter map]. destruct (dict_get d k) as [b|].
    + destruct (PyMore.str_not k); now rewrite app_nil_r.
    + now destruct (PyMore.str_not k).
  - cbn [for_each]. unfold group_step at 1. cbn [fst snd].
    destruct (PyMore.str_not k0) eqn:E0; cbn [negb andb bind].
    + destruct (IH d Hnd) as [d' [Hrun [Hnd' Hget]]].
      exists d'. split; [exact Hrun |]. split; [exact Hnd' |].
      intro k. rewrite Hget. cbn [filter fst].
      destruct (PyMore.str_not k) eqn:Ek; [reflexivity |].
      destruct (Py.str_eqb k0 k) eqn:Ekk; [| reflexivity].
      apply str_eqb_eq in Ekk. congruence.
    + set (d1 := if negb (dict_contains d k0) then dict_set d k0 [] else d).
      assert (Hnd1 : NoDup (dict_keys d1)).
      { subst d1. destruct (negb (dict_contains d k0));
          [now apply dict_set_nodup | exact Hnd]. }
      assert (Hget1 : forall k,
                dict_get d1 k
                = match dict_get d k with
                  | Some b => Some b
                  | None => if Py.str_eqb k k0 then Some [] else None
                  end).
      { intro k. subst d1. unfold dict_contains.
        destruct (dict_get d k0) as [b0|] eqn:Ed; cbn [negb].
        - destruct (dict_get d k) eqn:E; [reflexivity |].
          destruct (Py.str_eqb k k0) eqn:En; [| reflexivity].
          apply str_eqb_eq in En. congruence.
        - rewrite dict_get_set. destruct (Py.str_eqb k k0) eqn:En.
          + apply str_eqb_eq in En. subst k. now rewrite Ed.
          + now destruct (dict_get d k). }
      unfold dict_getitem.
      destruct (dict_get d1 k0) as [bucket|] eqn:Eb.
      2:{ rewrite Hget1, str_eqb_refl in Eb.
          destruct (dict_get d k0); discriminate. }
      cbn [bind].
      destruct (IH (dict_set d1 k0 (bucket ++ [v0])))
        as [d' [Hrun [Hnd' Hget']]]; [now apply dict_set_nodup |].
      exists d'. split; [exact Hrun |]. split; [exact Hnd' |].
      intro k. rewrite Hget', dict_get_set. cbn [filter fst].
      rewrite (str_eqb_sym k0 k).
      destruct (Py.str_eqb k k0) eqn:En.
      * apply str_eqb_eq in En. subst k. rewrite E0. cbn [map snd].
        rewrite Hget1, str_eqb_refl in Eb.
        destruct (dict_get d k0) as [b0|]; injection Eb as <-.
        -- now rewrite <- app_assoc.
        -- reflexivity.
      * rewrite Hget1, En. now destruct (dict_get d k).
Qed.

End ReverseIndex.

Lemma bucket_of_twice
      (strongs_mapping : CompleteMapping.dict CreateComplete.Entry.t)
      (x : str * CreateComplete.Entry.t * BuildMapping.Match.t) :
  In x (all_matches strongs_mapping) ->
  BuildMapping.Match.bhsa_lex (snd x) <> [] ->
  BuildMapping.Match.bhsa_lex (snd x) = BuildMapping.Match.bhsa_voc (snd x) ->
  exists pre post,
    bucket_of strongs_mapping (BuildMapping.Match.bhsa_lex (snd x))
    = pre ++ index_entry_of x :: index_entry_of x :: post.
Proof.
  intros Hin Hne Heq. unfold bucket_of, keyed_entries.
  destruct (BuildMapping.Match.bhsa_lex (snd x)) as [|c k] eqn:Ek;
    [contradiction |].
  cbn [PyMore.str_not].
  apply in_split in Hin. destruct Hin as [a [b ->]].
  rewrite flat_map_app. cbn [flat_map]. rewrite filter_app, map_app.
  cbn [app filter fst]. rewrite <- Heq, Ek, str_eqb_refl. cbn [map snd].
  eexists. eexists. reflexivity.
Qed.

(** X30. [create_bhsa_to_strongs_mapping] of create_supplementary_mapping.py
    never raises.  The index it returns has distinct, non-empty keys, and
    the bucket of a form holds, in reading order, one element for every
    match whose [bhsa_lex] is the form and one for every match whose
    [bhsa_voc] is the form; a form that no match carries has no bucket.
    Hence a match whose two forms are equal is stored twice, side by side,
    in the same bucket. *)
Theorem create_bhsa_to_strongs_mapping_buckets
        (strongs_mapping : CompleteMapping.dict CreateComplete.Entry.t) :
  exists bhsa_to_strongs,
    Supplementary.create_bhsa_to_strongs_mapping strongs_mapping
    = Ok bhsa_to_strongs
    /\ NoDup (CompleteMapping.dict_keys bhsa_to_strongs)
    /\ ~ In [] (CompleteMapping.dict_keys bhsa_to_strongs)
    /\ (forall k,
          CompleteMapping.dict_get bhsa_to_strongs k
          = match bucket_of strongs_mapping k with
            | [] => None
            | bucket => Some bucket
            end)
    /\ (forall x,
          In x (all_matches strongs_mapping) ->
          BuildMapping.Match.bhsa_lex (snd x) <> [] ->
          BuildMapping.Match.bhsa_lex (snd x)
          = BuildMapping.Match.bhsa_voc (snd x) ->
          exists pre post,
            CompleteMapping.dict_get bhsa_to_strongs
              (BuildMapping.Match.bhsa_lex (snd x))
            = Some (pre ++ index_entry_of x :: index_entry_of x :: post)).
Proof.
  unfold Supplementary.create_bhsa_to_strongs_mapping.
  rewrite create_mapping_fold.
  destruct (@group_loop (keyed_entries strongs_mapping) [] (NoDup_nil _))
    as [d [Hrun [Hnd Hget]]].
  assert (Hget' : forall k,
            CompleteMapping.dict_get d k
            = match bucket_of strongs_mapping k with
              | [] => None
              | bucket => Some bucket
              end).
  { intro k. rewrite Hget. cbn [CompleteMapping.dict_get]. reflexivity. }
  exists d. split; [exact Hrun |]. split; [exact Hnd |].
  split; [| split; [exact Hget' |]].
  - intro Hin. apply dict_contains_keys in Hin.
    unfold CompleteMapping.dict_contains in Hin. rewrite Hget' in Hin.
    cbn in Hin. discriminate.
  - intros x Hin Hne Heq. rewrite Hget'.
    destruct (bucket_of_twice strongs_mapping x Hin Hne Heq)
      as [pre [post Hb]].
    exists pre, post. rewrite Hb. now destruct pre.
Qed.
